(** * use-destructuring: per-element and per-field setState functions

    A shallow embedding of the two implementations of [useDestucturing] that
    the repository holds,

    - [src/use-destructuring.ts]  (module [VariantA] below), and
    - [src/unnamed/part_000]      (module [VariantB] below),

    together with the properties of the reconciliation, of the synthesized
    mutators and of the key-set fingerprint.

    Modelling conventions.

    - JavaScript values are the inductive [value]. State containers are never
      written in place by this code (every write goes to a fresh copy), so an
      array or object is an immutable value that carries the identity [oid] of
      its allocation; [===] and [Object.is] on objects compare identities.
      Numbers are integers, [-0] and [NaN]. Objects are their own enumerable
      string-keyed data properties in [Object.keys] order; prototypes and
      accessors are not modelled.
    - Arrays keep their holes: a slot is [None] for a hole.
    - Strings are Rocq strings, one character per code unit: the keys of a
      record range over the code units below 256. The names [capitalize]
      builds are lists of UTF-16 code units, since [toUpperCase] leaves that
      range (U+00FF gives U+0178).
    - A closure is its code (a Rocq function) together with the [oid] of the
      function object; two closures are reference-identical when they are the
      same allocation.
    - Allocation and [throw] are threaded by the monad [M]: the state is the
      next unused [oid]. Identities are tracked for state containers, for
      closures and for the derived output container; the tuples inside the
      output and the [Map] of the cache carry none.
    - React's [useRef] and [useMemo] cells of one call site are the record
      [hook]; [None] is a site before its first render. [useMemo] runs its
      factory on the first render and whenever a dependency differs, by
      [Object.is], from the stored one. A render that throws leaves no cells
      behind.
    - An update argument is a [SetStateAction]: a literal value or an updater
      function; as in the source, a function is always taken as an updater.
      Updaters may allocate and may throw. *)

From Stdlib Require Import ZArith Lia Ascii String.
From stdpp Require Import gmap strings list.

(** ** 32-bit integer operators of JavaScript *)

Module Int32.
(** [ToUint32] and [ToInt32] on an integral number. *)
Definition to_uint32 (z : Z) : Z := (z mod 2 ^ 32)%Z.
Definition to_int32 (z : Z) : Z :=
  let u := to_uint32 z in if (u <? 2 ^ 31)%Z then u else (u - 2 ^ 32)%Z.
(** [Math.imul(a, b)] *)
Definition imul (a b : Z) : Z := to_int32 (to_int32 a * to_int32 b).
(** [a ^ b] *)
Definition xor (a b : Z) : Z := to_int32 (Z.lxor (to_int32 a) (to_int32 b)).
(** [a & b] *)
Definition and (a b : Z) : Z := to_int32 (Z.land (to_int32 a) (to_int32 b)).
(** [a >>> k] *)
Definition ushr (a k : Z) : Z := Z.shiftr (to_uint32 a) (k mod 32).
End Int32.

(** ** Structural fingerprint: [hashString] and [hashStrings] *)

(** [str.charCodeAt(i)] of one character. *)
Definition charCode (c : ascii) : Z := Z.of_N (N_of_ascii c).

(** The [for] loop of [hashString], from the first character on. *)
Fixpoint hashString_loop (str : string) (h1 h2 : Z) : Z * Z :=
  match str with
  | EmptyString => (h1, h2)
  | String c rest =>
      let ch := charCode c in
      hashString_loop rest
        (Int32.imul (Int32.xor h1 ch) 2654435761)
        (Int32.imul (Int32.xor h2 ch) 1597334677)
  end.

(** cyrb53, up to its [return]: the two words [h1] and [h2]. *)
Definition hashString_words (str : string) (seed : Z) : Z * Z :=
  let h1 := Int32.xor 0xdeadbeef seed in
  let h2 := Int32.xor 0x41c6ce57 seed in
  let '(h1, h2) := hashString_loop str h1 h2 in
  let h1 := Int32.imul (Int32.xor h1 (Int32.ushr h1 16)) 2246822507 in
  let h1 := Int32.xor h1 (Int32.imul (Int32.xor h2 (Int32.ushr h2 13)) 3266489909) in
  let h2 := Int32.imul (Int32.xor h2 (Int32.ushr h2 16)) 2246822507 in
  let h2 := Int32.xor h2 (Int32.imul (Int32.xor h1 (Int32.ushr h1 13)) 3266489909) in
  (h1, h2).

(** [return 4294967296 * (2097151 & h2) + (h1 >>> 0)]. This line is
    arithmetic on doubles; its operands and its result are integers below
    [2^53], where that arithmetic is exact. *)
Definition hashString (str : string) (seed : Z) : Z :=
  let '(h1, h2) := hashString_words str seed in
  (4294967296 * Int32.and 2097151 h2 + Int32.ushr h1 0)%Z.

(** [str.map(s => hashString(s)).reduce((a, b) => a ^ b, 0)] *)
Definition hashStrings (str : list string) : Z :=
  fold_left (fun a b => Int32.xor a b) (map (fun s => hashString s 0) str) 0%Z.

(** ** Values *)

Definition oid := nat.

Inductive value :=
| VUndefined
| VNull
| VBoolean (b : bool)
| VNumber (n : Z)
| VNegZero
| VNaN
| VString (s : string)
| VFunction (id : oid)
| VArray (a : JsArray)
| VObject (o : JsObject)
with JsArray := Arr (id : oid) (slots : list (option value))
with JsObject := Obj (id : oid) (fields : list (string * value)).

Definition arr_id (a : JsArray) : oid := let 'Arr id _ := a in id.
Definition arr_slots (a : JsArray) : list (option value) := let 'Arr _ s := a in s.
Definition obj_id (o : JsObject) : oid := let 'Obj id _ := o in id.
Definition obj_fields (o : JsObject) : list (string * value) := let 'Obj _ f := o in f.

(** [a === b] *)
Definition strict_eq (a b : value) : bool :=
  match a, b with
  | VUndefined, VUndefined => true
  | VNull, VNull => true
  | VBoolean x, VBoolean y => Bool.eqb x y
  | VNumber x, VNumber y => (x =? y)%Z
  | VNumber x, VNegZero | VNegZero, VNumber x => (x =? 0)%Z
  | VNegZero, VNegZero => true
  | VString x, VString y => String.eqb x y
  | VFunction x, VFunction y => Nat.eqb x y
  | VArray x, VArray y => Nat.eqb (arr_id x) (arr_id y)
  | VObject x, VObject y => Nat.eqb (obj_id x) (obj_id y)
  | _, _ => false
  end.

(** [Object.is(a, b)], the comparison [useMemo] applies to dependencies. *)
Definition object_is (a b : value) : bool :=
  match a, b with
  | VNaN, VNaN => true
  | VNumber _, VNegZero | VNegZero, VNumber _ => false
  | _, _ => strict_eq a b
  end.

Definition typeof (v : value) : string :=
  match v with
  | VUndefined => "undefined"
  | VNull => "object"
  | VBoolean _ => "boolean"
  | VNumber _ | VNegZero | VNaN => "number"
  | VString _ => "string"
  | VFunction _ => "function"
  | VArray _ | VObject _ => "object"
  end.

(** [obj !== null && typeof obj === 'object'] *)
Definition isObjectOrArray (obj : value) : bool :=
  negb (strict_eq obj VNull) && String.eqb (typeof obj) "object".

(** [Object.keys(object)] *)
Definition keysOf (object : JsObject) : list string := map fst (obj_fields object).

(** ** Allocation and exceptions *)

Inductive error :=
| UsageError (message : string)   (* [throw new Error(message)] in the source *)
| TypeError.                      (* reading a property of [undefined] *)

Inductive outcome (A : Type) :=
| Ok (a : A) (next : oid)
| Throw (e : error).
Arguments Ok {A} a next.
Arguments Throw {A} e.

Definition M (A : Type) : Type := oid -> outcome A.

Definition ret {A} (a : A) : M A := fun n => Ok a n.
Definition throw {A} (e : error) : M A := fun _ => Throw e.
Definition bind {A B} (c : M A) (k : A -> M B) : M B :=
  fun n => match c n with
           | Ok a n' => k a n'
           | Throw e => Throw e
           end.
(** A new object: its identity is the next unused one. *)
Definition fresh : M oid := fun n => Ok n (S n).

Notation "'do' x <- c ; k" := (bind c (fun x => k))
  (at level 10, x name, c at level 100, k at level 200, only parsing).
Notation "'do' ' pat <- c ; k" := (bind c (fun x => match x with pat => k end))
  (at level 10, pat pattern, c at level 100, k at level 200, only parsing).

(** [for (const x of xs) acc = body(x, acc)] *)
Fixpoint for_of {A S} (xs : list A) (acc : S) (body : A -> S -> M S) : M S :=
  match xs with
  | [] => ret acc
  | x :: rest => do acc' <- body x acc; for_of rest acc' body
  end.

(** [xs.map(f)] on a list without holes, the calls made from left to right. *)
Fixpoint map_M {A B} (f : A -> M B) (xs : list A) : M (list B) :=
  match xs with
  | [] => ret []
  | x :: rest => do y <- f x; do ys <- map_M f rest; ret (y :: ys)
  end.

(** ** React's [SetStateAction] and [Dispatch] *)

Inductive SetStateAction (T : Type) :=
| Literal (v : T)
| Updater (f : T -> M T).
Arguments Literal {T} v.
Arguments Updater {T} f.

(** [setStateAction instanceof Function ? setStateAction(oldValue) : setStateAction] *)
Definition evaluateSetStateAction {T} (setStateAction : SetStateAction T) (oldValue : T) : M T :=
  match setStateAction with
  | Updater f => f oldValue
  | Literal v => ret v
  end.

(** One call [setState(action)] of the host's whole-container setter; the
    setter itself belongs to the host and is known by its identity. *)
Record dispatch (U : Type) := Dispatch { target : oid; action : SetStateAction U }.
Arguments Dispatch {U} target action.
Arguments target {U} d.
Arguments action {U} d.

(** What the host does with a dispatched action on the state it holds. *)
Definition commit {U} (d : dispatch U) (current : U) : M U :=
  evaluateSetStateAction (action d) current.

(** A derived [SetState<T>] closure over a container of type [U]. *)
Record SetState (T U : Type) := Closure { fn_id : oid; fn_call : SetStateAction T -> dispatch U }.
Arguments Closure {T U} fn_id fn_call.
Arguments fn_id {T U} s.
Arguments fn_call {T U} s.

(** A derived [Remove] closure, [() => void]. *)
Record Remove := RemoveClosure { rm_id : oid; rm_call : dispatch JsArray }.

(** ** Array and object primitives *)

(** [array.length] *)
Definition array_length (a : JsArray) : nat := length (arr_slots a).

(** [array[index]]: a hole and a position past the end read [undefined]. *)
Definition array_get (a : JsArray) (index : nat) : value :=
  match arr_slots a !! index with
  | Some (Some v) => v
  | _ => VUndefined
  end.

(** [[...array]]: a new array; iteration reads holes as [undefined]. *)
Definition spread_array (a : JsArray) : M JsArray :=
  do id <- fresh;
  ret (Arr id (map (fun slot => Some (default VUndefined slot)) (arr_slots a))).

(** [result[index] = newValue] on an array this code has just allocated: a
    write past the end extends the array and leaves holes in between. *)
Definition array_set (a : JsArray) (index : nat) (newValue : value) : JsArray :=
  let slots := arr_slots a in
  Arr (arr_id a)
      (if index <? length slots then <[index := Some newValue]> slots
       else slots ++ replicate (index - length slots) None ++ [Some newValue]).

(** The elements [array.filter(predicate)] keeps, [j] being the position of
    the first slot: holes are skipped without calling the predicate. *)
Fixpoint filter_slots (predicate : value -> nat -> bool) (j : nat)
    (slots : list (option value)) : list (option value) :=
  match slots with
  | [] => []
  | None :: rest => filter_slots predicate (S j) rest
  | Some v :: rest =>
      if predicate v j then Some v :: filter_slots predicate (S j) rest
      else filter_slots predicate (S j) rest
  end.

(** [array.filter(predicate)] *)
Definition array_filter (a : JsArray) (predicate : value -> nat -> bool) : M JsArray :=
  do id <- fresh;
  ret (Arr id (filter_slots predicate 0 (arr_slots a))).

(** The slots of [array.map(callback)], [j] being the position of the first
    slot: holes stay holes and the callback is not called on them. *)
Fixpoint map_slots {B} (callback : value -> nat -> M B) (j : nat)
    (slots : list (option value)) : M (list (option B)) :=
  match slots with
  | [] => ret []
  | None :: rest => do ys <- map_slots callback (S j) rest; ret (None :: ys)
  | Some v :: rest =>
      do y <- callback v j;
      do ys <- map_slots callback (S j) rest;
      ret (Some y :: ys)
  end.

(** The own property [key], if there is one. *)
Fixpoint own_property (key : string) (fields : list (string * value)) : option value :=
  match fields with
  | [] => None
  | (k, v) :: rest => if String.eqb k key then Some v else own_property key rest
  end.

(** [object[key]]: an absent property reads [undefined]. *)
Definition object_get (o : JsObject) (key : string) : value :=
  default VUndefined (own_property key (obj_fields o)).

(** Whether [key] is an own property. *)
Definition has_field (key : string) (fields : list (string * value)) : bool :=
  match own_property key fields with Some _ => true | None => false end.

Definition digit (c : ascii) : option N :=
  let n := N_of_ascii c in
  if ((48 <=? n) && (n <=? 57))%N then Some (n - 48)%N else None.

Fixpoint parse_digits (s : string) (acc : N) : option N :=
  match s with
  | EmptyString => Some acc
  | String c rest =>
      match digit c with
      | Some d => parse_digits rest (10 * acc + d)%N
      | None => None
      end
  end.

(** The array index a property key denotes, if it is the canonical decimal
    numeral of an integer below [2^32 - 1]: such keys are enumerated first,
    in ascending order. *)
Definition array_index (key : string) : option N :=
  match key with
  | EmptyString => None
  | String "0" EmptyString => Some 0%N
  | String "0" _ => None
  | _ =>
      match parse_digits key 0 with
      | Some n => if (n <? 2 ^ 32 - 1)%N then Some n else None
      | None => None
      end
  end.

(** Where a new integer-keyed property is enumerated: before the first
    property that is not integer-keyed or has a greater index. *)
Fixpoint insert_index (n : N) (key : string) (v : value)
    (fields : list (string * value)) : list (string * value) :=
  match fields with
  | [] => [(key, v)]
  | (k, w) :: rest =>
      match array_index k with
      | Some m => if (m <? n)%N then (k, w) :: insert_index n key v rest
                  else (key, v) :: fields
      | None => (key, v) :: fields
      end
  end.

(** Overwrite the value of the own property [key], keeping its place. *)
Fixpoint overwrite_field (key : string) (v : value)
    (fields : list (string * value)) : list (string * value) :=
  match fields with
  | [] => []
  | (k, w) :: rest =>
      if String.eqb k key then (k, v) :: rest
      else (k, w) :: overwrite_field key v rest
  end.

(** Defining the data property [key] on an object with these properties. *)
Definition define_field (key : string) (v : value)
    (fields : list (string * value)) : list (string * value) :=
  if has_field key fields then overwrite_field key v fields
  else match array_index key with
       | Some n => insert_index n key v fields
       | None => fields ++ [(key, v)]
       end.

(** [{ ...oldObject, [propertyKey]: newProperty }], once the new object
    exists under the identity [id]. *)
Definition spread_with (id : oid) (oldObject : JsObject) (propertyKey : string)
    (newProperty : value) : JsObject :=
  Obj id (define_field propertyKey newProperty (obj_fields oldObject)).

(** [setMethods[name] = val] on the output object, whose keys all start with
    [set]: an existing key keeps its place, a new one goes last. *)
Fixpoint set_method {V} (name : list Z) (val : V) (methods : list (list Z * V))
    : list (list Z * V) :=
  match methods with
  | [] => [(name, val)]
  | (k, w) :: rest =>
      if decide (k = name) then (k, val) :: rest
      else (k, w) :: set_method name val rest
  end.

(** The UTF-16 code units of a string of the model. *)
Definition units (s : string) : list Z := map charCode (list_ascii_of_string s).

(** [c.toUpperCase()] of one character below U+0100, as code units: the
    letters [a] to [z], and U+00E0 to U+00FE but for the division sign
    U+00F7, move down by 32; the sharp s U+00DF gives [SS]; the micro sign
    U+00B5 gives U+039C and U+00FF gives U+0178; every other character is
    unchanged. *)
Definition toUpperCase (c : ascii) : list Z :=
  let n := charCode c in
  if ((97 <=? n) && (n <=? 122))%Z then [(n - 32)%Z]
  else if (n =? 181)%Z then [924%Z]
  else if (n =? 223)%Z then [83%Z; 83%Z]
  else if ((224 <=? n) && (n <=? 254) && negb (n =? 247))%Z then [(n - 32)%Z]
  else if (n =? 255)%Z then [376%Z]
  else [n].

Definition capitalize_message : string :=
  "The argument 'key' must have at least one character.".

(** [key.charAt(0).toUpperCase() + key.substring(1)], after the length check. *)
Definition capitalize (key : string) : M (list Z) :=
  match key with
  | EmptyString => throw (UsageError capitalize_message)
  | String c rest => ret (toUpperCase c ++ units rest)
  end.

(** ** Caches, outputs and the hook cells of one call site *)

Abbreviation ArrayMutator := (SetState value JsArray).
Abbreviation FieldMutator := (SetState value JsObject).

Abbreviation ArrayCache := (list (ArrayMutator * Remove)).
Abbreviation ObjectCache := (gmap string FieldMutator).

Inductive cache :=
| CacheArray (slots : ArrayCache)
| CacheMap (map : ObjectCache).

Record ArraySetState := ArrayOut {
  out_id : oid;
  out_items : list (option (value * ArrayMutator * Remove)) }.

Record ObjectSetState := ObjectOut {
  set_id : oid;
  set_methods : list (list Z * FieldMutator) }.

Inductive output :=
| OutArray (r : ArraySetState)
| OutObject (r : ObjectSetState).

(** The dependency array [[setState, isArr ? state : hashStrings(keysOf(state))]]. *)
Definition deps : Type := oid * value.

Record hook := Hook {
  ref_current : cache;       (* [setStateRef.current] *)
  memo_deps : deps;          (* dependencies of the last computation *)
  memo_value : output }.     (* its result *)

(** [useMemo] compares each dependency with [Object.is]. *)
Definition deps_equal (a b : deps) : bool :=
  Nat.eqb (fst a) (fst b) && object_is (snd a) (snd b).

Definition isArrayCache (current : cache) : option ArrayCache :=
  match current with CacheArray c => Some c | CacheMap _ => None end.

Definition isObjectCache (current : cache) : option ObjectCache :=
  match current with CacheMap m => Some m | CacheArray _ => None end.

(** [narrowRef]: the content of the cell once it has the wanted kind. *)
Definition narrowRef {U} (current : cache) (isNarrow : cache -> option U)
    (setIfNotNarrow : U) : U :=
  match isNarrow current with
  | Some c => c
  | None => setIfNotNarrow
  end.

(** [useRef(initial)]: the content of the cell in this render. *)
Definition useRef (h : option hook) (initial : cache) : cache :=
  match h with
  | Some hk => ref_current hk
  | None => initial
  end.

(** [useMemo(factory, deps)]; the factory also writes the [useRef] cell, so
    it returns the new content with its result. *)
Definition useMemo (h : option hook) (factory : M (output * cache)) (d : deps)
    : M (output * hook) :=
  let compute := do '(r, c) <- factory; ret (r, Hook c d r) in
  match h with
  | Some hk => if deps_equal (memo_deps hk) d then ret (memo_value hk, hk) else compute
  | None => compute
  end.

(** ** Code shared by the two files *)

(** [limit >= array.length ? array : array.slice(0, limit)] *)
Definition limit {T} (array : list T) (limit : nat) : list T :=
  if length array <=? limit then array else take limit array.

(** [count < 1 ? [] : Array(count).fill(undefined).map((_, i) => factory(offset + i))] *)
Definition append {T} (offset : nat) (count : Z) (factory : nat -> M T) : M (list T) :=
  if (count <? 1)%Z then ret []
  else map_M (fun i => factory (offset + i)) (seq 0 (Z.to_nat count)).

(** [() => setArray(oldArray => oldArray.filter((_, j) => j !== index))] *)
Definition createDeleteAction (setArray : oid) (index : nat) : M Remove :=
  do id <- fresh;
  ret (RemoveClosure id
         (Dispatch setArray
            (Updater (fun oldArray =>
               array_filter oldArray (fun _ j => negb (j =? index)))))).

Section Shared.

(** The three places where the files differ. *)
Variable replaceAtIndex : JsArray -> nat -> value -> M JsArray.
Variable memoizeObject : ObjectCache -> JsObject -> oid -> M (ObjectSetState * ObjectCache).
Variable shape_message : string.

Definition createArrayElementSetState (setArray : oid) (index : nat) : M ArrayMutator :=
  do id <- fresh;
  ret (Closure id (fun setElement =>
         Dispatch setArray
           (Updater (fun oldArray =>
              do newElement <- evaluateSetStateAction setElement (array_get oldArray index);
              replaceAtIndex oldArray index newElement)))).

(** The factory [memoizeArray] hands to [append]:
    [i => [createArrayElementSetState(setArray, i), createDeleteAction(setArray, i)]] *)
Definition slot_factory (setArray : oid) (i : nat) : M (ArrayMutator * Remove) :=
  do m <- createArrayElementSetState setArray i;
  do r <- createDeleteAction setArray i;
  ret (m, r).

Definition memoizeArray (ref_current : ArrayCache) (array : JsArray) (setArray : oid)
    : M (ArraySetState * ArrayCache) :=
  let cache := ref_current in
  do cache <-
    (if negb (length cache =? array_length array) then
       do added <- append (length cache)
                     (Z.of_nat (array_length array) - Z.of_nat (length cache))
                     (slot_factory setArray);
       ret (limit cache (array_length array) ++ added)
     else ret cache);
  do id <- fresh;
  do items <- map_slots (fun s i =>
                match cache !! i with
                | Some (m, r) => ret (s, m, r)
                | None => throw TypeError
                end) 0 (arr_slots array);
  ret (ArrayOut id items, cache).

Definition useDestucturing (h : option hook) (state : value) (setState : oid)
    : M (output * hook) :=
  if negb (isObjectOrArray state) then throw (UsageError shape_message)
  else
    match state with
    | VArray array =>
        let setStateRef := useRef h (CacheArray []) in
        useMemo h
          (do '(r, c) <- memoizeArray (narrowRef setStateRef isArrayCache []) array setState;
           ret (OutArray r, CacheArray c))
          (setState, state)
    | VObject object =>
        let setStateRef := useRef h (CacheMap ∅) in
        useMemo h
          (do '(r, c) <- memoizeObject (narrowRef setStateRef isObjectCache ∅) object setState;
           ret (OutObject r, CacheMap c))
          (setState, VNumber (hashStrings (keysOf object)))
    | _ => throw (UsageError shape_message)
    end.

End Shared.

(** ** [src/use-destructuring.ts] *)

Module VariantA.

Definition shape_message : string :=
  "useDecompose() can only accept arrays and (not-null) objects.".

Definition replaceAtIndex (array : JsArray) (index : nat) (newValue : value) : M JsArray :=
  do result <- spread_array array;
  ret (array_set result index newValue).

Definition createObjectPropertySetState (setObject : oid) (propertyKey : string)
    : M FieldMutator :=
  do id <- fresh;
  ret (Closure id (fun setProperty =>
         Dispatch setObject
           (Updater (fun oldObject =>
              do id <- fresh;
              do newProperty <- evaluateSetStateAction setProperty (object_get oldObject propertyKey);
              ret (spread_with id oldObject propertyKey newProperty))))).

(** The body of the [for (const key of keysOf(state))] loop; the [Map] is
    written in place. *)
Definition memoizeObject_body (setState : oid) (key : string)
    (acc : ObjectCache * ObjectSetState) : M (ObjectCache * ObjectSetState) :=
  let '(map, setMethods) := acc in
  do '(map, val) <-
    match map !! key with
    | None =>
        do val <- createObjectPropertySetState setState key;
        ret (<[key := val]> map, val)
    | Some val => ret (map, val)
    end;
  do name <- capitalize key;
  ret (map, ObjectOut (set_id setMethods)
              (set_method (units "set" ++ name) val (set_methods setMethods))).

Definition memoizeObject (ref_current : ObjectCache) (state : JsObject) (setState : oid)
    : M (ObjectSetState * ObjectCache) :=
  let map := ref_current in
  do id <- fresh;
  let setMethods := ObjectOut id [] in
  do '(map, setMethods) <-
    for_of (keysOf state) (map, setMethods) (memoizeObject_body setState);
  ret (setMethods, map).

Definition createArrayElementSetState := createArrayElementSetState replaceAtIndex.
Definition memoizeArray := memoizeArray replaceAtIndex.
Definition useDestucturing := useDestucturing replaceAtIndex memoizeObject shape_message.

End VariantA.

(** ** [src/unnamed/part_000] *)

Module VariantB.

Definition shape_message : string :=
  "useDestructuring() only accepts arrays and (not-null) objects.".

Definition replaceAtIndex (array : JsArray) (index : nat) (newElement : value) : M JsArray :=
  let oldElement := array_get array index in
  if strict_eq oldElement newElement then ret array
  else
    do result <- spread_array array;
    ret (array_set result index newElement).

Definition createObjectPropertySetState (setObject : oid) (propertyKey : string)
    : M FieldMutator :=
  do id <- fresh;
  ret (Closure id (fun setProperty =>
         Dispatch setObject
           (Updater (fun oldObject =>
              let oldProperty := object_get oldObject propertyKey in
              do newProperty <- evaluateSetStateAction setProperty oldProperty;
              if strict_eq oldProperty newProperty then ret oldObject
              else
                do id <- fresh;
                ret (spread_with id oldObject propertyKey newProperty))))).

(** The body of the [for (const key of keysOf(state))] loop. *)
Definition memoizeObject_body (oldMap : ObjectCache) (setState : oid) (key : string)
    (acc : ObjectCache * ObjectSetState) : M (ObjectCache * ObjectSetState) :=
  let '(newMap, setMethods) := acc in
  do val <-
    match oldMap !! key with
    | Some val => ret val
    | None => createObjectPropertySetState setState key
    end;
  let newMap := <[key := val]> newMap in
  do name <- capitalize key;
  ret (newMap, ObjectOut (set_id setMethods)
                 (set_method (units "set" ++ name) val (set_methods setMethods))).

Definition memoizeObject (ref_current : ObjectCache) (state : JsObject) (setState : oid)
    : M (ObjectSetState * ObjectCache) :=
  let oldMap := ref_current in
  let newMap : ObjectCache := ∅ in
  do id <- fresh;
  let setMethods := ObjectOut id [] in
  do '(newMap, setMethods) <-
    for_of (keysOf state) (newMap, setMethods) (memoizeObject_body oldMap setState);
  ret (setMethods, newMap).

Definition createArrayElementSetState := createArrayElementSetState replaceAtIndex.
Definition memoizeArray := memoizeArray replaceAtIndex.
Definition useDestucturing := useDestucturing replaceAtIndex memoizeObject shape_message.

End VariantB.

(** ** Vocabulary of the statements *)

(** [new] reads like [old] everywhere but at position [p], where it reads
    [v]; it is as long as [old], or just long enough to hold position [p]. *)
Definition replaced_at (old new : JsArray) (p : nat) (v : value) : Prop :=
  array_get new p = v
  /\ (forall j, j <> p -> array_get new j = array_get old j)
  /\ array_length new = Nat.max (array_length old) (S p).

(** [new] has the properties of [old] with the same values, but [key], which
    it has with value [v]. *)
Definition field_replaced (old new : JsObject) (key : string) (v : value) : Prop :=
  object_get new key = v
  /\ (forall k, k <> key ->
        own_property k (obj_fields new) = own_property k (obj_fields old))
  /\ (forall k, In k (keysOf new) <-> In k (keysOf old) \/ k = key).

(** The elements of an array, holes left out. *)
Definition present (slots : list (option value)) : list value :=
  omap (fun slot => slot) slots.

(** [pair] is what the two synthesis functions return for position [p] when
    the next unused identity is [id]: the mutator is the function object
    [id], the remover the function object [S id]. *)
Definition synthesized_pair (create : oid -> nat -> M ArrayMutator)
    (setArray : oid) (p : nat) (id : oid) (pair : ArrayMutator * Remove) : Prop :=
  create setArray p id = Ok (fst pair) (S id)
  /\ createDeleteAction setArray p (S id) = Ok (snd pair) (S (S id)).

(** The entry of the derived output at position [i]:
    [[s, cache[i][0], cache[i][1]]], and a hole where the array has one. *)
Definition triple_at (cache : ArrayCache) (i : nat) (slot : option value)
    : option (value * ArrayMutator * Remove) :=
  match slot, cache !! i with
  | Some s, Some (m, r) => Some (s, m, r)
  | _, _ => None
  end.

(** Whether [useMemo] runs its factory: on the first render of the site, and
    whenever a dependency differs from the stored one. *)
Definition recomputes (h : option hook) (d : deps) : bool :=
  match h with
  | Some hk => negb (deps_equal (memo_deps hk) d)
  | None => true
  end.

(** Whether the cache of the site is a [Map] with an entry for [key]. *)
Definition has_entry (h : hook) (key : string) : bool :=
  match ref_current h with
  | CacheMap m => bool_decide (is_Some (m !! key))
  | CacheArray _ => false
  end.

(** The container the host holds after it commits, on [old], the call that
    the mutator for [key] makes when it is given the literal [v]. The
    mutator is synthesized over the setter [100] as function object [0]. *)
Definition commit_field_literal (create : oid -> string -> M FieldMutator)
    (key : string) (v : value) (old : JsObject) (n : oid) : outcome JsObject :=
  match create 100 key 0 with
  | Ok m _ => commit (fn_call m (Literal v)) old n
  | Throw e => Throw e
  end.

Definition commit_element_literal (create : oid -> nat -> M ArrayMutator)
    (p : nat) (v : value) (old : JsArray) (n : oid) : outcome JsArray :=
  match create 100 p 0 with
  | Ok m _ => commit (fn_call m (Literal v)) old n
  | Throw e => Throw e
  end.

(** Composites of the examples. *)
Definition john : JsObject := Obj 1 [("firstName", VString "John")].
Definition letters : JsArray := Arr 1 [Some (VString "a"); Some (VString "b")].
Definition abc : JsArray :=
  Arr 1 [Some (VString "a"); Some (VString "b"); Some (VString "c")].
Definition xy_record : JsObject := Obj 1 [("x", VNumber 1); ("y", VNumber 2)].
Definition x_record : JsObject := Obj 2 [("x", VNumber 1)].
Definition ff_record : JsObject := Obj 1 [("ff", VNumber 1)].
Definition ares_record : JsObject := Obj 2 [("", VNumber 1); ("ares", VNumber 2)].

(** [SameValueZero(a, b)]: [===], but that [NaN] equals itself. It is what
    can be said of the value a position holds after an update with the
    candidate [b]: the candidate itself, or, where the code keeps the old
    container because the candidate [===] the old value, that old value. *)
Definition same_value_zero (a b : value) : bool :=
  match a, b with
  | VNaN, VNaN => true
  | _, _ => strict_eq a b
  end.

(** The name under which the output of a record derivation offers the
    mutator of [key]: [`set${capitalize(key)}`]. *)
Definition accessor_name (key : string) : list Z :=
  units "set" ++ match key with
                 | EmptyString => []
                 | String c rest => toUpperCase c ++ units rest
                 end.

(** [methods[name]] *)
Fixpoint get_method {V} (name : list Z) (methods : list (list Z * V)) : option V :=
  match methods with
  | [] => None
  | (k, v) :: rest => if decide (k = name) then Some v else get_method name rest
  end.

(** The last of [keys] whose accessor is called [name]: the loop of
    [memoizeObject] assigns [setMethods[name]] once for each such key, and
    the last assignment stays. *)
Fixpoint last_named (name : list Z) (keys : list string) : option string :=
  match keys with
  | [] => None
  | key :: rest =>
      match last_named name rest with
      | Some k => Some k
      | None => if decide (accessor_name key = name) then Some key else None
      end
  end.

(** A record with two keys of one accessor name. *)
Definition foo_Foo_record : JsObject := Obj 1 [("foo", VNumber 1); ("Foo", VNumber 2)].

(** The three cells of a call site agree: after a derivation over an array
    the cache is a slot list as long as the array, and the output pairs each
    element with the cached slot of its position; after a derivation over a
    record the cache is a [Map] with an entry for each key, and the output
    offers, under each accessor name, the entry of the last key of that
    name. *)
Definition site_consistent (hk : hook) : Prop :=
  match ref_current hk, memo_deps hk, memo_value hk with
  | CacheArray c, (_, VArray a), OutArray r =>
      length c = array_length a
      /\ out_items r = imap (triple_at c) (arr_slots a)
  | CacheMap m, (_, VNumber f), OutObject r =>
      exists keys,
        f = hashStrings keys
        /\ (forall k, In k keys -> is_Some (m !! k))
        /\ (forall name,
              get_method name (set_methods r)
              = match last_named name keys with
                | Some k => m !! k
                | None => None
                end)
  | _, _, _ => False
  end.

(** The slot cached at position [i] was synthesized for position [i], over
    some setter. *)
Definition pairs_bound (create : oid -> nat -> M ArrayMutator) (c : ArrayCache) : Prop :=
  forall i pair, c !! i = Some pair -> exists s id, synthesized_pair create s i id pair.

(** The mutator cached under [k] was synthesized for the field [k], over
    some setter. *)
Definition fields_bound (create : oid -> string -> M FieldMutator) (m : ObjectCache) : Prop :=
  forall k f, m !! k = Some f -> exists s id, create s k id = Ok f (S id).

Definition cache_bound (createElement : oid -> nat -> M ArrayMutator)
    (createProperty : oid -> string -> M FieldMutator) (c : cache) : Prop :=
  match c with
  | CacheArray slots => pairs_bound createElement slots
  | CacheMap m => fields_bound createProperty m
  end.

(** The hook and the two synthesis functions of one and the same file. *)
Definition same_file (derive : option hook -> value -> oid -> M (output * hook))
    (createElement : oid -> nat -> M ArrayMutator)
    (createProperty : oid -> string -> M FieldMutator) : Prop :=
  (derive = VariantA.useDestucturing
   /\ createElement = VariantA.createArrayElementSetState
   /\ createProperty = VariantA.createObjectPropertySetState)
  \/ (derive = VariantB.useDestucturing
      /\ createElement = VariantB.createArrayElementSetState
      /\ createProperty = VariantB.createObjectPropertySetState).

(** The cells of a call site after its first render, or after any further
    render; each render may pass another composite and another setter, and
    only renders that return are counted. *)
Inductive rendered (derive : option hook -> value -> oid -> M (output * hook))
    : hook -> Prop :=
| rendered_mount state setState n out h n' :
    derive None state setState n = Ok (out, h) n' -> rendered derive h
| rendered_again hk state setState n out h n' :
    rendered derive hk ->
    derive (Some hk) state setState n = Ok (out, h) n' -> rendered derive h.

(** * Properties *)

(** ** The embedding at work *)

(** Published values of cyrb53. *)
Example hashString_a : hashString "a" 0 = 7929297801672961%Z.
Proof. vm_compute. reflexivity. Qed.

Example hashString_revenue_seed_1 : hashString "revenue" 1 = 8697026808958300%Z.
Proof. vm_compute. reflexivity. Qed.

(** The fingerprint is a signed 32-bit integer: [^] keeps the low word of
    each hash. *)
Example hashStrings_a_c : hashStrings ["a"; "c"] = (-2118890313)%Z.
Proof. vm_compute. reflexivity. Qed.

Example capitalize_firstName : capitalize "firstName" 0 = Ok (units "FirstName") 0.
Proof. reflexivity. Qed.

(** Beyond ASCII: [e] with acute accent, sharp s and [y] with diaeresis at
    the head of a key. *)
Example capitalize_latin1 :
  capitalize (String "233"%char "a") 0 = Ok [201; 97]%Z 0
  /\ capitalize (String "223"%char "a") 0 = Ok (units "SSa") 0
  /\ capitalize (String "255"%char "") 0 = Ok [376]%Z 0.
Proof. repeat split. Qed.

(** A new integer key is enumerated among the integer keys, a new name last,
    and an overwritten key keeps its place. *)
Example define_field_order :
  define_field "5" VNull [("1", VNull); ("7", VNull); ("a", VNull)]
  = [("1", VNull); ("5", VNull); ("7", VNull); ("a", VNull)]
  /\ define_field "05" VNull [("1", VNull); ("a", VNull)]
     = [("1", VNull); ("a", VNull); ("05", VNull)]
  /\ define_field "1" VUndefined [("1", VNull); ("a", VNull)]
     = [("1", VUndefined); ("a", VNull)].
Proof. repeat split. Qed.

(** A mutator applied past the end of the array extends it with holes. *)
Example commit_past_the_end :
  commit_element_literal VariantB.createArrayElementSetState 3 (VString "z")
    (Arr 1 [Some (VString "a")]) 2
  = Ok (Arr 2 [Some (VString "a"); None; None; Some (VString "z")]) 3.
Proof. reflexivity. Qed.

(** Deriving over [["a", "b", "c"]] on a new site: three entries, the
    function objects 2 to 7, then the output array. *)
Example derive_abc :
  match VariantB.useDestucturing None (VArray abc) 100 2 with
  | Ok (OutArray r, h) n =>
      map (fun item => match item with
                       | Some (v, m, rm) => Some (v, fn_id m, rm_id rm)
                       | None => None
                       end) (out_items r)
      = [Some (VString "a", 2, 3); Some (VString "b", 4, 5); Some (VString "c", 6, 7)]
      /\ out_id r = 8 /\ n = 9
  | _ => False
  end.
Proof. vm_compute. repeat split. Qed.

(** Deriving over [{firstName: "John"}]: one method, [setFirstName]. *)
Example derive_john :
  match VariantB.useDestucturing None (VObject john) 100 2 with
  | Ok (OutObject r, h) n =>
      map (fun entry => (fst entry, fn_id (snd entry))) (set_methods r)
      = [(units "setFirstName", 3)]
      /\ set_id r = 2 /\ n = 4
  | _ => False
  end.
Proof. vm_compute. repeat split. Qed.

(** ** 32-bit arithmetic *)

Module Int32Facts.
Import Int32.
Local Open Scope Z_scope.

Lemma to_uint32_range z : 0 <= to_uint32 z < 2 ^ 32.
Proof. unfold to_uint32. apply Z.mod_pos_bound. lia. Qed.

Lemma to_int32_range z : - 2 ^ 31 <= to_int32 z < 2 ^ 31.
Proof.
  unfold to_int32. pose proof (to_uint32_range z) as Hu. cbv zeta.
  destruct (Z.ltb_spec (to_uint32 z) (2 ^ 31)); lia.
Qed.

Lemma to_int32_mod z : to_int32 z mod 2 ^ 32 = z mod 2 ^ 32.
Proof.
  unfold to_int32. pose proof (to_uint32_range z) as Hu. cbv zeta.
  destruct (Z.ltb_spec (to_uint32 z) (2 ^ 31)).
  - unfold to_uint32 in *. apply Z.mod_mod. lia.
  - unfold to_uint32 in *.
    replace (z mod 2 ^ 32 - 2 ^ 32) with (z mod 2 ^ 32 + (-1) * 2 ^ 32) by lia.
    rewrite Z.mod_add by lia. apply Z.mod_mod. lia.
Qed.

Lemma to_int32_congr a b : a mod 2 ^ 32 = b mod 2 ^ 32 -> to_int32 a = to_int32 b.
Proof. intros H. unfold to_int32, to_uint32. now rewrite H. Qed.

Lemma to_int32_small z : - 2 ^ 31 <= z < 2 ^ 31 -> to_int32 z = z.
Proof.
  intros Hz. unfold to_int32, to_uint32. cbv zeta.
  destruct (Z.leb_spec 0 z).
  - rewrite Z.mod_small by lia. destruct (Z.ltb_spec z (2 ^ 31)); lia.
  - replace (z mod 2 ^ 32) with (z + 2 ^ 32).
    + destruct (Z.ltb_spec (z + 2 ^ 32) (2 ^ 31)); lia.
    + symmetry. replace z with ((z + 2 ^ 32) + (-1) * 2 ^ 32) at 1 by lia.
      rewrite Z.mod_add by lia. apply Z.mod_small. lia.
Qed.

Lemma lxor_mod a b :
  Z.lxor a b mod 2 ^ 32 = Z.lxor (a mod 2 ^ 32) (b mod 2 ^ 32).
Proof.
  apply Z.bits_inj'. intros i Hi.
  rewrite Z.lxor_spec, !Z.testbit_mod_pow2, Z.lxor_spec by lia.
  destruct (i <? 32); simpl; [reflexivity | ].
  reflexivity.
Qed.

(** [a ^ b] is the exclusive or of the two integers, wrapped once. *)
Lemma xor_wrap a b : xor a b = to_int32 (Z.lxor a b).
Proof.
  unfold xor. apply to_int32_congr.
  rewrite lxor_mod, !to_int32_mod, <- lxor_mod. reflexivity.
Qed.

Lemma xor_comm a b : xor a b = xor b a.
Proof. now rewrite !xor_wrap, Z.lxor_comm. Qed.

Lemma xor_assoc a b c : xor (xor a b) c = xor a (xor b c).
Proof.
  rewrite (xor_wrap (xor a b) c), (xor_wrap a (xor b c)), !xor_wrap.
  apply to_int32_congr.
  rewrite (lxor_mod (to_int32 _) c), (lxor_mod a (to_int32 _)), !to_int32_mod.
  rewrite <- !lxor_mod. now rewrite Z.lxor_assoc.
Qed.

Lemma xor_swap a x y : xor (xor a x) y = xor (xor a y) x.
Proof. now rewrite !xor_assoc, (xor_comm x y). Qed.

(** [2097151 & h] keeps the low 21 bits. *)
Lemma and_low21 h : and 2097151 h = to_int32 h mod 2 ^ 21.
Proof.
  unfold and. rewrite (to_int32_small 2097151) by lia.
  rewrite Z.land_comm. change 2097151 with (Z.ones 21).
  rewrite Z.land_ones by lia.
  apply to_int32_small.
  pose proof (Z.mod_pos_bound (to_int32 h) (2 ^ 21)). lia.
Qed.

(** [h >>> 0] is the unsigned reading of the 32 bits. *)
Lemma ushr_0 h : ushr h 0 = h mod 2 ^ 32.
Proof. unfold ushr, to_uint32. reflexivity. Qed.
End Int32Facts.

(** ** Structural fingerprint *)

Lemma fold_xor_permutation (l l' : list Z) :
  Permutation l l' ->
  forall a, fold_left (fun a b => Int32.xor a b) l a
            = fold_left (fun a b => Int32.xor a b) l' a.
Proof.
  induction 1 as [ | x l l' _ IH | x y l | l l' l'' _ IH1 _ IH2 ]; intros a; simpl.
  - reflexivity.
  - apply IH.
  - now rewrite Int32Facts.xor_swap.
  - now rewrite IH1.
Qed.

Lemma hashStrings_perm (keys keys' : list string) :
  Permutation keys keys' -> hashStrings keys = hashStrings keys'.
Proof.
  intros Hp. unfold hashStrings. apply fold_xor_permutation, Permutation_map, Hp.
Qed.

(** C9. The fingerprint of a list of keys does not depend on the order of the
    keys: any permutation of the list has the same fingerprint. In
    particular the fingerprints of [a, b] and [b, a] are equal, and those of
    [a, b] and [a, c] differ. *)
Theorem hashStrings_permutation :
  (forall keys keys' : list string,
      Permutation keys keys' -> hashStrings keys = hashStrings keys')
  /\ hashStrings ["a"; "b"] = hashStrings ["b"; "a"]
  /\ hashStrings ["a"; "b"] <> hashStrings ["a"; "c"].
Proof.
  split; [ | split ].
  - apply hashStrings_perm.
  - vm_compute. reflexivity.
  - vm_compute. discriminate.
Qed.

Lemma hashStrings_permutation_witness :
  Permutation ["x"; "y"; "z"] ["z"; "x"; "y"]
  /\ hashStrings ["x"; "y"; "z"] = hashStrings ["z"; "x"; "y"].
Proof.
  assert (Hp : Permutation ["x"; "y"; "z"] ["z"; "x"; "y"]).
  { apply Permutation_sym. apply (Permutation_cons_app ["x"; "y"] [] "z").
    simpl. apply Permutation_refl. }
  split; [ exact Hp | ].
  exact (proj1 hashStrings_permutation _ _ Hp).
Defined.

Lemma hashString_words_range (str : string) (seed : Z) :
  let '(h1, h2) := hashString_words str seed in
  (- 2 ^ 31 <= h1 < 2 ^ 31)%Z /\ (- 2 ^ 31 <= h2 < 2 ^ 31)%Z.
Proof.
  unfold hashString_words. destruct (hashString_loop str _ _) as [a b]. cbv zeta.
  split; apply Int32Facts.to_int32_range.
Qed.

Lemma fold_xor_range (l : list Z) :
  forall a, (- 2 ^ 31 <= a < 2 ^ 31)%Z ->
            (- 2 ^ 31 <= fold_left (fun a b => Int32.xor a b) l a < 2 ^ 31)%Z.
Proof.
  induction l as [ | x l IH ]; intros a Ha; simpl.
  - exact Ha.
  - apply IH, Int32Facts.to_int32_range.
Qed.

(** C10. For every string and every seed, [hashString] is a function of its
    arguments whose value is [4294967296 * hi + lo], where [hi] is the low 21
    bits of the 32-bit word [h2] and [lo] the unsigned reading of the 32-bit
    word [h1] that the 32-bit wrapping operations have computed; hence it is
    a non-negative integer below [2^53], where doubles are exact. The
    fingerprint of a key set, which combines such values with [^], is a
    signed 32-bit integer. *)
Theorem hashString_range (str : string) (seed : Z) :
  (0 <= hashString str seed < 2 ^ 53)%Z
  /\ (let '(h1, h2) := hashString_words str seed in
      (- 2 ^ 31 <= h1 < 2 ^ 31)%Z /\ (- 2 ^ 31 <= h2 < 2 ^ 31)%Z
      /\ (0 <= h2 mod 2 ^ 21 < 2 ^ 21)%Z
      /\ (0 <= h1 mod 2 ^ 32 < 2 ^ 32)%Z
      /\ hashString str seed = (4294967296 * (h2 mod 2 ^ 21) + h1 mod 2 ^ 32)%Z)
  /\ (forall keys : list string, (- 2 ^ 31 <= hashStrings keys < 2 ^ 31)%Z).
Proof.
  pose proof (hashString_words_range str seed) as Hw.
  unfold hashString. destruct (hashString_words str seed) as [h1 h2].
  destruct Hw as [R1 R2].
  assert (E : Int32.and 2097151 h2 = (h2 mod 2 ^ 21)%Z).
  { now rewrite Int32Facts.and_low21, (Int32Facts.to_int32_small h2) by exact R2. }
  assert (B1 : (0 <= h2 mod 2 ^ 21 < 2 ^ 21)%Z) by (apply Z.mod_pos_bound; lia).
  assert (B2 : (0 <= h1 mod 2 ^ 32 < 2 ^ 32)%Z) by (apply Z.mod_pos_bound; lia).
  rewrite E, Int32Facts.ushr_0.
  split; [ lia | ]. split; [ repeat split; lia | ].
  intros keys. unfold hashStrings. apply fold_xor_range. lia.
Qed.

(** ** The allocation monad *)

Lemma bind_ret {A B} (a : A) (k : A -> M B) (n : oid) : bind (ret a) k n = k a n.
Proof. reflexivity. Qed.

Lemma bind_Ok {A B} (c : M A) (k : A -> M B) (n n' : oid) (a : A) :
  c n = Ok a n' -> bind c k n = k a n'.
Proof. intros H. unfold bind. now rewrite H. Qed.

Lemma bind_Throw {A B} (c : M A) (k : A -> M B) (n : oid) (e : error) :
  c n = Throw e -> bind c k n = Throw e.
Proof. intros H. unfold bind. now rewrite H. Qed.

Lemma bind_fresh {B} (k : oid -> M B) (n : oid) : bind fresh k n = k n (S n).
Proof. reflexivity. Qed.

(** ** Array primitives *)

Lemma array_get_set_eq (a : JsArray) (p : nat) (v : value) :
  array_get (array_set a p v) p = v.
Proof.
  unfold array_get, array_set. simpl.
  destruct (Nat.ltb_spec p (length (arr_slots a))) as [Hlt | Hge].
  - now rewrite list_lookup_insert_eq.
  - rewrite lookup_app_r by lia. rewrite lookup_app_r; rewrite length_replicate; [ | lia ].
    now replace (p - length (arr_slots a) - (p - length (arr_slots a))) with 0 by lia.
Qed.

Lemma array_get_set_ne (a : JsArray) (p j : nat) (v : value) :
  j <> p -> array_get (array_set a p v) j = array_get a j.
Proof.
  intros Hne. unfold array_get, array_set. simpl.
  destruct (Nat.ltb_spec p (length (arr_slots a))) as [Hlt | Hge].
  - now rewrite list_lookup_insert_ne by congruence.
  - destruct (Nat.lt_ge_cases j (length (arr_slots a))) as [Hj | Hj].
    + now rewrite lookup_app_l by lia.
    + rewrite lookup_app_r by lia.
      rewrite (lookup_ge_None_2 (arr_slots a) j) by lia.
      destruct (Nat.lt_ge_cases (j - length (arr_slots a)) (p - length (arr_slots a))) as [Hk | Hk].
      * rewrite lookup_app_l by (rewrite length_replicate; lia).
        rewrite lookup_replicate_2 by lia. reflexivity.
      * rewrite lookup_app_r by (rewrite length_replicate; lia).
        rewrite length_replicate.
        rewrite lookup_ge_None_2; [ reflexivity | simpl; lia ].
Qed.

Lemma array_length_set (a : JsArray) (p : nat) (v : value) :
  array_length (array_set a p v) = Nat.max (array_length a) (S p).
Proof.
  unfold array_length, array_set. simpl.
  destruct (Nat.ltb_spec p (length (arr_slots a))) as [Hlt | Hge].
  - rewrite length_insert. lia.
  - rewrite !length_app, length_replicate. simpl. lia.
Qed.

Lemma spread_array_spec (a : JsArray) (n : oid) :
  exists c, spread_array a n = Ok c (S n)
            /\ arr_id c = n
            /\ array_length c = array_length a
            /\ forall j, array_get c j = array_get a j.
Proof.
  eexists. split; [ reflexivity | ]. simpl. repeat split.
  - unfold array_length. simpl. apply length_map.
  - intros j. unfold array_get. simpl. rewrite list_lookup_fmap.
    destruct (arr_slots a !! j) as [ [ v | ] | ]; reflexivity.
Qed.

(** The elements present in a list of slots, in order. *)
Lemma filter_slots_delete (p : nat) (slots : list (option value)) (j : nat) :
  filter_slots (fun _ i => negb (i =? p)) j slots
  = Some <$> omap id (if decide (j <= p) then delete (p - j) slots else slots).
Proof.
  revert j. induction slots as [ | s rest IH ]; intros j.
  - simpl. now destruct (decide (j <= p)).
  - destruct s as [ v | ]; simpl.
    + destruct (Nat.eqb_spec j p) as [-> | Hne]; simpl.
      * rewrite IH. destruct (decide (p <= p)); [ | lia ].
        replace (p - p) with 0 by lia. simpl.
        destruct (decide (S p <= p)); [ lia | reflexivity ].
      * rewrite IH. destruct (decide (j <= p)) as [Hle | Hgt].
        -- destruct (decide (S j <= p)); [ | lia ].
           replace (p - j) with (S (p - S j)) by lia. reflexivity.
        -- destruct (decide (S j <= p)); [ lia | reflexivity ].
    + rewrite IH. destruct (decide (j <= p)) as [Hle | Hgt].
      * destruct (Nat.eq_dec j p) as [-> | Hne].
        -- replace (p - p) with 0 by lia. simpl.
           destruct (decide (S p <= p)); [ lia | reflexivity ].
        -- destruct (decide (S j <= p)); [ | lia ].
           replace (p - j) with (S (p - S j)) by lia. reflexivity.
      * destruct (decide (S j <= p)); [ lia | reflexivity ].
Qed.

Lemma omap_id_Some (xs : list value) : omap id (Some <$> xs) = xs.
Proof. induction xs as [ | x xs IH ]; [ reflexivity | ]. cbn. f_equal. exact IH. Qed.

Lemma delete_fmap_Some (p : nat) (xs : list value) :
  delete p (Some <$> xs) = Some <$> delete p xs.
Proof.
  revert p. induction xs as [ | x xs IH ]; intros [ | p ]; try reflexivity.
  cbn. f_equal. apply IH.
Qed.

Lemma lookup_delete_list (p j : nat) (xs : list value) :
  delete p xs !! j = if j <? p then xs !! j else xs !! S j.
Proof.
  destruct (Nat.ltb_spec j p).
  - now apply list_lookup_delete_lt.
  - now apply list_lookup_delete_ge.
Qed.

(** ** Object primitives *)

Lemma own_property_overwrite_eq key v fields :
  is_Some (own_property key fields) ->
  own_property key (overwrite_field key v fields) = Some v.
Proof.
  induction fields as [ | [k w] rest IH ]; simpl; intros [x Hx]; [ discriminate | ].
  destruct (String.eqb_spec k key) as [-> | Hne]; simpl.
  - now rewrite String.eqb_refl.
  - destruct (String.eqb_spec k key); [ contradiction | ]. apply IH. eauto.
Qed.

Lemma own_property_overwrite_ne key k v fields :
  k <> key ->
  own_property k (overwrite_field key v fields) = own_property k fields.
Proof.
  intros Hne. induction fields as [ | [k' w] rest IH ]; simpl; [ reflexivity | ].
  destruct (String.eqb_spec k' key) as [-> | Hne']; simpl.
  - destruct (String.eqb_spec key k); [ congruence | reflexivity ].
  - destruct (String.eqb_spec k' k); [ reflexivity | apply IH ].
Qed.

Lemma own_property_insert_index_eq n key v fields :
  own_property key fields = None ->
  own_property key (insert_index n key v fields) = Some v.
Proof.
  induction fields as [ | [k w] rest IH ]; simpl; intros Hnone.
  - now rewrite String.eqb_refl.
  - destruct (String.eqb_spec k key) as [-> | Hne]; [ discriminate | ].
    destruct (array_index k) as [ m | ]; [ destruct (m <? n)%N | ]; simpl;
      rewrite ?String.eqb_refl; try reflexivity.
    destruct (String.eqb_spec k key); [ contradiction | ]. now apply IH.
Qed.

Lemma own_property_insert_index_ne n key k v fields :
  k <> key ->
  own_property k (insert_index n key v fields) = own_property k fields.
Proof.
  intros Hne. induction fields as [ | [k' w] rest IH ]; simpl.
  - destruct (String.eqb_spec key k); [ congruence | reflexivity ].
  - destruct (array_index k') as [ m | ]; [ destruct (m <? n)%N | ]; simpl.
    + destruct (String.eqb_spec k' k); [ reflexivity | apply IH ].
    + destruct (String.eqb_spec key k); [ congruence | reflexivity ].
    + destruct (String.eqb_spec key k); [ congruence | reflexivity ].
Qed.

Lemma own_property_app key fields extra :
  own_property key (fields ++ extra)
  = match own_property key fields with
    | Some v => Some v
    | None => own_property key extra
    end.
Proof.
  induction fields as [ | [k w] rest IH ]; simpl; [ reflexivity | ].
  destruct (String.eqb k key); [ reflexivity | apply IH ].
Qed.

Lemma own_property_define_eq key v fields :
  own_property key (define_field key v fields) = Some v.
Proof.
  unfold define_field, has_field.
  destruct (own_property key fields) as [ w | ] eqn:E.
  - apply own_property_overwrite_eq. rewrite E. eauto.
  - destruct (array_index key).
    + now apply own_property_insert_index_eq.
    + rewrite own_property_app, E. simpl. now rewrite String.eqb_refl.
Qed.

Lemma own_property_define_ne key k v fields :
  k <> key ->
  own_property k (define_field key v fields) = own_property k fields.
Proof.
  intros Hne. unfold define_field.
  destruct (has_field key fields).
  - now apply own_property_overwrite_ne.
  - destruct (array_index key).
    + now apply own_property_insert_index_ne.
    + rewrite own_property_app. destruct (own_property k fields); [ reflexivity | ].
      simpl. destruct (String.eqb_spec key k); [ congruence | reflexivity ].
Qed.

Lemma own_property_is_Some key fields :
  is_Some (own_property key fields) <-> In key (map fst fields).
Proof.
  induction fields as [ | [k w] rest IH ]; simpl.
  - split; [ intros [x Hx]; discriminate | tauto ].
  - destruct (String.eqb_spec k key) as [-> | Hne].
    + split; eauto.
    + rewrite IH. split; [ tauto | intros [ ? | ? ]; [ contradiction | assumption ] ].
Qed.

Lemma keys_define_field key v fields k :
  In k (map fst (define_field key v fields)) <-> In k (map fst fields) \/ k = key.
Proof.
  rewrite <- !own_property_is_Some.
  destruct (String.eqb_spec k key) as [-> | Hne].
  - rewrite own_property_define_eq. split; eauto.
  - rewrite own_property_define_ne by assumption. tauto.
Qed.

(** ** Mutator synthesis *)

Lemma replaced_at_copy (old : JsArray) (p : nat) (v : value) (n : oid) :
  exists new, (do result <- spread_array old; ret (array_set result p v)) n = Ok new (S n)
              /\ arr_id new = n /\ replaced_at old new p v.
Proof.
  destruct (spread_array_spec old n) as (c & Hc & Hid & Hlen & Hget).
  exists (array_set c p v). unfold bind. rewrite Hc. split; [ reflexivity | ].
  split; [ exact Hid | ]. repeat split.
  - apply array_get_set_eq.
  - intros j Hj. now rewrite array_get_set_ne, Hget.
  - now rewrite array_length_set, Hlen.
Qed.

Lemma field_replaced_spread (id : oid) (old : JsObject) (key : string) (v : value) :
  field_replaced old (spread_with id old key v) key v.
Proof.
  unfold field_replaced, spread_with, object_get, keysOf. simpl. repeat split.
  - now rewrite own_property_define_eq.
  - intros k Hk. now apply own_property_define_ne.
  - apply keys_define_field.
  - apply keys_define_field.
Qed.

Lemma VariantA_replaceAtIndex_copy old p v n :
  exists new, VariantA.replaceAtIndex old p v n = Ok new (S n)
              /\ arr_id new = n /\ replaced_at old new p v.
Proof. apply replaced_at_copy. Qed.

Lemma VariantB_replaceAtIndex_copy old p v n :
  strict_eq (array_get old p) v = false ->
  exists new, VariantB.replaceAtIndex old p v n = Ok new (S n)
              /\ arr_id new = n /\ replaced_at old new p v.
Proof. intros H. unfold VariantB.replaceAtIndex. rewrite H. apply replaced_at_copy. Qed.

Lemma VariantB_replaceAtIndex_same old p v n :
  strict_eq (array_get old p) v = true ->
  VariantB.replaceAtIndex old p v n = Ok old n.
Proof. intros H. unfold VariantB.replaceAtIndex. now rewrite H. Qed.

(** C6. When the candidate differs from the old value, the transform a
    mutator hands to the setter returns a newly allocated copy of the
    container it is applied to, in which the bound position (or key) holds
    the candidate and every other position (or field) reads the value it had
    before. Whatever its argument, the mutator passes the setter a transform
    of the previous container, never a value: the transform receives the
    container at application time. Array mutators are those of either file;
    for field mutators the two files differ only in when the copy is
    allocated, before or after the update argument is resolved. *)
Theorem mutator_copies_container :
  (forall create,
      create = VariantA.createArrayElementSetState
      \/ create = VariantB.createArrayElementSetState ->
      forall (setArray : oid) (p : nat) (n0 : oid),
      exists m, create setArray p n0 = Ok m (S n0) /\ fn_id m = n0
        /\ forall setElement, exists t,
             fn_call m setElement = Dispatch setArray (Updater t)
             /\ forall (old : JsArray) (n : oid) (cand : value) (n1 : oid),
                  evaluateSetStateAction setElement (array_get old p) n = Ok cand n1 ->
                  strict_eq (array_get old p) cand = false ->
                  exists new, t old n = Ok new (S n1)
                              /\ arr_id new = n1 /\ replaced_at old new p cand)
  /\ (forall (setObject : oid) (key : string) (n0 : oid),
      exists m, VariantA.createObjectPropertySetState setObject key n0 = Ok m (S n0)
        /\ fn_id m = n0
        /\ forall setProperty, exists t,
             fn_call m setProperty = Dispatch setObject (Updater t)
             /\ forall (old : JsObject) (n : oid) (cand : value) (n1 : oid),
                  evaluateSetStateAction setProperty (object_get old key) (S n) = Ok cand n1 ->
                  strict_eq (object_get old key) cand = false ->
                  exists new, t old n = Ok new n1
                              /\ obj_id new = n /\ field_replaced old new key cand)
  /\ (forall (setObject : oid) (key : string) (n0 : oid),
      exists m, VariantB.createObjectPropertySetState setObject key n0 = Ok m (S n0)
        /\ fn_id m = n0
        /\ forall setProperty, exists t,
             fn_call m setProperty = Dispatch setObject (Updater t)
             /\ forall (old : JsObject) (n : oid) (cand : value) (n1 : oid),
                  evaluateSetStateAction setProperty (object_get old key) n = Ok cand n1 ->
                  strict_eq (object_get old key) cand = false ->
                  exists new, t old n = Ok new (S n1)
                              /\ obj_id new = n1 /\ field_replaced old new key cand).
Proof.
  split; [ | split ].
  - intros create Hcreate setArray p n0.
    destruct Hcreate as [-> | ->];
      (eexists; split; [ reflexivity | ]; split; [ reflexivity | ];
       intros setElement; eexists; split; [ reflexivity | ];
       intros old n cand n1 Heval Hneq; unfold bind; rewrite Heval).
    + apply VariantA_replaceAtIndex_copy.
    + now apply VariantB_replaceAtIndex_copy.
  - intros setObject key n0.
    eexists; split; [ reflexivity | ]; split; [ reflexivity | ].
    intros setProperty. eexists. split; [ reflexivity | ].
    intros old n cand n1 Heval Hneq. unfold bind, fresh. rewrite Heval.
    eexists. split; [ reflexivity | ]. split; [ reflexivity | ].
    apply field_replaced_spread.
  - intros setObject key n0.
    eexists; split; [ reflexivity | ]; split; [ reflexivity | ].
    intros setProperty. eexists. split; [ reflexivity | ].
    intros old n cand n1 Heval Hneq. unfold bind, fresh. rewrite Heval. cbv zeta.
    rewrite Hneq.
    eexists. split; [ reflexivity | ]. split; [ reflexivity | ].
    apply field_replaced_spread.
Qed.

Lemma mutator_copies_container_witness :
  exists new,
    commit_element_literal VariantB.createArrayElementSetState 1 (VString "z") letters 5
    = Ok new 6
    /\ arr_id new = 5
    /\ replaced_at letters new 1 (VString "z").
Proof.
  destruct (proj1 mutator_copies_container VariantB.createArrayElementSetState
              (or_intror eq_refl) 100 1 0) as (m & Hm & _ & Hcall).
  destruct (Hcall (Literal (VString "z"))) as (t & Ht & Hrun).
  destruct (Hrun letters 5 (VString "z") 5 eq_refl eq_refl) as (new & Hnew & Hid & Hrep).
  exists new. unfold commit_element_literal. rewrite Hm. unfold commit. rewrite Ht.
  split; [ exact Hnew | ]. split; [ exact Hid | exact Hrep ].
Defined.

Lemma present_Some (xs : list value) : present (Some <$> xs) = xs.
Proof. apply omap_id_Some. Qed.

(** C5, as stated, fails: with [p] a valid index, the length does not
    always drop by exactly one. [filter] skips holes, and a mutator that
    writes past the end leaves holes: its transform for position 3 turns
    [["d"]] into [["d", , , "z"]], of length 4, on which the transform of the
    remover of position 0 returns [["z"]], of length 1. *)
Lemma remover_drops_holes :
  exists m r a a',
    VariantB.createArrayElementSetState 100 3 0 = Ok m 1
    /\ createDeleteAction 100 0 1 = Ok r 2
    /\ commit (fn_call m (Literal (VString "z"))) (Arr 2 [Some (VString "d")]) 3 = Ok a 4
    /\ a = Arr 3 [Some (VString "d"); None; None; Some (VString "z")]
    /\ 0 < array_length a
    /\ commit (rm_call r) a 4 = Ok a' 5
    /\ a' = Arr 4 [Some (VString "z")]
    /\ array_length a' <> array_length a - 1.
Proof.
  do 4 eexists. split; [ reflexivity | ]. split; [ reflexivity | ].
  split; [ reflexivity | ]. split; [ reflexivity | ].
  split; [ unfold array_length; simpl; lia | ].
  split; [ reflexivity | ]. split; [ reflexivity | ].
  unfold array_length. simpl. lia.
Qed.

(** C5, amended. The remover bound to position [p] passes the setter a
    transform that, applied to any array, returns a new array holding exactly
    the elements whose position differs from [p], in their order, holes left
    out. On a sequence (an array without holes) the result is the sequence
    with position [p] deleted: position [j] reads what [j] read before when
    [j < p] and what [j + 1] read otherwise, and the length drops by exactly
    one when [p] is a valid index; when it is not, the sequence is copied
    unchanged. *)
Theorem remover_excludes_position (setArray : oid) (p : nat) (n0 : oid) :
  exists r, createDeleteAction setArray p n0 = Ok r (S n0) /\ rm_id r = n0
    /\ exists t, rm_call r = Dispatch setArray (Updater t)
       /\ (forall (aid : oid) (slots : list (option value)) (n : oid),
             t (Arr aid slots) n = Ok (Arr n (Some <$> present (delete p slots))) (S n))
       /\ (forall (aid : oid) (xs : list value) (n : oid),
             t (Arr aid (Some <$> xs)) n = Ok (Arr n (Some <$> delete p xs)) (S n)
             /\ (forall j, delete p xs !! j = if j <? p then xs !! j else xs !! S j)
             /\ (p < length xs -> length (delete p xs) = length xs - 1)
             /\ (length xs <= p -> delete p xs = xs)).
Proof.
  eexists. split; [ reflexivity | ]. split; [ reflexivity | ].
  eexists. split; [ reflexivity | ].
  assert (G : forall aid slots n,
             array_filter (Arr aid slots) (fun _ j => negb (j =? p)) n
             = Ok (Arr n (Some <$> present (delete p slots))) (S n)).
  { intros aid slots n. unfold array_filter, bind, fresh, ret. simpl.
    rewrite filter_slots_delete. simpl. now rewrite Nat.sub_0_r. }
  split; [ exact G | ].
  intros aid xs n. split; [ | split; [ | split ] ].
  - rewrite G, delete_fmap_Some, present_Some. reflexivity.
  - intros j. apply lookup_delete_list.
  - intros Hp. apply length_delete. now apply lookup_lt_is_Some_2.
  - intros Hp. rewrite delete_take_drop, drop_ge, take_ge by lia. apply app_nil_r.
Qed.

Lemma remover_excludes_position_witness :
  exists t, (forall r, createDeleteAction 7 1 0 = Ok r 1 -> rm_call r = Dispatch 7 (Updater t))
    /\ t (Arr 3 [Some (VString "a"); Some (VString "b"); Some (VString "c")]) 8
       = Ok (Arr 8 [Some (VString "a"); Some (VString "c")]) 9
    /\ length (delete 1 [VString "a"; VString "b"; VString "c"]) = 2.
Proof.
  destruct (remover_excludes_position 7 1 0) as (r & Hr & _ & t & Ht & _ & Hdense).
  exists t. split.
  - intros r' Hr'. rewrite Hr in Hr'. injection Hr' as <-. exact Ht.
  - destruct (Hdense 3 [VString "a"; VString "b"; VString "c"] 8) as (Hrun & _ & Hlen & _).
    split; [ exact Hrun | ]. apply Hlen. simpl. lia.
Defined.

(** In [src/unnamed/part_000] a mutator whose candidate equals the old value
    hands the setter a transform that returns the container it was given,
    and allocates nothing. *)
Lemma VariantB_mutator_short_circuit :
  (forall (setArray : oid) (p : nat) (n0 : oid),
      exists m, VariantB.createArrayElementSetState setArray p n0 = Ok m (S n0)
        /\ forall setElement, exists t,
             fn_call m setElement = Dispatch setArray (Updater t)
             /\ forall (old : JsArray) (n : oid) (cand : value) (n1 : oid),
                  evaluateSetStateAction setElement (array_get old p) n = Ok cand n1 ->
                  strict_eq (array_get old p) cand = true ->
                  t old n = Ok old n1)
  /\ (forall (setObject : oid) (key : string) (n0 : oid),
      exists m, VariantB.createObjectPropertySetState setObject key n0 = Ok m (S n0)
        /\ forall setProperty, exists t,
             fn_call m setProperty = Dispatch setObject (Updater t)
             /\ forall (old : JsObject) (n : oid) (cand : value) (n1 : oid),
                  evaluateSetStateAction setProperty (object_get old key) n = Ok cand n1 ->
                  strict_eq (object_get old key) cand = true ->
                  t old n = Ok old n1).
Proof.
  split.
  - intros setArray p n0. eexists. split; [ reflexivity | ].
    intros setElement. eexists. split; [ reflexivity | ].
    intros old n cand n1 Heval Heq. unfold bind. rewrite Heval.
    now apply VariantB_replaceAtIndex_same.
  - intros setObject key n0. eexists. split; [ reflexivity | ].
    intros setProperty. eexists. split; [ reflexivity | ].
    intros old n cand n1 Heval Heq. unfold bind. rewrite Heval. cbv zeta.
    now rewrite Heq.
Qed.

(** In [src/use-destructuring.ts] the transform of a mutator returns a newly
    allocated container whatever the candidate is, equal to the old value or
    not. *)
Lemma VariantA_mutator_always_copies :
  (forall (setArray : oid) (p : nat) (n0 : oid),
      exists m, VariantA.createArrayElementSetState setArray p n0 = Ok m (S n0)
        /\ forall setElement, exists t,
             fn_call m setElement = Dispatch setArray (Updater t)
             /\ forall (old : JsArray) (n : oid) (cand : value) (n1 : oid),
                  evaluateSetStateAction setElement (array_get old p) n = Ok cand n1 ->
                  exists new, t old n = Ok new (S n1)
                              /\ arr_id new = n1 /\ replaced_at old new p cand)
  /\ (forall (setObject : oid) (key : string) (n0 : oid),
      exists m, VariantA.createObjectPropertySetState setObject key n0 = Ok m (S n0)
        /\ forall setProperty, exists t,
             fn_call m setProperty = Dispatch setObject (Updater t)
             /\ forall (old : JsObject) (n : oid) (cand : value) (n1 : oid),
                  evaluateSetStateAction setProperty (object_get old key) (S n) = Ok cand n1 ->
                  exists new, t old n = Ok new n1
                              /\ obj_id new = n /\ field_replaced old new key cand).
Proof.
  split.
  - intros setArray p n0. eexists. split; [ reflexivity | ].
    intros setElement. eexists. split; [ reflexivity | ].
    intros old n cand n1 Heval. unfold bind. rewrite Heval.
    apply VariantA_replaceAtIndex_copy.
  - intros setObject key n0. eexists. split; [ reflexivity | ].
    intros setProperty. eexists. split; [ reflexivity | ].
    intros old n cand n1 Heval. unfold bind, fresh. rewrite Heval.
    eexists. split; [ reflexivity | ]. split; [ reflexivity | ].
    apply field_replaced_spread.
Qed.

(** C2. A mutator called with a value equal to the current one is to hand
    the setter a transform that returns the container unchanged. The
    mutators of [src/use-destructuring.ts] do not: on [{firstName: "John"}]
    the mutator of [firstName] called with ["John"], and on [["a", "b"]] the
    mutator of position 0 called with ["a"], return a new container (object
    [2]) with the same content. Those of [src/unnamed/part_000] return the
    container they were given. *)
Theorem VariantA_mutator_copies_on_equal_value :
  strict_eq (object_get john "firstName") (VString "John") = true
  /\ commit_field_literal VariantA.createObjectPropertySetState
       "firstName" (VString "John") john 2
     = Ok (Obj 2 [("firstName", VString "John")]) 3
  /\ strict_eq (VObject john) (VObject (Obj 2 [("firstName", VString "John")])) = false
  /\ strict_eq (array_get letters 0) (VString "a") = true
  /\ commit_element_literal VariantA.createArrayElementSetState 0 (VString "a") letters 2
     = Ok (Arr 2 [Some (VString "a"); Some (VString "b")]) 3
  /\ commit_field_literal VariantB.createObjectPropertySetState
       "firstName" (VString "John") john 2
     = Ok john 2
  /\ commit_element_literal VariantB.createArrayElementSetState 0 (VString "a") letters 2
     = Ok letters 2.
Proof. repeat split. Qed.

(** ** Sequence reconciliation *)

Lemma limit_take {T} (l : list T) (k : nat) : limit l k = take (Nat.min (length l) k) l.
Proof.
  unfold limit. destruct (Nat.leb_spec (length l) k).
  - rewrite Nat.min_l by lia. now rewrite take_ge.
  - now rewrite Nat.min_r by lia.
Qed.

Lemma map_slots_triples (cache : ArrayCache) (slots : list (option value)) :
  forall j n,
    j + length slots <= length cache ->
    map_slots (fun s i => match cache !! i with
                          | Some (m, r) => ret (s, m, r)
                          | None => throw TypeError
                          end) j slots n
    = Ok (imap (fun i => triple_at cache (j + i)) slots) n.
Proof.
  induction slots as [ | slot rest IH ]; intros j n Hlen; simpl in *.
  - reflexivity.
  - assert (Hrest : map_slots (fun s i => match cache !! i with
                          | Some (m, r) => ret (s, m, r)
                          | None => throw TypeError
                          end) (S j) rest n
                    = Ok (imap ((fun i => triple_at cache (j + i)) ∘ S) rest) n).
    { rewrite IH by lia. f_equal. apply imap_ext. intros i x _.
      unfold compose. f_equal. lia. }
    destruct slot as [ s | ].
    + assert (Hlt : j < length cache) by lia.
      destruct (lookup_lt_is_Some_2 cache j Hlt) as [ [m r] Hj ].
      rewrite Hj, bind_ret, (bind_Ok _ _ _ _ _ Hrest).
      unfold ret. f_equal. f_equal. unfold triple_at.
      replace (j + 0) with j by lia. now rewrite Hj.
    + now rewrite (bind_Ok _ _ _ _ _ Hrest).
Qed.

Section Sequence.

Variable replaceAtIndex : JsArray -> nat -> value -> M JsArray.

Local Abbreviation create := (createArrayElementSetState replaceAtIndex).
Local Abbreviation factory := (slot_factory replaceAtIndex).

Lemma factory_run setArray p n :
  exists pair, factory setArray p n = Ok pair (S (S n))
               /\ synthesized_pair create setArray p n pair
               /\ fn_id (fst pair) = n /\ rm_id (snd pair) = S n.
Proof. eexists. split; [ reflexivity | ]. repeat split. Qed.

Lemma map_M_factory setArray offset k :
  forall start n,
  exists added,
    map_M (fun i => factory setArray (offset + i)) (seq start k) n = Ok added (n + 2 * k)
    /\ length added = k
    /\ forall j, j < k ->
         exists pair, added !! j = Some pair
           /\ synthesized_pair create setArray (offset + start + j) (n + 2 * j) pair
           /\ fn_id (fst pair) = n + 2 * j /\ rm_id (snd pair) = S (n + 2 * j).
Proof.
  induction k as [ | k IH ]; intros start n.
  - exists []. simpl. unfold ret. rewrite Nat.add_0_r. repeat split. intros j Hj. lia.
  - destruct (factory_run setArray (offset + start) n) as (pair & Hrun & Hpair & Hm & Hr).
    destruct (IH (S start) (S (S n))) as (rest & Hrest & Hlen & Hnth).
    exists (pair :: rest). split; [ | split ].
    + simpl. rewrite (bind_Ok _ _ _ _ _ Hrun), (bind_Ok _ _ _ _ _ Hrest).
      unfold ret. f_equal. lia.
    + simpl. now rewrite Hlen.
    + intros [ | j ] Hj.
      * exists pair. split; [ reflexivity | ]. now rewrite !Nat.add_0_r.
      * assert (Hj' : j < k) by lia.
        destruct (Hnth j Hj') as (q & Hq & Hsyn). exists q. split; [ exact Hq | ].
        replace (offset + start + S j) with (offset + S start + j) by lia.
        replace (n + 2 * S j) with (S (S n) + 2 * j) by lia. exact Hsyn.
Qed.

Lemma append_factory setArray old new n :
  exists added,
    append old (Z.of_nat new - Z.of_nat old) (factory setArray) n
    = Ok added (n + 2 * (new - old))
    /\ length added = new - old
    /\ forall j, j < new - old ->
         exists pair, added !! j = Some pair
           /\ synthesized_pair create setArray (old + j) (n + 2 * j) pair
           /\ fn_id (fst pair) = n + 2 * j /\ rm_id (snd pair) = S (n + 2 * j).
Proof.
  unfold append.
  destruct (Z.ltb_spec (Z.of_nat new - Z.of_nat old) 1) as [Hlt | Hge].
  - exists []. replace (new - old) with 0 by lia. unfold ret. rewrite Nat.add_0_r.
    repeat split. intros j Hj. lia.
  - replace (Z.to_nat (Z.of_nat new - Z.of_nat old)) with (new - old) by lia.
    destruct (map_M_factory setArray old (new - old) 0 n) as (added & Hrun & Hlen & Hnth).
    exists added. split; [ exact Hrun | ]. split; [ exact Hlen | ].
    intros j Hj. destruct (Hnth j Hj) as (pair & Hp & Hsyn). exists pair.
    now rewrite Nat.add_0_r in Hsyn.
Qed.

(** What a sequence reconciliation returns, whatever the two lengths. *)
Lemma memoizeArray_run (cache : ArrayCache) (array : JsArray) (setArray n : oid) :
  let old := length cache in
  let new := array_length array in
  exists added,
    memoizeArray replaceAtIndex cache array setArray n
    = Ok (ArrayOut (n + 2 * (new - old))
            (imap (triple_at (take (Nat.min old new) cache ++ added)) (arr_slots array)),
          take (Nat.min old new) cache ++ added)
         (S (n + 2 * (new - old)))
    /\ length added = new - old
    /\ forall j, j < new - old ->
         exists pair, added !! j = Some pair
           /\ synthesized_pair create setArray (old + j) (n + 2 * j) pair
           /\ fn_id (fst pair) = n + 2 * j /\ rm_id (snd pair) = S (n + 2 * j).
Proof.
  intros old new. unfold memoizeArray.
  destruct (Nat.eqb_spec (length cache) (array_length array)) as [Heq | Hne];
    simpl negb; cbv iota.
  - exists []. fold old new. fold old new in Heq.
    replace (new - old) with 0 by lia. rewrite Nat.add_0_r.
    rewrite Nat.min_l by lia. rewrite app_nil_r. rewrite take_ge by (fold old; lia).
    split; [ | split; [ reflexivity | intros j Hj; lia ] ].
    rewrite bind_ret, bind_fresh.
    erewrite bind_Ok; [ reflexivity | ].
    apply map_slots_triples. unfold old, new, array_length in Heq. simpl. lia.
  - destruct (append_factory setArray old new n) as (added & Hrun & Hlen & Hnth).
    exists added. split; [ | split; [ exact Hlen | exact Hnth ] ].
    fold old new.
    erewrite bind_Ok; [ | erewrite bind_Ok; [ | exact Hrun ]; reflexivity ].
    rewrite bind_fresh, limit_take. fold old.
    erewrite bind_Ok; [ reflexivity | ].
    apply map_slots_triples.
    rewrite length_app, length_take, Hlen. fold old. unfold new, array_length. simpl. lia.
Qed.

End Sequence.

(** C4. When the cached slot list and the array differ in length, the
    reconciliation returns, and stores, the first
    [min old new] cached slots followed, when the array is longer, by one
    newly synthesized (mutator, remover) pair for each position from [old]
    to [new - 1]: the pair for position [old + j] is what
    [createArrayElementSetState] and [createDeleteAction] return for the
    current setter and that position, as function objects [n + 2j] and
    [n + 2j + 1], none of which existed before the call. The slots below the
    minimum are the cached ones, the new list is as long as the array, and
    nothing else is allocated but the output array. The statement is about
    [memoizeArray] over any [replaceAtIndex], that of either file included:
    [VariantA.memoizeArray] and [VariantB.memoizeArray] are two instances. *)
Theorem memoizeArray_resizes (replaceAtIndex : JsArray -> nat -> value -> M JsArray)
    (cache : ArrayCache) (array : JsArray) (setArray n : oid) :
  length cache <> array_length array ->
  let old := length cache in
  let new := array_length array in
  exists out added,
    memoizeArray replaceAtIndex cache array setArray n
    = Ok (out, take (Nat.min old new) cache ++ added) (S (n + 2 * (new - old)))
    /\ length added = new - old
    /\ (forall j, j < new - old ->
          exists pair,
            added !! j = Some pair
            /\ synthesized_pair (createArrayElementSetState replaceAtIndex)
                 setArray (old + j) (n + 2 * j) pair
            /\ fn_id (fst pair) = n + 2 * j /\ rm_id (snd pair) = S (n + 2 * j))
    /\ (forall i, i < Nat.min old new ->
          (take (Nat.min old new) cache ++ added) !! i = cache !! i)
    /\ length (take (Nat.min old new) cache ++ added) = new
    /\ out_items out
       = imap (triple_at (take (Nat.min old new) cache ++ added)) (arr_slots array).
Proof.
  intros Hne old new.
  destruct (memoizeArray_run replaceAtIndex cache array setArray n)
    as (added & Hrun & Hlen & Hnth).
  fold old new in Hrun, Hlen, Hnth.
  eexists. exists added. split; [ exact Hrun | ]. split; [ exact Hlen | ].
  split; [ exact Hnth | ]. split; [ | split; [ | reflexivity ] ].
  - intros i Hi. rewrite lookup_app_l by (rewrite length_take; fold old; lia).
    apply lookup_take_lt. lia.
  - rewrite length_app, length_take, Hlen. fold old. lia.
Qed.

Lemma memoizeArray_resizes_witness :
  exists out added,
    VariantB.memoizeArray [] letters 100 5 = Ok (out, added) 10
    /\ length added = 2
    /\ exists pair,
         added !! 1 = Some pair
         /\ synthesized_pair VariantB.createArrayElementSetState 100 1 7 pair.
Proof.
  assert (Hne : length ([] : ArrayCache) <> array_length letters)
    by (unfold array_length, letters; simpl; lia).
  destruct (memoizeArray_resizes VariantB.replaceAtIndex [] letters 100 5 Hne)
    as (out & added & Hrun & Hlen & Hnth & _).
  exists out, added. split; [ exact Hrun | ]. split; [ exact Hlen | ].
  assert (H1 : 1 < array_length letters - length ([] : ArrayCache)) by (unfold array_length, letters; simpl; lia).
  destruct (Hnth 1 H1) as (pair & Hp & Hsyn & _).
  exists pair. split; [ exact Hp | exact Hsyn ].
Defined.

(** ** Record reconciliation *)

Lemma capitalize_empty n : capitalize "" n = Throw (UsageError capitalize_message).
Proof. reflexivity. Qed.

Lemma capitalize_nonempty key n :
  key <> "" -> exists name, capitalize key n = Ok name n.
Proof. destruct key as [ | c rest ]; [ congruence | ]. intros _. eexists. reflexivity. Qed.

(** *** The loop of [memoizeObject] in [src/unnamed/part_000] *)

Lemma VariantB_body_empty oldMap setState acc n :
  VariantB.memoizeObject_body oldMap setState "" acc n
  = Throw (UsageError capitalize_message).
Proof.
  destruct acc as [newMap setMethods]. unfold VariantB.memoizeObject_body.
  destruct (oldMap !! "") as [ val | ]; reflexivity.
Qed.

Lemma VariantB_body_run oldMap setState key newMap setMethods n :
  key <> "" ->
  exists val methods n',
    VariantB.memoizeObject_body oldMap setState key (newMap, setMethods) n
    = Ok (<[key := val]> newMap, ObjectOut (set_id setMethods) methods) n'
    /\ match oldMap !! key with
       | Some m => val = m /\ n' = n
       | None => VariantB.createObjectPropertySetState setState key n = Ok val (S n)
                 /\ n' = S n
       end.
Proof.
  intros Hkey. destruct (capitalize_nonempty key n Hkey) as (name & Hname).
  destruct (capitalize_nonempty key (S n) Hkey) as (name' & Hname').
  unfold VariantB.memoizeObject_body.
  destruct (oldMap !! key) as [ m | ].
  - rewrite bind_ret. cbv zeta. rewrite (bind_Ok _ _ _ _ _ Hname).
    do 3 eexists. split; [ reflexivity | ]. split; reflexivity.
  - erewrite bind_Ok; [ | reflexivity ]. cbv zeta. rewrite (bind_Ok _ _ _ _ _ Hname').
    do 3 eexists. split; [ reflexivity | ]. split; reflexivity.
Qed.

Lemma VariantB_loop_throw oldMap setState keys :
  In "" keys ->
  forall acc n,
    for_of keys acc (VariantB.memoizeObject_body oldMap setState) n
    = Throw (UsageError capitalize_message).
Proof.
  induction keys as [ | key rest IH ]; intros Hin acc n; [ destruct Hin | ].
  simpl. destruct (String.eqb_spec key "") as [-> | Hne].
  - apply bind_Throw, VariantB_body_empty.
  - destruct acc as [newMap setMethods].
    destruct (VariantB_body_run oldMap setState key newMap setMethods n Hne)
      as (val & methods & n' & Hrun & _).
    rewrite (bind_Ok _ _ _ _ _ Hrun). apply IH.
    destruct Hin as [ Heq | Hin ]; [ congruence | exact Hin ].
Qed.

Lemma VariantB_loop_run oldMap setState keys :
  ~ In "" keys ->
  forall newMap setMethods n,
  exists newMap' methods n',
    for_of keys (newMap, setMethods) (VariantB.memoizeObject_body oldMap setState) n
    = Ok (newMap', ObjectOut (set_id setMethods) methods) n'
    /\ n <= n'
    /\ (forall k, ~ In k keys -> newMap' !! k = newMap !! k)
    /\ (forall k m, In k keys -> oldMap !! k = Some m -> newMap' !! k = Some m)
    /\ (forall k, In k keys -> oldMap !! k = None ->
          exists m id, newMap' !! k = Some m /\ n <= id < n'
                       /\ VariantB.createObjectPropertySetState setState k id = Ok m (S id)).
Proof.
  induction keys as [ | key rest IH ]; intros Hnot newMap setMethods n.
  - exists newMap, (set_methods setMethods), n. destruct setMethods. simpl.
    split; [ reflexivity | ]. split; [ lia | ]. repeat split; intros; tauto.
  - assert (Hne : key <> "") by (intros ->; apply Hnot; now left).
    assert (Hrest : ~ In "" rest) by (intros H; apply Hnot; now right).
    destruct (VariantB_body_run oldMap setState key newMap setMethods n Hne)
      as (val & methods & n1 & Hrun & Hval).
    destruct (IH Hrest (<[key := val]> newMap) (ObjectOut (set_id setMethods) methods) n1)
      as (newMap' & methods' & n' & Hloop & Hle & Hout & Hold & Hnew).
    assert (Hn1 : n <= n1).
    { destruct (oldMap !! key); [ destruct Hval as [_ ->] | destruct Hval as [_ ->] ]; lia. }
    exists newMap', methods', n'. simpl.
    rewrite (bind_Ok _ _ _ _ _ Hrun). split; [ exact Hloop | ].
    split; [ lia | ]. split; [ | split ].
    + intros k Hk. rewrite Hout by tauto. apply lookup_insert_ne. tauto.
    + intros k m [ -> | Hk ] Hm; [ | now apply Hold ].
      destruct (in_dec string_dec k rest) as [ Hin | Hnin ]; [ now apply Hold | ].
      rewrite Hout by exact Hnin. rewrite Hm in Hval. destruct Hval as [-> _].
      apply lookup_insert_eq.
    + intros k Hk Hnone.
      destruct (in_dec string_dec k rest) as [ Hin | Hnin ].
      * destruct (Hnew k Hin Hnone) as (m & id & Hm & Hid & Hcreate).
        exists m, id. split; [ exact Hm | ]. split; [ lia | exact Hcreate ].
      * destruct Hk as [ -> | Hk ]; [ | contradiction ].
        rewrite Hnone in Hval. destruct Hval as [Hcreate ->].
        exists val, n. split; [ | split; [ lia | exact Hcreate ] ].
        rewrite Hout by exact Hnin. apply lookup_insert_eq.
Qed.

(** In [src/unnamed/part_000] a record reconciliation leaves in the cache an
    entry for exactly the keys of the composite: the old mutator of a key
    that was cached, a newly synthesized one otherwise. *)
Lemma VariantB_memoizeObject_exact (oldMap : ObjectCache) (state : JsObject)
    (setState n : oid) :
  ~ In "" (keysOf state) ->
  exists methods newMap n',
    VariantB.memoizeObject oldMap state setState n = Ok (ObjectOut n methods, newMap) n'
    /\ n < n'
    /\ (forall k, is_Some (newMap !! k) <-> In k (keysOf state))
    /\ (forall k m, In k (keysOf state) -> oldMap !! k = Some m -> newMap !! k = Some m)
    /\ (forall k, In k (keysOf state) -> oldMap !! k = None ->
          exists m id, newMap !! k = Some m /\ n < id < n'
                       /\ VariantB.createObjectPropertySetState setState k id = Ok m (S id)).
Proof.
  intros Hnot. unfold VariantB.memoizeObject. cbv zeta. rewrite bind_fresh.
  destruct (VariantB_loop_run oldMap setState (keysOf state) Hnot ∅ (ObjectOut n []) (S n))
    as (newMap & methods & n' & Hloop & Hle & Hout & Hold & Hnew).
  exists methods, newMap, n'. rewrite (bind_Ok _ _ _ _ _ Hloop). simpl.
  split; [ reflexivity | ]. split; [ lia | ]. split; [ | split ].
  - intros k. destruct (in_dec string_dec k (keysOf state)) as [ Hin | Hnin ].
    + split; [ tauto | intros _ ].
      destruct (oldMap !! k) as [ m | ] eqn:E.
      * rewrite (Hold k m Hin E). eauto.
      * destruct (Hnew k Hin E) as (m & id & Hm & _). rewrite Hm. eauto.
    + rewrite (Hout k Hnin), lookup_empty. split; [ intros [x Hx]; discriminate | tauto ].
  - exact Hold.
  - intros k Hin Hnone. destruct (Hnew k Hin Hnone) as (m & id & Hm & Hid & Hcreate).
    exists m, id. split; [ exact Hm | ]. split; [ lia | exact Hcreate ].
Qed.

Lemma VariantB_memoizeObject_throw oldMap state setState n :
  In "" (keysOf state) ->
  VariantB.memoizeObject oldMap state setState n = Throw (UsageError capitalize_message).
Proof.
  intros Hin. unfold VariantB.memoizeObject. cbv zeta. rewrite bind_fresh.
  apply bind_Throw. now apply VariantB_loop_throw.
Qed.

(** *** The loop of [memoizeObject] in [src/use-destructuring.ts] *)

Lemma VariantA_body_empty setState acc n :
  VariantA.memoizeObject_body setState "" acc n = Throw (UsageError capitalize_message).
Proof.
  destruct acc as [map setMethods]. unfold VariantA.memoizeObject_body.
  destruct (map !! "") as [ val | ]; reflexivity.
Qed.

Lemma VariantA_body_run setState key (map : ObjectCache) setMethods n :
  key <> "" ->
  exists map' methods n',
    VariantA.memoizeObject_body setState key (map, setMethods) n
    = Ok (map', ObjectOut (set_id setMethods) methods) n'
    /\ n <= n'
    /\ is_Some (map' !! key)
    /\ (forall k m, map !! k = Some m -> map' !! k = Some m).
Proof.
  intros Hkey. destruct (capitalize_nonempty key n Hkey) as (name & Hname).
  destruct (capitalize_nonempty key (S n) Hkey) as (name' & Hname').
  unfold VariantA.memoizeObject_body.
  destruct (map !! key) as [ m | ] eqn:E.
  - rewrite bind_ret. rewrite (bind_Ok _ _ _ _ _ Hname).
    do 3 eexists. split; [ reflexivity | ]. split; [ lia | ]. split; [ | tauto ].
    rewrite E. eauto.
  - erewrite bind_Ok; [ | reflexivity ]. cbv beta iota.
    rewrite (bind_Ok _ _ _ _ _ Hname').
    do 3 eexists. split; [ reflexivity | ]. split; [ lia | ]. split.
    + rewrite lookup_insert_eq. eauto.
    + intros k m Hk. rewrite lookup_insert_ne; [ exact Hk | congruence ].
Qed.

Lemma VariantA_loop_throw setState keys :
  In "" keys ->
  forall acc n,
    for_of keys acc (VariantA.memoizeObject_body setState) n
    = Throw (UsageError capitalize_message).
Proof.
  induction keys as [ | key rest IH ]; intros Hin acc n; [ destruct Hin | ].
  simpl. destruct (String.eqb_spec key "") as [-> | Hne].
  - apply bind_Throw, VariantA_body_empty.
  - destruct acc as [map setMethods].
    destruct (VariantA_body_run setState key map setMethods n Hne)
      as (map' & methods & n' & Hrun & _).
    rewrite (bind_Ok _ _ _ _ _ Hrun). apply IH.
    destruct Hin as [ Heq | Hin ]; [ congruence | exact Hin ].
Qed.

Lemma VariantA_loop_run setState keys :
  ~ In "" keys ->
  forall (map : ObjectCache) setMethods n,
  exists map' methods n',
    for_of keys (map, setMethods) (VariantA.memoizeObject_body setState) n
    = Ok (map', ObjectOut (set_id setMethods) methods) n'
    /\ n <= n'
    /\ (forall k, In k keys -> is_Some (map' !! k))
    /\ (forall k m, map !! k = Some m -> map' !! k = Some m).
Proof.
  induction keys as [ | key rest IH ]; intros Hnot map setMethods n.
  - exists map, (set_methods setMethods), n. destruct setMethods. simpl.
    split; [ reflexivity | ]. split; [ lia | ]. split; [ intros; tauto | tauto ].
  - assert (Hne : key <> "") by (intros ->; apply Hnot; now left).
    assert (Hrest : ~ In "" rest) by (intros H; apply Hnot; now right).
    destruct (VariantA_body_run setState key map setMethods n Hne)
      as (map1 & methods & n1 & Hrun & Hle1 & Hkey & Hkeep1).
    destruct (IH Hrest map1 (ObjectOut (set_id setMethods) methods) n1)
      as (map' & methods' & n' & Hloop & Hle & Hin & Hkeep).
    exists map', methods', n'. simpl. rewrite (bind_Ok _ _ _ _ _ Hrun).
    split; [ exact Hloop | ]. split; [ lia | ]. split.
    + intros k [ -> | Hk ]; [ | now apply Hin ].
      destruct Hkey as [m Hm]. rewrite (Hkeep k m Hm). eauto.
    + intros k m Hk. apply Hkeep, Hkeep1, Hk.
Qed.

(** In [src/use-destructuring.ts] a record reconciliation never drops an
    entry: whatever was cached before is cached after, under the same
    mutator, whether or not the key is still a key of the composite. *)
Lemma VariantA_memoizeObject_keeps (cache : ObjectCache) (state : JsObject)
    (setState n : oid) :
  ~ In "" (keysOf state) ->
  exists methods cache' n',
    VariantA.memoizeObject cache state setState n = Ok (ObjectOut n methods, cache') n'
    /\ n < n'
    /\ (forall k, In k (keysOf state) -> is_Some (cache' !! k))
    /\ (forall k m, cache !! k = Some m -> cache' !! k = Some m).
Proof.
  intros Hnot. unfold VariantA.memoizeObject. cbv zeta. rewrite bind_fresh.
  destruct (VariantA_loop_run setState (keysOf state) Hnot cache (ObjectOut n []) (S n))
    as (cache' & methods & n' & Hloop & Hle & Hin & Hkeep).
  exists methods, cache', n'. rewrite (bind_Ok _ _ _ _ _ Hloop). simpl.
  split; [ reflexivity | ]. split; [ lia | ]. split; assumption.
Qed.

Lemma VariantA_memoizeObject_throw cache state setState n :
  In "" (keysOf state) ->
  VariantA.memoizeObject cache state setState n = Throw (UsageError capitalize_message).
Proof.
  intros Hin. unfold VariantA.memoizeObject. cbv zeta. rewrite bind_fresh.
  apply bind_Throw. now apply VariantA_loop_throw.
Qed.

(** C1. After a record reconciliation the cache is to hold an entry for
    exactly the keys of the current composite. In [src/use-destructuring.ts]
    it does not: deriving over [{x, y}] and then over [{x}] at the same site
    leaves the entry of [y] in the cache, since [memoizeObject] writes the
    cached [Map] in place and never deletes from it. *)
Theorem VariantA_cache_retains_removed_key :
  exists out1 h1 n1 out2 h2 n2,
    VariantA.useDestucturing None (VObject xy_record) 100 3 = Ok (out1, h1) n1
    /\ VariantA.useDestucturing (Some h1) (VObject x_record) 100 n1 = Ok (out2, h2) n2
    /\ keysOf x_record = ["x"]
    /\ has_entry h2 "x" = true
    /\ has_entry h2 "y" = true.
Proof.
  do 6 eexists. split; [ vm_compute; reflexivity | ].
  split; [ vm_compute; reflexivity | ].
  repeat split.
Qed.

(** The same two derivations in [src/unnamed/part_000] drop the entry. *)
Lemma VariantB_cache_drops_removed_key :
  exists out1 h1 n1 out2 h2 n2,
    VariantB.useDestucturing None (VObject xy_record) 100 3 = Ok (out1, h1) n1
    /\ VariantB.useDestucturing (Some h1) (VObject x_record) 100 n1 = Ok (out2, h2) n2
    /\ has_entry h2 "x" = true
    /\ has_entry h2 "y" = false.
Proof.
  do 6 eexists. split; [ vm_compute; reflexivity | ].
  split; [ vm_compute; reflexivity | ].
  split; reflexivity.
Qed.

(** ** The memo boundary *)

Lemma object_is_refl (v : value) : object_is v v = true.
Proof.
  destruct v; try reflexivity; simpl.
  - apply Bool.eqb_reflx.
  - apply Z.eqb_refl.
  - apply String.eqb_refl.
  - apply Nat.eqb_refl.
  - apply Nat.eqb_refl.
  - apply Nat.eqb_refl.
Qed.

Lemma deps_equal_refl (d : deps) : deps_equal d d = true.
Proof. unfold deps_equal. now rewrite Nat.eqb_refl, object_is_refl. Qed.

Lemma deps_equal_number (d : deps) (s0 : oid) (f0 : Z) (s : oid) (f : Z) :
  d = (s0, VNumber f0) ->
  deps_equal d (s, VNumber f) = true <-> s = s0 /\ f = f0.
Proof.
  intros ->. unfold deps_equal. simpl.
  rewrite andb_true_iff, Nat.eqb_eq, Z.eqb_eq. intuition congruence.
Qed.

Lemma deps_equal_array (d : deps) (s0 : oid) (a0 : JsArray) (s : oid) (a : JsArray) :
  d = (s0, VArray a0) ->
  deps_equal d (s, VArray a) = true <-> s = s0 /\ arr_id a = arr_id a0.
Proof.
  intros ->. unfold deps_equal. simpl.
  rewrite andb_true_iff, !Nat.eqb_eq. intuition congruence.
Qed.

Lemma useMemo_hit (hk : hook) (factory : M (output * cache)) (d : deps) (n : oid) :
  deps_equal (memo_deps hk) d = true ->
  useMemo (Some hk) factory d n = Ok (memo_value hk, hk) n.
Proof. intros H. unfold useMemo. now rewrite H. Qed.

Lemma useMemo_miss (h : option hook) (factory : M (output * cache)) (d : deps) (n : oid) :
  recomputes h d = true ->
  useMemo h factory d n = (do '(r, c) <- factory; ret (r, Hook c d r)) n.
Proof.
  intros H. unfold useMemo. destruct h as [ hk | ]; [ | reflexivity ].
  simpl in H. apply negb_true_iff in H. now rewrite H.
Qed.

Lemma recomputes_false (h : option hook) (d : deps) :
  recomputes h d = false <-> exists hk, h = Some hk /\ deps_equal (memo_deps hk) d = true.
Proof.
  destruct h as [ hk | ]; simpl.
  - rewrite negb_false_iff. split; [ eauto | ]. now intros (hk' & [= <-] & H).
  - split; [ discriminate | ]. now intros (hk' & [=] & _).
Qed.

Section Memo.

Variable replaceAtIndex : JsArray -> nat -> value -> M JsArray.
Variable memoizeObject : ObjectCache -> JsObject -> oid -> M (ObjectSetState * ObjectCache).
Variable shape_message : string.

Hypothesis memoizeObject_throw : forall c o s n,
  In "" (keysOf o) -> memoizeObject c o s n = Throw (UsageError capitalize_message).
Hypothesis memoizeObject_run : forall c o s n,
  ~ In "" (keysOf o) -> exists r c' n', memoizeObject c o s n = Ok (r, c') n' /\ n < n'.

Local Abbreviation derive := (useDestucturing replaceAtIndex memoizeObject shape_message).

Lemma derive_shape (h : option hook) (state : value) (s n : oid) :
  isObjectOrArray state = false ->
  derive h state s n = Throw (UsageError shape_message).
Proof. intros H. unfold derive, useDestucturing. now rewrite H. Qed.

Lemma isObjectOrArray_cases (state : value) :
  isObjectOrArray state = true ->
  (exists a, state = VArray a) \/ (exists o, state = VObject o).
Proof. destruct state; try discriminate; eauto. Qed.

Lemma derive_hit (hk : hook) (state : value) (s n : oid) :
  isObjectOrArray state = true ->
  deps_equal (memo_deps hk)
    (s, match state with
        | VObject o => VNumber (hashStrings (keysOf o))
        | _ => state
        end) = true ->
  derive (Some hk) state s n = Ok (memo_value hk, hk) n.
Proof.
  intros Hshape Hd. unfold derive, useDestucturing. rewrite Hshape. simpl negb. cbv iota.
  destruct (isObjectOrArray_cases state Hshape) as [ (a & ->) | (o & ->) ];
    now apply useMemo_hit.
Qed.

Lemma derive_array_miss (h : option hook) (a : JsArray) (s n : oid) :
  recomputes h (s, VArray a) = true ->
  exists r c n',
    derive h (VArray a) s n
    = Ok (OutArray r, Hook (CacheArray c) (s, VArray a) (OutArray r)) n'
    /\ n < n'
    /\ memoizeArray replaceAtIndex (narrowRef (useRef h (CacheArray [])) isArrayCache []) a s n
       = Ok (r, c) n'.
Proof.
  intros Hmiss. unfold derive, useDestucturing. simpl.
  rewrite (useMemo_miss _ _ _ _ Hmiss).
  destruct (memoizeArray_run replaceAtIndex
              (narrowRef (useRef h (CacheArray [])) isArrayCache []) a s n)
    as (added & Hrun & _).
  do 3 eexists. split; [ | split; [ | exact Hrun ] ].
  - erewrite bind_Ok; [ | erewrite bind_Ok; [ | exact Hrun ]; reflexivity ]. reflexivity.
  - lia.
Qed.

Lemma derive_object_miss (h : option hook) (o : JsObject) (s n : oid) :
  recomputes h (s, VNumber (hashStrings (keysOf o))) = true ->
  ~ In "" (keysOf o) ->
  exists r c n',
    derive h (VObject o) s n
    = Ok (OutObject r,
          Hook (CacheMap c) (s, VNumber (hashStrings (keysOf o))) (OutObject r)) n'
    /\ n < n'
    /\ memoizeObject (narrowRef (useRef h (CacheMap ∅)) isObjectCache ∅) o s n
       = Ok (r, c) n'.
Proof.
  intros Hmiss Hkeys. unfold derive, useDestucturing. simpl.
  rewrite (useMemo_miss _ _ _ _ Hmiss).
  destruct (memoizeObject_run (narrowRef (useRef h (CacheMap ∅)) isObjectCache ∅) o s n Hkeys)
    as (r & c & n' & Hrun & Hlt).
  exists r, c, n'. split; [ | split; [ exact Hlt | exact Hrun ] ].
  erewrite bind_Ok; [ | erewrite bind_Ok; [ | exact Hrun ]; reflexivity ]. reflexivity.
Qed.

Lemma derive_object_rerun (h : option hook) (o : JsObject) (s n : oid) :
  recomputes h (s, VNumber (hashStrings (keysOf o))) = true ->
  derive h (VObject o) s n
  = (do '(r, c) <- memoizeObject (narrowRef (useRef h (CacheMap ∅)) isObjectCache ∅) o s;
     ret (OutObject r,
          Hook (CacheMap c) (s, VNumber (hashStrings (keysOf o))) (OutObject r))) n.
Proof.
  intros Hmiss. unfold useDestucturing. simpl.
  rewrite (useMemo_miss _ _ _ _ Hmiss).
  unfold bind. destruct (memoizeObject _ o s n) as [ [r0 c0] n0 | e ]; reflexivity.
Qed.

Lemma derive_object_throw (h : option hook) (o : JsObject) (s n : oid) :
  recomputes h (s, VNumber (hashStrings (keysOf o))) = true ->
  In "" (keysOf o) ->
  derive h (VObject o) s n = Throw (UsageError capitalize_message).
Proof.
  intros Hmiss Hkeys. unfold derive, useDestucturing. simpl.
  rewrite (useMemo_miss _ _ _ _ Hmiss).
  apply bind_Throw, bind_Throw, memoizeObject_throw, Hkeys.
Qed.

(** After a derivation that returned, the dependencies stored in the cell
    are equal to those of the call. *)
Lemma derive_stores_deps (h : option hook) (state : value) (s n : oid)
    (out : output) (h' : hook) (n' : oid) :
  derive h state s n = Ok (out, h') n' ->
  isObjectOrArray state = true
  /\ out = memo_value h'
  /\ deps_equal (memo_deps h')
       (s, match state with
           | VObject o => VNumber (hashStrings (keysOf o))
           | _ => state
           end) = true.
Proof.
  intros Hrun.
  destruct (isObjectOrArray state) eqn:Hshape;
    [ | rewrite (derive_shape _ _ _ _ Hshape) in Hrun; discriminate ].
  split; [ reflexivity | ].
  set (d := (s, match state with
                | VObject o => VNumber (hashStrings (keysOf o))
                | _ => state
                end)).
  destruct (recomputes h d) eqn:Hopen.
  - destruct (isObjectOrArray_cases state Hshape) as [ (a & ->) | (o & ->) ].
    + destruct (derive_array_miss h a s n Hopen) as (r & c & n1 & Heq & _).
      rewrite Heq in Hrun. injection Hrun as <- <- <-. simpl.
      split; [ reflexivity | apply deps_equal_refl ].
    + destruct (in_dec string_dec "" (keysOf o)) as [ Hin | Hnin ].
      * rewrite (derive_object_throw h o s n Hopen Hin) in Hrun. discriminate.
      * destruct (derive_object_miss h o s n Hopen Hnin) as (r & c & n1 & Heq & _).
        rewrite Heq in Hrun. injection Hrun as <- <- <-. simpl.
        split; [ reflexivity | apply deps_equal_refl ].
  - apply recomputes_false in Hopen. destruct Hopen as (hk & -> & Hd).
    rewrite (derive_hit hk state s n Hshape Hd) in Hrun.
    injection Hrun as <- <- <-. split; [ reflexivity | exact Hd ].
Qed.

Lemma derive_twice (h : option hook) (state : value) (s n : oid)
    (out : output) (h' : hook) (n' : oid) :
  derive h state s n = Ok (out, h') n' ->
  derive (Some h') state s n' = Ok (out, h') n'.
Proof.
  intros Hrun. destruct (derive_stores_deps _ _ _ _ _ _ _ Hrun) as (Hshape & -> & Hd).
  now apply derive_hit.
Qed.

Lemma derive_same_array (h : option hook) (a a' : JsArray) (s n : oid)
    (out : output) (h' : hook) (n' : oid) :
  arr_id a' = arr_id a ->
  derive h (VArray a) s n = Ok (out, h') n' ->
  derive (Some h') (VArray a') s n' = Ok (out, h') n'.
Proof.
  intros Hid Hrun. destruct (derive_stores_deps _ _ _ _ _ _ _ Hrun) as (Hshape & -> & Hd).
  apply derive_hit; [ reflexivity | ].
  unfold deps_equal in *. simpl in *. destruct (memo_deps h') as [s0 [ ] ]; simpl in *;
    try (rewrite andb_false_r in Hd; discriminate).
  now rewrite Hid.
Qed.

Lemma derive_same_keys (h : option hook) (o o' : JsObject) (s n : oid)
    (out : output) (h' : hook) (n' : oid) :
  Permutation (keysOf o) (keysOf o') ->
  derive h (VObject o) s n = Ok (out, h') n' ->
  derive (Some h') (VObject o') s n' = Ok (out, h') n'.
Proof.
  intros Hp Hrun. destruct (derive_stores_deps _ _ _ _ _ _ _ Hrun) as (Hshape & -> & Hd).
  apply derive_hit; [ reflexivity | ].
  now rewrite <- (hashStrings_perm _ _ Hp).
Qed.

(** The memo boundary: the prior output comes back untouched exactly when
    the dependencies are unchanged. *)
Lemma derive_untouched_iff (hk : hook) (state : value) (s n : oid) :
  isObjectOrArray state = true ->
  derive (Some hk) state s n = Ok (memo_value hk, hk) n
  <-> recomputes (Some hk)
        (s, match state with
            | VObject o => VNumber (hashStrings (keysOf o))
            | _ => state
            end) = false.
Proof.
  intros Hshape. split.
  - intros Hrun. destruct (recomputes _ _) eqn:Hopen; [ exfalso | reflexivity ].
    destruct (isObjectOrArray_cases state Hshape) as [ (a & ->) | (o & ->) ].
    + destruct (derive_array_miss _ a s n Hopen) as (r & c & n1 & Heq & Hlt & _).
      rewrite Heq in Hrun. injection Hrun as _ _ Hn. lia.
    + destruct (in_dec string_dec "" (keysOf o)) as [ Hin | Hnin ].
      * rewrite (derive_object_throw _ o s n Hopen Hin) in Hrun. discriminate.
      * destruct (derive_object_miss _ o s n Hopen Hnin) as (r & c & n1 & Heq & Hlt & _).
        rewrite Heq in Hrun. injection Hrun as _ _ Hn. lia.
  - intros Hopen. apply recomputes_false in Hopen. destruct Hopen as (hk' & [= <-] & Hd).
    now apply derive_hit.
Qed.

Lemma derive_throw_iff (h : option hook) (state : value) (s n : oid) :
  ((exists e, derive h state s n = Throw e)
   <-> (isObjectOrArray state = false
        \/ exists o, state = VObject o
                     /\ recomputes h (s, VNumber (hashStrings (keysOf o))) = true
                     /\ In "" (keysOf o)))
  /\ (forall e, derive h state s n = Throw e ->
        e = UsageError shape_message \/ e = UsageError capitalize_message).
Proof.
  destruct (isObjectOrArray state) eqn:Hshape.
  - destruct (isObjectOrArray_cases state Hshape) as [ (a & ->) | (o & ->) ].
    + assert (Hok : exists x n', derive h (VArray a) s n = Ok x n').
      { destruct (recomputes h (s, VArray a)) eqn:Hopen.
        - destruct (derive_array_miss h a s n Hopen) as (r & c & n1 & Heq & _). eauto.
        - apply recomputes_false in Hopen. destruct Hopen as (hk & -> & Hd).
          rewrite (derive_hit hk (VArray a) s n eq_refl Hd). eauto. }
      destruct Hok as (x & n' & Hok). rewrite Hok. split.
      * split; [ intros (e & He); discriminate | ].
        intros [ H | (o & H & _) ]; discriminate.
      * intros e He. discriminate.
    + destruct (recomputes h (s, VNumber (hashStrings (keysOf o)))) eqn:Hopen.
      * destruct (in_dec string_dec "" (keysOf o)) as [ Hin | Hnin ].
        -- rewrite (derive_object_throw h o s n Hopen Hin). split.
           ++ split; [ intros _; right; exists o; auto | eauto ].
           ++ intros e [= <-]. now right.
        -- destruct (derive_object_miss h o s n Hopen Hnin) as (r & c & n1 & Heq & _).
           rewrite Heq. split.
           ++ split; [ intros (e & He); discriminate | ].
              intros [ H | (o' & [= <-] & _ & Hin) ]; [ discriminate | contradiction ].
           ++ intros e He. discriminate.
      * pose proof Hopen as Hopen'.
        apply recomputes_false in Hopen. destruct Hopen as (hk & -> & Hd).
        rewrite (derive_hit hk (VObject o) s n eq_refl Hd). split.
        -- split; [ intros (e & He); discriminate | ].
           intros [ H | (o' & [= <-] & Hg & _) ]; [ discriminate | ].
           rewrite Hopen' in Hg. discriminate.
        -- intros e He. discriminate.
  - rewrite (derive_shape h state s n Hshape). split.
    + split; [ intros _; now left | eauto ].
    + intros e [= <-]. now left.
Qed.

End Memo.

(** ** The two files behind one statement *)

Lemma VariantA_memoizeObject_run (c : ObjectCache) (o : JsObject) (s n : oid) :
  ~ In "" (keysOf o) ->
  exists r c' n', VariantA.memoizeObject c o s n = Ok (r, c') n' /\ n < n'.
Proof.
  intros H.
  destruct (VariantA_memoizeObject_keeps c o s n H) as (ms & c' & n' & Hrun & Hlt & _).
  eauto.
Qed.

Lemma VariantB_memoizeObject_run (c : ObjectCache) (o : JsObject) (s n : oid) :
  ~ In "" (keysOf o) ->
  exists r c' n', VariantB.memoizeObject c o s n = Ok (r, c') n' /\ n < n'.
Proof.
  intros H.
  destruct (VariantB_memoizeObject_exact c o s n H) as (ms & c' & n' & Hrun & Hlt & _).
  eauto.
Qed.

(** Either hook is the shared code over a [memoizeObject] that raises on an
    empty key and otherwise returns after allocating. *)
Lemma variant_cases (derive : option hook -> value -> oid -> M (output * hook))
    (memoize : ObjectCache -> JsObject -> oid -> M (ObjectSetState * ObjectCache)) :
  (derive = VariantA.useDestucturing /\ memoize = VariantA.memoizeObject)
  \/ (derive = VariantB.useDestucturing /\ memoize = VariantB.memoizeObject) ->
  exists replaceAtIndex shape_message,
    derive = useDestucturing replaceAtIndex memoize shape_message
    /\ (forall c o s n,
          In "" (keysOf o) -> memoize c o s n = Throw (UsageError capitalize_message))
    /\ (forall c o s n,
          ~ In "" (keysOf o) -> exists r c' n', memoize c o s n = Ok (r, c') n' /\ n < n').
Proof.
  intros [ [-> ->] | [-> ->] ].
  - exists VariantA.replaceAtIndex, VariantA.shape_message.
    split; [ reflexivity | ].
    split; [ apply VariantA_memoizeObject_throw | apply VariantA_memoizeObject_run ].
  - exists VariantB.replaceAtIndex, VariantB.shape_message.
    split; [ reflexivity | ].
    split; [ apply VariantB_memoizeObject_throw | apply VariantB_memoizeObject_run ].
Qed.

Lemma variant_cases_hook (derive : option hook -> value -> oid -> M (output * hook)) :
  derive = VariantA.useDestucturing \/ derive = VariantB.useDestucturing ->
  exists replaceAtIndex memoize shape_message,
    derive = useDestucturing replaceAtIndex memoize shape_message
    /\ (forall c o s n,
          In "" (keysOf o) -> memoize c o s n = Throw (UsageError capitalize_message))
    /\ (forall c o s n,
          ~ In "" (keysOf o) -> exists r c' n', memoize c o s n = Ok (r, c') n' /\ n < n').
Proof.
  intros [ -> | -> ].
  - destruct (variant_cases VariantA.useDestucturing VariantA.memoizeObject)
      as (r & msg & H); [ now left | ]. eauto.
  - destruct (variant_cases VariantB.useDestucturing VariantB.memoizeObject)
      as (r & msg & H); [ now right | ]. eauto.
Qed.

Lemma memoizeArray_same_length (replaceAtIndex : JsArray -> nat -> value -> M JsArray)
    (cache : ArrayCache) (array : JsArray) (setArray n : oid) :
  length cache = array_length array ->
  memoizeArray replaceAtIndex cache array setArray n
  = Ok (ArrayOut n (imap (triple_at cache) (arr_slots array)), cache) (S n).
Proof.
  intros Heq.
  destruct (memoizeArray_run replaceAtIndex cache array setArray n)
    as (added & Hrun & Hlen & _).
  rewrite <- Heq, Nat.sub_diag in Hlen. apply nil_length_inv in Hlen. subst added.
  rewrite <- Heq, Nat.sub_diag, Nat.min_id, app_nil_r, take_ge in Hrun by lia.
  now rewrite Nat.mul_0_r, Nat.add_0_r in Hrun.
Qed.

(** C3. At one call site, a derivation that follows a derivation over the
    same composite and the same setter returns the very output of the first
    one, hence the same mutators and removers, leaves the cells of the site
    as they are and allocates nothing; for an array it is enough that the
    composite is the same object. In particular, when the cached slot list is
    as long as the array, the sequence reconciliation returns the cached slot
    list itself, and each entry of its output holds the cached mutator and
    remover of its position. *)
Theorem derivation_idempotent :
  (forall derive,
      derive = VariantA.useDestucturing \/ derive = VariantB.useDestucturing ->
      forall (h : option hook) (state : value) (setState n : oid)
             (out : output) (h' : hook) (n' : oid),
        derive h state setState n = Ok (out, h') n' ->
        derive (Some h') state setState n' = Ok (out, h') n')
  /\ (forall derive,
      derive = VariantA.useDestucturing \/ derive = VariantB.useDestucturing ->
      forall (h : option hook) (a a' : JsArray) (setState n : oid)
             (out : output) (h' : hook) (n' : oid),
        arr_id a' = arr_id a ->
        derive h (VArray a) setState n = Ok (out, h') n' ->
        derive (Some h') (VArray a') setState n' = Ok (out, h') n')
  /\ (forall memoize,
      memoize = VariantA.memoizeArray \/ memoize = VariantB.memoizeArray ->
      forall (cache : ArrayCache) (array : JsArray) (setArray n : oid),
        length cache = array_length array ->
        memoize cache array setArray n
        = Ok (ArrayOut n (imap (triple_at cache) (arr_slots array)), cache) (S n)).
Proof.
  split; [ | split ].
  - intros derive Hv h state s n out h' n' Hrun.
    destruct (variant_cases_hook derive Hv) as (r & m & msg & -> & Hthrow & Hok).
    exact (derive_twice r m msg Hthrow Hok h state s n out h' n' Hrun).
  - intros derive Hv h a a' s n out h' n' Hid Hrun.
    destruct (variant_cases_hook derive Hv) as (r & m & msg & -> & Hthrow & Hok).
    exact (derive_same_array r m msg Hthrow Hok h a a' s n out h' n' Hid Hrun).
  - intros memoize [ -> | -> ] cache array s n Heq; now apply memoizeArray_same_length.
Qed.

Lemma derivation_idempotent_witness :
  exists out h n,
    VariantB.useDestucturing None (VArray abc) 100 2 = Ok (out, h) n
    /\ VariantB.useDestucturing (Some h) (VArray abc) 100 n = Ok (out, h) n.
Proof.
  assert (Hfirst : exists out h n,
             VariantB.useDestucturing None (VArray abc) 100 2 = Ok (out, h) n).
  { do 3 eexists. vm_compute. reflexivity. }
  destruct Hfirst as (out & h & n & Hrun).
  exists out, h, n. split; [ exact Hrun | ].
  exact (proj1 derivation_idempotent VariantB.useDestucturing (or_intror eq_refl)
           None (VArray abc) 100 2 out h n Hrun).
Defined.

(** C7. On the record path the prior output comes back untouched exactly
    when the setter and the fingerprint of the key set are those of the
    previous call; when either differs the reconciliation runs again, on the
    cached [Map], and its result is stored. A new record object with the same
    keys, in any order, and the same setter gets the prior output back. On
    the sequence path the prior output comes back exactly when the setter and
    the array object are those of the previous call. *)
Theorem memo_tracks_setter_and_fingerprint
    (derive : option hook -> value -> oid -> M (output * hook))
    (memoize : ObjectCache -> JsObject -> oid -> M (ObjectSetState * ObjectCache)) :
  (derive = VariantA.useDestucturing /\ memoize = VariantA.memoizeObject)
  \/ (derive = VariantB.useDestucturing /\ memoize = VariantB.memoizeObject) ->
  (forall (hk : hook) (s0 : oid) (f0 : Z),
      memo_deps hk = (s0, VNumber f0) ->
      forall (o : JsObject) (setState n : oid),
        (derive (Some hk) (VObject o) setState n = Ok (memo_value hk, hk) n
         <-> setState = s0 /\ hashStrings (keysOf o) = f0)
        /\ (setState <> s0 \/ hashStrings (keysOf o) <> f0 ->
            derive (Some hk) (VObject o) setState n
            = (do '(r, c) <- memoize (narrowRef (ref_current hk) isObjectCache ∅) o setState;
               ret (OutObject r,
                    Hook (CacheMap c) (setState, VNumber (hashStrings (keysOf o)))
                      (OutObject r))) n))
  /\ (forall (h : option hook) (o o' : JsObject) (setState n : oid)
             (out : output) (h' : hook) (n' : oid),
        Permutation (keysOf o) (keysOf o') ->
        derive h (VObject o) setState n = Ok (out, h') n' ->
        derive (Some h') (VObject o') setState n' = Ok (out, h') n')
  /\ (forall (hk : hook) (s0 : oid) (a0 : JsArray),
      memo_deps hk = (s0, VArray a0) ->
      forall (a : JsArray) (setState n : oid),
        derive (Some hk) (VArray a) setState n = Ok (memo_value hk, hk) n
        <-> setState = s0 /\ arr_id a = arr_id a0).
Proof.
  intros Hv. destruct (variant_cases derive memoize Hv) as (r & msg & -> & Hthrow & Hok).
  split; [ | split ].
  - intros hk s0 f0 Hdeps o s n. split.
    + rewrite (derive_untouched_iff r memoize msg Hthrow Hok hk (VObject o) s n eq_refl).
      simpl. rewrite negb_false_iff. now apply deps_equal_number.
    + intros Hdiff.
      assert (Hmiss : recomputes (Some hk) (s, VNumber (hashStrings (keysOf o))) = true).
      { simpl. apply negb_true_iff. apply not_true_is_false. intros Heq.
        apply (deps_equal_number _ _ _ _ _ Hdeps) in Heq. tauto. }
      exact (derive_object_rerun r memoize msg (Some hk) o s n Hmiss).
  - intros h o o' s n out h' n' Hp Hrun.
    exact (derive_same_keys r memoize msg Hthrow Hok h o o' s n out h' n' Hp Hrun).
  - intros hk s0 a0 Hdeps a s n.
    rewrite (derive_untouched_iff r memoize msg Hthrow Hok hk (VArray a) s n eq_refl).
    simpl. rewrite negb_false_iff. now apply deps_equal_array.
Qed.

Lemma memo_tracks_setter_and_fingerprint_witness :
  exists out h n,
    VariantB.useDestucturing None (VObject xy_record) 100 3 = Ok (out, h) n
    /\ memo_deps h = (100, VNumber (hashStrings ["x"; "y"]))
    /\ Permutation (keysOf xy_record) ["y"; "x"]
    /\ VariantB.useDestucturing (Some h)
         (VObject (Obj 9 [("y", VString "new"); ("x", VNull)])) 100 n
       = Ok (out, h) n
    /\ (VariantB.useDestucturing (Some h) (VObject x_record) 100 n
        = Ok (memo_value h, h) n
        <-> 100 = 100 /\ hashStrings (keysOf x_record) = hashStrings ["x"; "y"]).
Proof.
  pose proof (memo_tracks_setter_and_fingerprint
                VariantB.useDestucturing VariantB.memoizeObject
                (or_intror (conj eq_refl eq_refl))) as (Hrecord & Hfresh & _).
  do 3 eexists. split; [ vm_compute; reflexivity | ].
  split; [ reflexivity | ]. split; [ apply perm_swap | ]. split.
  - apply (Hfresh None xy_record (Obj 9 [("y", VString "new"); ("x", VNull)]) 100 3).
    + apply perm_swap.
    + vm_compute. reflexivity.
  - match goal with
    | |- VariantB.useDestucturing (Some ?hk) _ _ ?n = _ <-> _ =>
        exact (proj1 (Hrecord hk 100 (hashStrings ["x"; "y"]) eq_refl x_record 100 n))
    end.
Defined.

(** C8, as stated, fails: a record with an empty field identifier does not
    make the derivation raise when [useMemo] does not recompute. The key sets [{ff}]
    and [{"", ares}] have the same fingerprint, so that deriving over the
    second after the first, with the same setter, returns the prior output
    and [capitalize] is never called. *)
Lemma useDestucturing_empty_key_not_raised :
  exists out h n,
    VariantB.useDestucturing None (VObject ff_record) 100 2 = Ok (out, h) n
    /\ In "" (keysOf ares_record)
    /\ VariantB.useDestucturing (Some h) (VObject ares_record) 100 n = Ok (out, h) n
    /\ ~ (exists e,
            VariantB.useDestucturing (Some h) (VObject ares_record) 100 n = Throw e).
Proof.
  do 3 eexists. split; [ vm_compute; reflexivity | ].
  split; [ now left | ].
  split; [ vm_compute; reflexivity | ].
  intros [e He]. vm_compute in He. discriminate.
Qed.

(** C8, amended. A derivation raises exactly when the composite is neither
    an array nor a (non-null) object, or when, on the record path, the
    reconciliation runs (first derivation of the site, or a setter or
    key-set fingerprint other than the stored one) and some field identifier
    is the empty string. What it raises is always the usage error, with the
    message of the shape check or that of [capitalize]; the out-of-range read
    of the slot list that would raise a [TypeError] never happens. *)
Theorem useDestucturing_raises_iff
    (derive : option hook -> value -> oid -> M (output * hook)) (shape_message : string) :
  (derive = VariantA.useDestucturing /\ shape_message = VariantA.shape_message)
  \/ (derive = VariantB.useDestucturing /\ shape_message = VariantB.shape_message) ->
  forall (h : option hook) (state : value) (setState n : oid),
    ((exists e, derive h state setState n = Throw e)
     <-> (~ ((exists a, state = VArray a) \/ (exists o, state = VObject o))
          \/ exists o, state = VObject o
                       /\ recomputes h (setState, VNumber (hashStrings (keysOf o))) = true
                       /\ In "" (keysOf o)))
    /\ (forall e, derive h state setState n = Throw e ->
          e = UsageError shape_message \/ e = UsageError capitalize_message).
Proof.
  intros Hv h state s n.
  assert (Hshape : isObjectOrArray state = false
                   <-> ~ ((exists a, state = VArray a) \/ (exists o, state = VObject o))).
  { destruct state; simpl; split; try tauto; try discriminate;
      try (intros _ [ (a0 & H) | (o0 & H) ]; discriminate);
      intros H; exfalso; apply H; eauto. }
  rewrite <- Hshape.
  destruct Hv as [ [-> ->] | [-> ->] ].
  - exact (derive_throw_iff VariantA.replaceAtIndex VariantA.memoizeObject
             VariantA.shape_message VariantA_memoizeObject_throw
             VariantA_memoizeObject_run h state s n).
  - exact (derive_throw_iff VariantB.replaceAtIndex VariantB.memoizeObject
             VariantB.shape_message VariantB_memoizeObject_throw
             VariantB_memoizeObject_run h state s n).
Qed.

Lemma useDestucturing_raises_iff_witness :
  VariantB.useDestucturing None (VObject ares_record) 100 0
  = Throw (UsageError capitalize_message)
  /\ VariantA.useDestucturing None VNull 100 0
     = Throw (UsageError VariantA.shape_message).
Proof.
  split.
  - destruct (useDestucturing_raises_iff VariantB.useDestucturing VariantB.shape_message
                (or_intror (conj eq_refl eq_refl)) None (VObject ares_record) 100 0)
      as [Hiff Hkind].
    assert (Hraise : exists e,
               VariantB.useDestucturing None (VObject ares_record) 100 0 = Throw e).
    { apply Hiff. right. exists ares_record. split; [ reflexivity | ].
      split; [ reflexivity | now left ]. }
    destruct Hraise as (e & He). rewrite He.
    destruct (Hkind e He) as [ -> | -> ]; [ | reflexivity ].
    vm_compute in He. discriminate.
  - destruct (useDestucturing_raises_iff VariantA.useDestucturing VariantA.shape_message
                (or_introl (conj eq_refl eq_refl)) None VNull 100 0)
      as [Hiff Hkind].
    assert (Hraise : exists e, VariantA.useDestucturing None VNull 100 0 = Throw e).
    { apply Hiff. left. intros [ (a & H) | (o & H) ]; discriminate. }
    destruct Hraise as (e & He). rewrite He.
    destruct (Hkind e He) as [ -> | -> ]; [ reflexivity | ].
    vm_compute in He. discriminate.
Defined.

(** * Further properties of the code *)

(** ** The fingerprint *)

Lemma hashString_low_word (str : string) (seed : Z) :
  Int32.to_int32 (hashString str seed) = fst (hashString_words str seed).
Proof.
  pose proof (hashString_words_range str seed) as Hw.
  unfold hashString. destruct (hashString_words str seed) as [h1 h2]. simpl.
  destruct Hw as [R1 R2].
  rewrite Int32Facts.ushr_0.
  rewrite <- (Int32Facts.to_int32_small h1 R1) at 2.
  apply Int32Facts.to_int32_congr.
  replace (4294967296 * Int32.and 2097151 h2 + h1 mod 2 ^ 32)%Z
    with (h1 mod 2 ^ 32 + Int32.and 2097151 h2 * 2 ^ 32)%Z by lia.
  rewrite Z.mod_add by lia. apply Z.mod_mod. lia.
Qed.

Lemma xor_to_int32_r (a b : Z) : Int32.xor a (Int32.to_int32 b) = Int32.xor a b.
Proof.
  rewrite !Int32Facts.xor_wrap. apply Int32Facts.to_int32_congr.
  now rewrite !Int32Facts.lxor_mod, Int32Facts.to_int32_mod.
Qed.

Lemma fold_xor_low_word (keys : list string) :
  forall a,
    fold_left (fun a b => Int32.xor a b) (map (fun s => hashString s 0) keys) a
    = fold_left (fun a b => Int32.xor a b)
        (map (fun s => fst (hashString_words s 0)) keys) a.
Proof.
  induction keys as [ | k keys IH ]; intros a; simpl; [ reflexivity | ].
  rewrite <- hashString_low_word, xor_to_int32_r. apply IH.
Qed.

(** X1. The fingerprint of a key set reads only the low 32-bit word of each
    53-bit hash: [a ^ b] converts its operands with ToInt32, which drops the
    21 high bits that [hashString] takes from [h2]. *)
Theorem fingerprint_uses_low_word (keys : list string) :
  hashStrings keys
  = fold_left (fun a b => Int32.xor a b)
      (map (fun s => fst (hashString_words s 0)) keys) 0%Z.
Proof. apply fold_xor_low_word. Qed.

Lemma xor_0_l (a : Z) : Int32.xor 0 a = Int32.to_int32 a.
Proof. rewrite Int32Facts.xor_wrap. now rewrite Z.lxor_0_l. Qed.

Lemma xor_to_int32_l (a b : Z) : Int32.xor (Int32.to_int32 a) b = Int32.xor a b.
Proof. now rewrite Int32Facts.xor_comm, xor_to_int32_r, Int32Facts.xor_comm. Qed.

Lemma fold_xor_start (l : list Z) :
  forall a, (- 2 ^ 31 <= a < 2 ^ 31)%Z ->
            fold_left (fun a b => Int32.xor a b) l a
            = Int32.xor a (fold_left (fun a b => Int32.xor a b) l 0%Z).
Proof.
  induction l as [ | x l IH ]; intros a Ha; simpl.
  - now rewrite Int32Facts.xor_comm, xor_0_l, Int32Facts.to_int32_small.
  - rewrite (IH (Int32.xor a x)) by apply Int32Facts.to_int32_range.
    rewrite (IH (Int32.xor 0 x)) by apply Int32Facts.to_int32_range.
    rewrite xor_0_l, xor_to_int32_l. apply Int32Facts.xor_assoc.
Qed.

(** X2. The fingerprint of no key is [0], that of one key is the hash of the
    key as a signed 32-bit integer, and that of two lists put end to end is
    the [^] of their fingerprints. *)
Theorem fingerprint_of_union :
  hashStrings [] = 0%Z
  /\ (forall key : string, hashStrings [key] = Int32.to_int32 (hashString key 0))
  /\ (forall keys keys' : list string,
        hashStrings (keys ++ keys') = Int32.xor (hashStrings keys) (hashStrings keys')).
Proof.
  split; [ reflexivity | ]. split.
  - intros key. unfold hashStrings. simpl. apply xor_0_l.
  - intros keys keys'. unfold hashStrings. rewrite map_app, fold_left_app.
    apply fold_xor_start, fold_xor_range. lia.
Qed.

(** X3. [hashString] reads its seed through [^] only: two seeds that agree
    modulo [2^32] give the same hash of every string. *)
Theorem hashString_seed_wraps (str : string) (seed seed' : Z) :
  (seed mod 2 ^ 32 = seed' mod 2 ^ 32)%Z ->
  hashString str seed = hashString str seed'.
Proof.
  intros H. unfold hashString, hashString_words, Int32.xor.
  now rewrite (Int32Facts.to_int32_congr seed seed' H).
Qed.

Lemma hashString_seed_wraps_witness :
  (1 mod 2 ^ 32 = 4294967297 mod 2 ^ 32)%Z
  /\ hashString "revenue" 4294967297 = 8697026808958300%Z.
Proof.
  assert (H : (1 mod 2 ^ 32 = 4294967297 mod 2 ^ 32)%Z) by reflexivity.
  split; [ exact H | ].
  rewrite <- (hashString_seed_wraps "revenue" 1 4294967297 H).
  vm_compute. reflexivity.
Defined.

(** ** [append] *)

Lemma map_M_shift {T} (factory : nat -> M T) (offset k : nat) :
  forall start n,
    map_M (fun i => factory (offset + i)) (seq start k) n
    = map_M factory (seq (offset + start) k) n.
Proof.
  induction k as [ | k IH ]; intros start n; simpl; [ reflexivity | ].
  unfold bind. destruct (factory (offset + start) n) as [ y n1 | e ]; [ | reflexivity ].
  rewrite IH. now replace (offset + S start) with (S (offset + start)) by lia.
Qed.

Lemma map_M_length {A B} (f : A -> M B) (xs : list A) :
  forall n ys n', map_M f xs n = Ok ys n' -> length ys = length xs.
Proof.
  induction xs as [ | x xs IH ]; intros n ys n' H; simpl in H.
  - injection H as <- _. reflexivity.
  - unfold bind in H. destruct (f x n) as [ y n1 | e ]; [ | discriminate ].
    destruct (map_M f xs n1) as [ ys' n2 | e ] eqn:E; [ | discriminate ].
    injection H as <- _. simpl. f_equal. exact (IH _ _ _ E).
Qed.

(** X4. [append offset count factory] calls the factory on [offset],
    [offset + 1], ... in this order, [count] times; with a count below one it
    calls nothing and returns the empty list; and a list it returns has
    [count] elements. *)
Theorem append_calls_factory_in_order {T} (offset : nat) (count : Z)
    (factory : nat -> M T) (n : oid) :
  append offset count factory n = map_M factory (seq offset (Z.to_nat count)) n
  /\ ((count < 1)%Z -> append offset count factory n = Ok [] n)
  /\ (forall items n', append offset count factory n = Ok items n' ->
        length items = Z.to_nat count).
Proof.
  assert (E : append offset count factory n
              = map_M factory (seq offset (Z.to_nat count)) n).
  { unfold append. destruct (Z.ltb_spec count 1) as [Hlt | Hge].
    - replace (Z.to_nat count) with 0 by lia. reflexivity.
    - rewrite map_M_shift. now rewrite Nat.add_0_r. }
  split; [ exact E | ]. split.
  - intros Hlt. unfold append. destruct (Z.ltb_spec count 1); [ reflexivity | lia ].
  - intros items n' H. rewrite E in H. apply map_M_length in H.
    now rewrite length_seq in H.
Qed.

Lemma append_calls_factory_in_order_witness :
  append 5 (-3) (fun i => ret i) 0 = Ok [] 0.
Proof.
  apply (proj1 (proj2 (append_calls_factory_in_order 5 (-3) (fun i => ret i) 0))).
  lia.
Defined.

(** ** Accessor names and the record cache *)

Lemma get_set_method {V} (name name' : list Z) (v : V) (methods : list (list Z * V)) :
  get_method name (set_method name' v methods)
  = if decide (name' = name) then Some v else get_method name methods.
Proof.
  induction methods as [ | [k w] rest IH ]; simpl.
  - destruct (decide (name' = name)); reflexivity.
  - destruct (decide (k = name')) as [-> | Hne]; simpl.
    + destruct (decide (name' = name)); reflexivity.
    + rewrite IH. destruct (decide (k = name)) as [-> | Hk].
      * destruct (decide (name' = name)); [ congruence | reflexivity ].
      * reflexivity.
Qed.

Lemma set_method_names {V} (name : list Z) (v : V) (methods : list (list Z * V)) :
  NoDup (map fst methods) ->
  NoDup (map fst (set_method name v methods))
  /\ forall k, In k (map fst (set_method name v methods)) <-> k = name \/ In k (map fst methods).
Proof.
  induction methods as [ | [k w] rest IH ]; simpl; intros Hnd.
  - split; [ apply NoDup_singleton | intros k; intuition congruence ].
  - apply NoDup_cons in Hnd. destruct Hnd as [Hk Hnd].
    destruct (decide (k = name)) as [-> | Hne]; simpl.
    + split; [ now apply NoDup_cons | intros k; intuition congruence ].
    + destruct (IH Hnd) as [IH1 IH2]. split.
      * apply NoDup_cons. split; [ | exact IH1 ].
        rewrite list_elem_of_In, IH2. rewrite list_elem_of_In in Hk.
        intros [ -> | H ]; tauto.
      * intros k'. rewrite IH2. intuition congruence.
Qed.

Lemma capitalize_accessor (key : string) (n : oid) :
  key <> "" ->
  exists name, capitalize key n = Ok name n /\ units "set" ++ name = accessor_name key.
Proof. destruct key; [ congruence | ]. intros _. eexists. split; reflexivity. Qed.

Lemma last_named_None (name : list Z) (keys : list string) :
  last_named name keys = None ->
  forall k, In k keys -> accessor_name k <> name.
Proof.
  induction keys as [ | key rest IH ]; cbn [last_named]; [ intros _ k [] | ].
  destruct (last_named name rest); [ intros H; discriminate H | ].
  destruct (decide (accessor_name key = name)); [ intros H; discriminate H | ].
  intros _ k [ <- | Hk ]; [ assumption | now apply IH ].
Qed.

Lemma last_named_Some (name : list Z) (keys : list string) (k : string) :
  last_named name keys = Some k -> In k keys /\ accessor_name k = name.
Proof.
  induction keys as [ | key rest IH ]; cbn [last_named]; [ discriminate | ].
  destruct (last_named name rest) as [ k' | ].
  - intros [= ->]. destruct (IH eq_refl) as [H1 H2]. split; [ now right | exact H2 ].
  - destruct (decide (accessor_name key = name)); [ | discriminate ].
    intros [= ->]. split; [ now left | assumption ].
Qed.

Lemma last_named_is_Some (name : list Z) (keys : list string) (k : string) :
  In k keys -> accessor_name k = name -> is_Some (last_named name keys).
Proof.
  intros Hk Hn. destruct (last_named name keys) eqn:E; [ eauto | ].
  exfalso. exact (last_named_None _ _ E k Hk Hn).
Qed.

Lemma last_named_unique (keys : list string) (k : string) :
  In k keys ->
  (forall k', In k' keys -> accessor_name k' = accessor_name k -> k' = k) ->
  last_named (accessor_name k) keys = Some k.
Proof.
  intros Hk Hu. destruct (last_named_is_Some _ _ _ Hk eq_refl) as [k' Hk'].
  rewrite Hk'. f_equal. destruct (last_named_Some _ _ _ Hk'). now apply Hu.
Qed.

Lemma VariantB_body_exact oldMap setState key newMap setMethods n :
  key <> "" ->
  exists val n',
    VariantB.memoizeObject_body oldMap setState key (newMap, setMethods) n
    = Ok (<[key := val]> newMap,
          ObjectOut (set_id setMethods)
            (set_method (accessor_name key) val (set_methods setMethods))) n'.
Proof.
  intros Hkey.
  destruct (capitalize_accessor key n Hkey) as (name & Hname & Hacc).
  destruct (capitalize_accessor key (S n) Hkey) as (name' & Hname' & Hacc').
  unfold VariantB.memoizeObject_body.
  destruct (oldMap !! key) as [ m | ].
  - rewrite bind_ret. cbv zeta. rewrite (bind_Ok _ _ _ _ _ Hname), Hacc.
    do 2 eexists. reflexivity.
  - erewrite bind_Ok; [ | reflexivity ]. cbv zeta.
    rewrite (bind_Ok _ _ _ _ _ Hname'), Hacc'. do 2 eexists. reflexivity.
Qed.

Lemma for_of_Ok_no_empty_B oldMap setState keys acc n acc' n' :
  for_of keys acc (VariantB.memoizeObject_body oldMap setState) n = Ok acc' n' ->
  ~ In "" keys.
Proof.
  intros H Hin. rewrite (VariantB_loop_throw oldMap setState keys Hin acc n) in H.
  discriminate.
Qed.

Lemma VariantB_loop_methods oldMap setState keys :
  forall newMap setMethods n newMap' setMethods' n',
    for_of keys (newMap, setMethods) (VariantB.memoizeObject_body oldMap setState) n
    = Ok (newMap', setMethods') n' ->
    set_id setMethods' = set_id setMethods
    /\ (NoDup (map fst (set_methods setMethods)) ->
        NoDup (map fst (set_methods setMethods')))
    /\ forall name,
         get_method name (set_methods setMethods')
         = match last_named name keys with
           | Some k => newMap' !! k
           | None => get_method name (set_methods setMethods)
           end.
Proof.
  induction keys as [ | key rest IH ]; intros newMap setMethods n newMap' setMethods' n' H.
  - simpl in H. injection H as <- <- <-. repeat split; auto.
  - pose proof (for_of_Ok_no_empty_B _ _ _ _ _ _ _ H) as Hnot.
    assert (Hne : key <> "") by (intros ->; apply Hnot; now left).
    assert (Hrest : ~ In "" rest) by (intros Hin; apply Hnot; now right).
    destruct (VariantB_body_exact oldMap setState key newMap setMethods n Hne)
      as (val & n1 & Hbody).
    simpl in H. rewrite (bind_Ok _ _ _ _ _ Hbody) in H.
    destruct (IH _ _ _ _ _ _ H) as (Hid & Hnd & Hget). simpl in Hid, Hnd, Hget.
    destruct (VariantB_loop_run oldMap setState rest Hrest (<[key := val]> newMap)
                (ObjectOut (set_id setMethods)
                   (set_method (accessor_name key) val (set_methods setMethods))) n1)
      as (newMap2 & methods2 & n2 & Hrun & _ & Hout & _).
    rewrite Hrun in H. injection H as <- _ _.
    split; [ exact Hid | ]. split.
    + intros Hnd0. apply Hnd. now apply set_method_names.
    + intros name. rewrite Hget. cbn [last_named set_methods].
      destruct (last_named name rest) as [ k | ] eqn:E; [ reflexivity | ].
      rewrite get_set_method.
      destruct (decide (accessor_name key = name)) as [Hn | Hn]; [ | reflexivity ].
      rewrite Hout.
      * now rewrite lookup_insert_eq.
      * intros Hin. exact (last_named_None _ _ E key Hin Hn).
Qed.

Lemma VariantA_body_exact setState key (map : ObjectCache) setMethods n :
  key <> "" ->
  exists map' val n',
    VariantA.memoizeObject_body setState key (map, setMethods) n
    = Ok (map',
          ObjectOut (set_id setMethods)
            (set_method (accessor_name key) val (set_methods setMethods))) n'
    /\ map' !! key = Some val
    /\ (forall k, k <> key -> map' !! k = map !! k)
    /\ (forall m, map !! key = Some m -> map' = map)
    /\ n <= n'.
Proof.
  intros Hkey.
  destruct (capitalize_accessor key n Hkey) as (name & Hname & Hacc).
  destruct (capitalize_accessor key (S n) Hkey) as (name' & Hname' & Hacc').
  unfold VariantA.memoizeObject_body.
  destruct (map !! key) as [ m | ] eqn:E.
  - rewrite bind_ret. rewrite (bind_Ok _ _ _ _ _ Hname), Hacc.
    do 3 eexists. split; [ reflexivity | ]. repeat split; auto.
  - erewrite bind_Ok; [ | reflexivity ]. cbv beta iota.
    rewrite (bind_Ok _ _ _ _ _ Hname'), Hacc'.
    do 3 eexists. split; [ reflexivity | ]. split; [ apply lookup_insert_eq | ].
    split; [ intros k Hk; now apply lookup_insert_ne | ]. split; [ discriminate | lia ].
Qed.

Lemma for_of_Ok_no_empty_A setState keys acc n acc' n' :
  for_of keys acc (VariantA.memoizeObject_body setState) n = Ok acc' n' ->
  ~ In "" keys.
Proof.
  intros H Hin. rewrite (VariantA_loop_throw setState keys Hin acc n) in H.
  discriminate.
Qed.

Lemma VariantA_loop_methods setState keys :
  forall (m0 : ObjectCache) setMethods n (m1 : ObjectCache) setMethods' n',
    for_of keys (m0, setMethods) (VariantA.memoizeObject_body setState) n
    = Ok (m1, setMethods') n' ->
    set_id setMethods' = set_id setMethods
    /\ (NoDup (map fst (set_methods setMethods)) ->
        NoDup (map fst (set_methods setMethods')))
    /\ (forall k, is_Some (m1 !! k) <-> is_Some (m0 !! k) \/ In k keys)
    /\ (forall k m, m0 !! k = Some m -> m1 !! k = Some m)
    /\ forall name,
         get_method name (set_methods setMethods')
         = match last_named name keys with
           | Some k => m1 !! k
           | None => get_method name (set_methods setMethods)
           end.
Proof.
  induction keys as [ | key rest IH ]; intros map0 setMethods n map' setMethods' n' H.
  - simpl in H. injection H as <- <- <-. split; [ reflexivity | ]. split; [ auto | ].
    split; [ intros k; simpl; tauto | ]. split; [ auto | reflexivity ].
  - pose proof (for_of_Ok_no_empty_A _ _ _ _ _ _ H) as Hnot.
    assert (Hne : key <> "") by (intros ->; apply Hnot; now left).
    destruct (VariantA_body_exact setState key map0 setMethods n Hne)
      as (map1 & val & n1 & Hbody & Hkey & Hother & _).
    simpl in H. rewrite (bind_Ok _ _ _ _ _ Hbody) in H.
    destruct (IH _ _ _ _ _ _ H) as (Hid & Hnd & Hdom & Hkeep & Hget).
    simpl in Hid, Hnd, Hget.
    assert (Hkeep1 : forall k m, map0 !! k = Some m -> map1 !! k = Some m).
    { intros k m Hk. destruct (String.eqb_spec k key) as [-> | Hk'].
      - destruct (map1 !! key) eqn:E1; [ | discriminate ].
        destruct (VariantA_body_exact setState key map0 setMethods n Hne)
          as (map1' & val' & n1' & Hbody' & _ & _ & Hsame & _).
        rewrite Hbody in Hbody'. injection Hbody' as -> _ _.
        rewrite (Hsame m Hk) in E1. congruence.
      - now rewrite Hother. }
    split; [ exact Hid | ]. split; [ | split; [ | split ] ].
    + intros Hnd0. apply Hnd. now apply set_method_names.
    + intros k. rewrite Hdom. simpl.
      destruct (String.eqb_spec k key) as [-> | Hk'].
      * rewrite Hkey. split; [ intros _; right; now left | eauto ].
      * rewrite Hother by assumption. split; [ tauto | ].
        intros [ ? | [ ? | ? ] ]; [ tauto | congruence | tauto ].
    + intros k m Hk. apply Hkeep, Hkeep1, Hk.
    + intros name. rewrite Hget. cbn [last_named set_methods].
      destruct (last_named name rest) as [ k | ] eqn:E; [ reflexivity | ].
      rewrite get_set_method.
      destruct (decide (accessor_name key = name)) as [Hn | Hn]; [ | reflexivity ].
      symmetry. now apply Hkeep.
Qed.

Lemma VariantB_memoizeObject_Ok oldMap state setState n out newMap n' :
  VariantB.memoizeObject oldMap state setState n = Ok (out, newMap) n' ->
  ~ In "" (keysOf state).
Proof.
  intros H Hin. rewrite (VariantB_memoizeObject_throw _ _ _ _ Hin) in H. discriminate.
Qed.

Lemma VariantA_memoizeObject_Ok cache state setState n out cache' n' :
  VariantA.memoizeObject cache state setState n = Ok (out, cache') n' ->
  ~ In "" (keysOf state).
Proof.
  intros H Hin. rewrite (VariantA_memoizeObject_throw _ _ _ _ Hin) in H. discriminate.
Qed.

(** X5. [memoizeObject] of [src/unnamed/part_000], on a record without an
    empty key: the [Map] it stores has an entry for exactly the keys of the
    record; a key that was cached keeps its mutator; a key that was not gets
    the mutator [createObjectPropertySetState] returns for the current setter
    and that key, a function object allocated during the call. *)
Theorem part000_cache_is_exact (oldMap : ObjectCache) (state : JsObject)
    (setState n : oid) :
  ~ In "" (keysOf state) ->
  exists methods newMap n',
    VariantB.memoizeObject oldMap state setState n = Ok (ObjectOut n methods, newMap) n'
    /\ n < n'
    /\ (forall k, is_Some (newMap !! k) <-> In k (keysOf state))
    /\ (forall k m, In k (keysOf state) -> oldMap !! k = Some m -> newMap !! k = Some m)
    /\ (forall k, In k (keysOf state) -> oldMap !! k = None ->
          exists m id, newMap !! k = Some m /\ n < id < n' /\ fn_id m = id
                       /\ VariantB.createObjectPropertySetState setState k id = Ok m (S id)).
Proof.
  intros Hnot.
  destruct (VariantB_memoizeObject_exact oldMap state setState n Hnot)
    as (methods & newMap & n' & Hrun & Hlt & Hdom & Hold & Hnew).
  exists methods, newMap, n'. repeat split; try assumption; try apply Hdom.
  intros k Hk Hnone. destruct (Hnew k Hk Hnone) as (m & id & Hm & Hid & Hcreate).
  exists m, id. repeat split; try assumption; try lia.
  unfold VariantB.createObjectPropertySetState in Hcreate.
  rewrite bind_fresh in Hcreate. injection Hcreate as <-. reflexivity.
Qed.

Lemma part000_cache_is_exact_witness :
  exists methods newMap n',
    VariantB.memoizeObject ∅ xy_record 100 3 = Ok (ObjectOut 3 methods, newMap) n'
    /\ (is_Some (newMap !! "y") <-> In "y" (keysOf xy_record)).
Proof.
  assert (Hnot : ~ In "" (keysOf xy_record)).
  { intros [ H | [ H | [] ] ]; discriminate. }
  destruct (part000_cache_is_exact ∅ xy_record 100 3 Hnot)
    as (methods & newMap & n' & Hrun & _ & Hdom & _).
  exists methods, newMap, n'. split; [ exact Hrun | apply Hdom ].
Defined.

(** X6. [memoizeObject] of [src/use-destructuring.ts], on a record without
    an empty key: the keys of the cache after the call are those it had
    before and those of the record, and every entry it had is unchanged. *)
Theorem legacy_cache_only_grows (cache : ObjectCache) (state : JsObject)
    (setState n : oid) :
  ~ In "" (keysOf state) ->
  exists out cache' n',
    VariantA.memoizeObject cache state setState n = Ok (out, cache') n'
    /\ (forall k, is_Some (cache' !! k) <-> is_Some (cache !! k) \/ In k (keysOf state))
    /\ (forall k m, cache !! k = Some m -> cache' !! k = Some m).
Proof.
  intros Hnot.
  destruct (VariantA_memoizeObject_keeps cache state setState n Hnot)
    as (methods & cache' & n' & Hrun & _).
  exists (ObjectOut n methods), cache', n'. split; [ exact Hrun | ].
  unfold VariantA.memoizeObject in Hrun. cbv zeta in Hrun. rewrite bind_fresh in Hrun.
  unfold bind in Hrun.
  destruct (for_of _ _ _ _) as [ [m1 sm] n1 | e ] eqn:E; [ | discriminate ].
  injection Hrun as _ <- _.
  destruct (VariantA_loop_methods _ _ _ _ _ _ _ _ E) as (_ & _ & Hdom & Hkeep & _).
  split; assumption.
Qed.

Lemma legacy_cache_only_grows_witness :
  exists out cache' n',
    VariantA.memoizeObject {[ "y" := Closure 0 (fun _ => Dispatch 0 (Literal x_record)) ]}
      x_record 100 3 = Ok (out, cache') n'
    /\ is_Some (cache' !! "y") /\ is_Some (cache' !! "x").
Proof.
  assert (Hnot : ~ In "" (keysOf x_record)).
  { intros [ H | [] ]; discriminate. }
  destruct (legacy_cache_only_grows
              {[ "y" := Closure 0 (fun _ => Dispatch 0 (Literal x_record)) ]}
              x_record 100 3 Hnot)
    as (out & cache' & n' & Hrun & Hdom & _).
  exists out, cache', n'. split; [ exact Hrun | ]. split; apply Hdom.
  - left. rewrite lookup_singleton_eq. eauto.
  - right. now left.
Defined.

Lemma memoizeObject_output
    (memoize : ObjectCache -> JsObject -> oid -> M (ObjectSetState * ObjectCache))
    (cache : ObjectCache) (state : JsObject) (setState n : oid)
    (out : ObjectSetState) (cache' : ObjectCache) (n' : oid) :
  memoize = VariantA.memoizeObject \/ memoize = VariantB.memoizeObject ->
  memoize cache state setState n = Ok (out, cache') n' ->
  set_id out = n
  /\ NoDup (map fst (set_methods out))
  /\ (forall k, In k (keysOf state) -> is_Some (cache' !! k))
  /\ forall name,
       get_method name (set_methods out)
       = match last_named name (keysOf state) with
         | Some k => cache' !! k
         | None => None
         end.
Proof.
  intros Hv Hrun. destruct Hv as [ -> | -> ].
  - pose proof (VariantA_memoizeObject_Ok _ _ _ _ _ _ _ Hrun) as Hnot.
    unfold VariantA.memoizeObject in Hrun. cbv zeta in Hrun.
    rewrite bind_fresh in Hrun. unfold bind in Hrun.
    destruct (for_of _ _ _ _) as [ [m1 sm] n1 | e ] eqn:E; [ | discriminate ].
    injection Hrun as <- <- <-.
    destruct (VariantA_loop_methods _ _ _ _ _ _ _ _ E) as (Hid & Hnd & Hdom & _ & Hget).
    split; [ exact Hid | ]. split; [ apply Hnd; constructor | ].
    split; [ intros k Hk; apply Hdom; now right | exact Hget ].
  - pose proof (VariantB_memoizeObject_Ok _ _ _ _ _ _ _ Hrun) as Hnot.
    destruct (VariantB_memoizeObject_exact cache state setState n Hnot)
      as (ms & c2 & n2 & Hrun2 & _ & Hdom & _).
    rewrite Hrun in Hrun2. injection Hrun2 as -> -> ->.
    unfold VariantB.memoizeObject in Hrun. cbv zeta in Hrun.
    rewrite bind_fresh in Hrun. unfold bind in Hrun.
    destruct (for_of _ _ _ _) as [ [m1 sm] n1 | e ] eqn:E; [ | discriminate ].
    injection Hrun as Hsm <- <-.
    destruct (VariantB_loop_methods _ _ _ _ _ _ _ _ _ E) as (Hid & Hnd & Hget).
    rewrite Hsm in Hid, Hnd, Hget.
    split; [ exact Hid | ]. split; [ apply Hnd; constructor | ].
    split; [ intros k Hk; now apply Hdom | exact Hget ].
Qed.

(** X7. The output of a record reconciliation, in either file: it is the
    object allocated first by the call; its accessor names are pairwise
    distinct; under a name it offers the cached mutator of the last key of
    the record with that accessor name, and nothing under a name that no key
    has. So every key has its accessor, and the accessor of a key holds the
    mutator of that very key when no other key shares the name; of two keys
    such as [foo] and [Foo], the later one takes [setFoo]. *)
Theorem accessor_names_of_output
    (memoize : ObjectCache -> JsObject -> oid -> M (ObjectSetState * ObjectCache))
    (cache : ObjectCache) (state : JsObject) (setState n : oid)
    (out : ObjectSetState) (cache' : ObjectCache) (n' : oid) :
  memoize = VariantA.memoizeObject \/ memoize = VariantB.memoizeObject ->
  memoize cache state setState n = Ok (out, cache') n' ->
  set_id out = n
  /\ NoDup (map fst (set_methods out))
  /\ (forall name,
        get_method name (set_methods out)
        = match last_named name (keysOf state) with
          | Some k => cache' !! k
          | None => None
          end)
  /\ (forall k, In k (keysOf state) ->
        exists m, get_method (accessor_name k) (set_methods out) = Some m)
  /\ (forall k, In k (keysOf state) ->
        (forall k', In k' (keysOf state) ->
                    accessor_name k' = accessor_name k -> k' = k) ->
        get_method (accessor_name k) (set_methods out) = cache' !! k).
Proof.
  intros Hv Hrun.
  destruct (memoizeObject_output memoize cache state setState n out cache' n' Hv Hrun)
    as (Hid & Hnd & Hdom & Hget).
  split; [ exact Hid | ]. split; [ exact Hnd | ]. split; [ exact Hget | ]. split.
  - intros k Hk. rewrite Hget.
    destruct (last_named_is_Some _ _ _ Hk eq_refl) as [k' Hk']. rewrite Hk'.
    destruct (last_named_Some _ _ _ Hk') as [Hin _].
    destruct (Hdom k' Hin) as [m Hm]. eauto.
  - intros k Hk Hu. rewrite Hget. now rewrite (last_named_unique _ _ Hk Hu).
Qed.

Lemma accessor_names_of_output_witness :
  exists out cache' n',
    VariantB.memoizeObject ∅ foo_Foo_record 100 3 = Ok (out, cache') n'
    /\ last_named (units "setFoo") (keysOf foo_Foo_record) = Some "Foo"
    /\ get_method (units "setFoo") (set_methods out)
       = match last_named (units "setFoo") (keysOf foo_Foo_record) with
         | Some k => cache' !! k
         | None => None
         end.
Proof.
  assert (Hrun : exists out cache' n',
             VariantB.memoizeObject ∅ foo_Foo_record 100 3 = Ok (out, cache') n').
  { do 3 eexists. vm_compute. reflexivity. }
  destruct Hrun as (out & cache' & n' & Hrun).
  exists out, cache', n'. split; [ exact Hrun | ]. split; [ reflexivity | ].
  destruct (accessor_names_of_output VariantB.memoizeObject ∅ foo_Foo_record
              100 3 out cache' n' (or_intror eq_refl) Hrun) as (_ & _ & Hget & _).
  exact (Hget (units "setFoo")).
Defined.

(** Two keys beyond ASCII that share an accessor name: [e] with acute accent
    (U+00E9) and its capital (U+00C9), each followed by [a]. *)
Example accessor_name_latin1 :
  accessor_name (String "233"%char "a") = units "set" ++ [201; 97]%Z
  /\ accessor_name (String "201"%char "a") = units "set" ++ [201; 97]%Z
  /\ last_named (units "set" ++ [201; 97]%Z) [String "233"%char "a"; String "201"%char "a"]
     = Some (String "201"%char "a").
Proof. repeat split. Qed.

(** X8. In [src/unnamed/part_000] a key that leaves the record and comes
    back does not get its former mutator back: the reconciliation over the
    record without the key stores no entry for it, and the next one over a
    record with the key synthesizes a mutator, a function object allocated
    during that call and over its setter. *)
Theorem readded_key_gets_new_mutator
    (c1 : ObjectCache) (o1 o2 : JsObject) (s1 s2 n1 n3 : oid)
    (out1 out2 : ObjectSetState) (c2 c3 : ObjectCache) (n2 n4 : oid) (key : string) :
  VariantB.memoizeObject c1 o1 s1 n1 = Ok (out1, c2) n2 ->
  ~ In key (keysOf o1) ->
  VariantB.memoizeObject c2 o2 s2 n3 = Ok (out2, c3) n4 ->
  In key (keysOf o2) ->
  c2 !! key = None
  /\ exists m, c3 !! key = Some m
               /\ n3 < fn_id m < n4
               /\ VariantB.createObjectPropertySetState s2 key (fn_id m) = Ok m (S (fn_id m))
               /\ forall m0, c1 !! key = Some m0 -> fn_id m0 < n3 -> m <> m0.
Proof.
  intros H1 Hout H2 Hin.
  pose proof (VariantB_memoizeObject_Ok _ _ _ _ _ _ _ H1) as Hnot1.
  pose proof (VariantB_memoizeObject_Ok _ _ _ _ _ _ _ H2) as Hnot2.
  destruct (VariantB_memoizeObject_exact c1 o1 s1 n1 Hnot1)
    as (ms1 & c2' & n2' & Hrun1 & _ & Hdom1 & _).
  rewrite H1 in Hrun1. injection Hrun1 as _ <- _.
  assert (Hnone : c2 !! key = None).
  { destruct (c2 !! key) eqn:E; [ | reflexivity ].
    exfalso. apply Hout, Hdom1. rewrite E. eauto. }
  split; [ exact Hnone | ].
  destruct (VariantB_memoizeObject_exact c2 o2 s2 n3 Hnot2)
    as (ms2 & c3' & n4' & Hrun2 & _ & _ & _ & Hnew).
  rewrite H2 in Hrun2. injection Hrun2 as _ <- <-.
  destruct (Hnew key Hin Hnone) as (m & id & Hm & Hid & Hcreate).
  assert (Hfn : fn_id m = id).
  { unfold VariantB.createObjectPropertySetState in Hcreate.
    rewrite bind_fresh in Hcreate. injection Hcreate as <-. reflexivity. }
  exists m. rewrite Hfn. split; [ exact Hm | ]. split; [ exact Hid | ].
  split; [ exact Hcreate | ].
  intros m0 _ Hlt ->. lia.
Qed.

Lemma readded_key_gets_new_mutator_witness :
  exists out1 c2 n2 out2 c3 n4,
    VariantB.memoizeObject {[ "y" := Closure 0 (fun _ => Dispatch 0 (Literal x_record)) ]}
      x_record 100 3 = Ok (out1, c2) n2
    /\ VariantB.memoizeObject c2 xy_record 100 n2 = Ok (out2, c3) n4
    /\ c2 !! "y" = None
    /\ exists m, c3 !! "y" = Some m /\ n2 < fn_id m < n4.
Proof.
  assert (Hx : ~ In "" (keysOf x_record)) by (intros [ H | [] ]; discriminate).
  assert (Hxy : ~ In "" (keysOf xy_record)) by (intros [ H | [ H | [] ] ]; discriminate).
  destruct (VariantB_memoizeObject_exact
              {[ "y" := Closure 0 (fun _ => Dispatch 0 (Literal x_record)) ]}
              x_record 100 3 Hx) as (ms1 & c2 & n2 & H1 & _).
  destruct (VariantB_memoizeObject_exact c2 xy_record 100 n2 Hxy)
    as (ms2 & c3 & n4 & H2 & _).
  exists (ObjectOut 3 ms1), c2, n2, (ObjectOut n2 ms2), c3, n4.
  split; [ exact H1 | ]. split; [ exact H2 | ].
  destruct (readded_key_gets_new_mutator _ x_record xy_record 100 100 3 n2
              (ObjectOut 3 ms1) (ObjectOut n2 ms2) c2 c3 n2 n4 "y" H1)
    as (Hnone & m & Hm & Hid & _); [ | exact H2 | | ].
  - intros [ H | [] ]; discriminate.
  - right. now left.
  - split; [ exact Hnone | ]. exists m. split; [ exact Hm | exact Hid ].
Defined.

(** ** What the transforms do to the container *)

Lemma same_value_zero_refl (v : value) : same_value_zero v v = true.
Proof.
  destruct v; try reflexivity; simpl.
  - apply Bool.eqb_reflx.
  - apply Z.eqb_refl.
  - apply String.eqb_refl.
  - apply Nat.eqb_refl.
  - apply Nat.eqb_refl.
  - apply Nat.eqb_refl.
Qed.

Lemma strict_eq_same_value_zero (a b : value) :
  strict_eq a b = true -> same_value_zero a b = true.
Proof. destruct a, b; simpl; auto. Qed.

Lemma array_transform_reads
    (create : oid -> nat -> M ArrayMutator) (setArray : oid) (p : nat) (id : oid)
    (m : ArrayMutator) (act : SetStateAction value) (old : JsArray)
    (n : oid) (cand : value) (n1 : oid) :
  create = VariantA.createArrayElementSetState
  \/ create = VariantB.createArrayElementSetState ->
  create setArray p id = Ok m (S id) ->
  evaluateSetStateAction act (array_get old p) n = Ok cand n1 ->
  exists new n2,
    commit (fn_call m act) old n = Ok new n2
    /\ n1 <= n2 <= S n1
    /\ (array_get new p = cand
        \/ (new = old /\ strict_eq (array_get old p) cand = true))
    /\ same_value_zero (array_get new p) cand = true
    /\ (forall j, j <> p -> array_get new j = array_get old j)
    /\ (p < array_length old -> array_length new = array_length old)
    /\ (new = old \/ arr_id new = n1).
Proof.
  intros Hv Hm Heval.
  destruct Hv as [ -> | -> ].
  - destruct (proj1 VariantA_mutator_always_copies setArray p id) as (m' & Hm' & Hcall).
    rewrite Hm in Hm'. injection Hm' as <-.
    destruct (Hcall act) as (t & Ht & Hrun).
    destruct (Hrun old n cand n1 Heval) as (new & Hnew & Hid & Hp & Hj & Hlen).
    exists new, (S n1). unfold commit. rewrite Ht. simpl.
    split; [ exact Hnew | ]. split; [ lia | ]. split; [ now left | ].
    split; [ rewrite Hp; apply same_value_zero_refl | ].
    split; [ exact Hj | split; [ | now right ] ].
    intros Hlt. rewrite Hlen. lia.
  - destruct (strict_eq (array_get old p) cand) eqn:E.
    + destruct (proj1 VariantB_mutator_short_circuit setArray p id) as (m' & Hm' & Hcall).
      rewrite Hm in Hm'. injection Hm' as <-.
      destruct (Hcall act) as (t & Ht & Hrun).
      exists old, n1. unfold commit. rewrite Ht. simpl.
      split; [ exact (Hrun old n cand n1 Heval E) | ]. split; [ lia | ].
      split; [ right; now split | ].
      split; [ now apply strict_eq_same_value_zero | ]. split; [ reflexivity | ].
      split; [ reflexivity | now left ].
    + pose proof (VariantB_replaceAtIndex_copy old p cand n1 E)
        as (new & Hnew & Hid & Hp & Hj & Hlen).
      exists new, (S n1). split.
      * unfold VariantB.createArrayElementSetState, createArrayElementSetState in Hm.
        rewrite bind_fresh in Hm. injection Hm as <-.
        unfold commit. simpl. unfold bind. rewrite Heval. exact Hnew.
      * split; [ lia | ]. split; [ now left | ].
        split; [ rewrite Hp; apply same_value_zero_refl | ].
        split; [ exact Hj | ]. split; [ | now right ]. intros Hlt. rewrite Hlen. lia.
Qed.

(** X9. Two element updates with literal values (values that are not
    functions: a function is taken as an updater) committed one after the
    other, each on the container the previous one returned, as the host does
    with queued updater functions. By [SameValueZero], the result holds the
    second value at the second position and, when the positions differ, the
    first value at the first position; it holds the old elements elsewhere.
    [SameValueZero] and not [Object.is]: [src/unnamed/part_000] keeps the old
    container, hence [+0], when the value is [-0] and the element [+0]. Both
    files. *)
Theorem queued_element_updates_compose
    (create : oid -> nat -> M ArrayMutator)
    (sp sq : oid) (p q : nat) (idp idq : oid) (mp mq : ArrayMutator)
    (v w : value) (old : JsArray) (n : oid) :
  create = VariantA.createArrayElementSetState
  \/ create = VariantB.createArrayElementSetState ->
  create sp p idp = Ok mp (S idp) ->
  create sq q idq = Ok mq (S idq) ->
  typeof v <> "function" ->
  typeof w <> "function" ->
  exists a1 n1 a2 n2,
    commit (fn_call mp (Literal v)) old n = Ok a1 n1
    /\ commit (fn_call mq (Literal w)) a1 n1 = Ok a2 n2
    /\ same_value_zero (array_get a2 q) w = true
    /\ (p <> q -> same_value_zero (array_get a2 p) v = true)
    /\ (forall j, j <> p -> j <> q -> array_get a2 j = array_get old j).
Proof.
  intros Hv Hp Hq _ _.
  destruct (array_transform_reads create sp p idp mp (Literal v) old n v n Hv Hp eq_refl)
    as (a1 & n1 & H1 & _ & _ & H1p & H1j & _).
  destruct (array_transform_reads create sq q idq mq (Literal w) a1 n1 w n1 Hv Hq eq_refl)
    as (a2 & n2 & H2 & _ & _ & H2q & H2j & _).
  exists a1, n1, a2, n2. split; [ exact H1 | ]. split; [ exact H2 | ].
  split; [ exact H2q | ]. split.
  - intros Hne. now rewrite H2j by exact Hne.
  - intros j Hjp Hjq. now rewrite H2j, H1j.
Qed.

Lemma queued_element_updates_compose_witness :
  exists mp mq a1 n1 a2 n2,
    VariantB.createArrayElementSetState 100 0 0 = Ok mp 1
    /\ VariantB.createArrayElementSetState 100 2 1 = Ok mq 2
    /\ commit (fn_call mp (Literal (VString "x"))) abc 5 = Ok a1 n1
    /\ commit (fn_call mq (Literal (VString "z"))) a1 n1 = Ok a2 n2
    /\ same_value_zero (array_get a2 2) (VString "z") = true
    /\ array_get a2 1 = array_get abc 1.
Proof.
  assert (Hp : exists mp, VariantB.createArrayElementSetState 100 0 0 = Ok mp 1)
    by (eexists; reflexivity).
  assert (Hq : exists mq, VariantB.createArrayElementSetState 100 2 1 = Ok mq 2)
    by (eexists; reflexivity).
  destruct Hp as (mp & Hp). destruct Hq as (mq & Hq).
  destruct (queued_element_updates_compose VariantB.createArrayElementSetState
              100 100 0 2 0 1 mp mq (VString "x") (VString "z") abc 5
              (or_intror eq_refl) Hp Hq)
    as (a1 & n1 & a2 & n2 & H1 & H2 & Hz & _ & Hj); [ discriminate | discriminate | ].
  exists mp, mq, a1, n1, a2, n2.
  split; [ exact Hp | ]. split; [ exact Hq | ]. split; [ exact H1 | ].
  split; [ exact H2 | ]. split; [ exact Hz | ]. apply Hj; lia.
Defined.

(** The case that tells [SameValueZero] from [Object.is]: writing [-0] over
    [+0]. [src/unnamed/part_000] returns the array it was given, which holds
    [+0]; [src/use-destructuring.ts] returns a copy that holds [-0]. *)
Example write_negative_zero :
  commit_element_literal VariantB.createArrayElementSetState 0 VNegZero
    (Arr 1 [Some (VNumber 0)]) 2
  = Ok (Arr 1 [Some (VNumber 0)]) 2
  /\ commit_element_literal VariantA.createArrayElementSetState 0 VNegZero
       (Arr 1 [Some (VNumber 0)]) 2
     = Ok (Arr 2 [Some VNegZero]) 3
  /\ object_is (VNumber 0) VNegZero = false
  /\ same_value_zero (VNumber 0) VNegZero = true.
Proof. repeat split. Qed.

Lemma remover_transform (setArray : oid) (p : nat) (id : oid) (r : Remove)
    (aid : oid) (slots : list (option value)) (n : oid) :
  createDeleteAction setArray p id = Ok r (S id) ->
  commit (rm_call r) (Arr aid slots) n
  = Ok (Arr n (Some <$> present (delete p slots))) (S n).
Proof.
  intros Hr. unfold createDeleteAction in Hr. rewrite bind_fresh in Hr.
  injection Hr as <-. unfold commit. simpl.
  unfold array_filter. rewrite bind_fresh. unfold ret. simpl.
  rewrite filter_slots_delete. simpl. now rewrite Nat.sub_0_r.
Qed.

(** X10. A remover is bound to a position, not to an element: on an array
    without holes, calling the remover of position [p] twice removes the
    elements that were at [p] and at [p + 1]. *)
Theorem remover_twice_removes_two (setArray : oid) (p : nat) (id : oid) (r : Remove)
    (aid : oid) (xs : list value) (n : oid) :
  createDeleteAction setArray p id = Ok r (S id) ->
  exists a1,
    commit (rm_call r) (Arr aid (Some <$> xs)) n = Ok a1 (S n)
    /\ commit (rm_call r) a1 (S n)
       = Ok (Arr (S n) (Some <$> delete p (delete p xs))) (S (S n))
    /\ (forall j, delete p (delete p xs) !! j
                  = if j <? p then xs !! j else xs !! S (S j))
    /\ (S p < length xs -> length (delete p (delete p xs)) = length xs - 2).
Proof.
  intros Hr. eexists. split; [ apply (remover_transform _ _ _ _ _ _ _ Hr) | ].
  split; [ | split ].
  - rewrite (remover_transform _ _ _ _ _ _ _ Hr).
    now rewrite !delete_fmap_Some, !present_Some.
  - intros j. rewrite !lookup_delete_list.
    destruct (Nat.ltb_spec j p); [ reflexivity | ].
    destruct (Nat.ltb_spec (S j) p); [ lia | reflexivity ].
  - intros Hlt. rewrite !length_delete; [ lia | | ].
    + apply lookup_lt_is_Some_2. lia.
    + apply lookup_lt_is_Some_2. rewrite length_delete; [ lia | ].
      apply lookup_lt_is_Some_2. lia.
Qed.

Lemma remover_twice_removes_two_witness :
  exists r a1,
    createDeleteAction 100 0 0 = Ok r 1
    /\ commit (rm_call r) abc 5 = Ok a1 6
    /\ commit (rm_call r) a1 6 = Ok (Arr 6 [Some (VString "c")]) 7.
Proof.
  assert (Hr : exists r, createDeleteAction 100 0 0 = Ok r 1) by (eexists; reflexivity).
  destruct Hr as (r & Hr).
  destruct (remover_twice_removes_two 100 0 0 r 1
              [VString "a"; VString "b"; VString "c"] 5 Hr)
    as (a1 & H1 & H2 & _).
  exists r, a1. split; [ exact Hr | ]. split; [ exact H1 | exact H2 ].
Defined.

Lemma keys_overwrite_field key v fields :
  map fst (overwrite_field key v fields) = map fst fields.
Proof.
  induction fields as [ | [k w] rest IH ]; simpl; [ reflexivity | ].
  destruct (String.eqb k key); simpl; [ reflexivity | now rewrite IH ].
Qed.

Lemma keys_define_present key v fields :
  In key (map fst fields) ->
  map fst (define_field key v fields) = map fst fields.
Proof.
  intros Hin. apply own_property_is_Some in Hin. destruct Hin as [x Hx].
  unfold define_field, has_field. rewrite Hx. apply keys_overwrite_field.
Qed.

Lemma field_transform_reads
    (create : oid -> string -> M FieldMutator) (setObject : oid) (key : string)
    (id : oid) (m : FieldMutator) (act : SetStateAction value) (old : JsObject)
    (cand : value) (n : oid) :
  create = VariantA.createObjectPropertySetState
  \/ create = VariantB.createObjectPropertySetState ->
  create setObject key id = Ok m (S id) ->
  (forall n0, evaluateSetStateAction act (object_get old key) n0 = Ok cand n0) ->
  exists new n2,
    commit (fn_call m act) old n = Ok new n2
    /\ n <= n2 <= S n
    /\ target (fn_call m act) = setObject
    /\ (object_get new key = cand
        \/ (new = old /\ strict_eq (object_get old key) cand = true))
    /\ same_value_zero (object_get new key) cand = true
    /\ (forall k, k <> key ->
          own_property k (obj_fields new) = own_property k (obj_fields old))
    /\ (In key (keysOf old) -> keysOf new = keysOf old)
    /\ (new = old \/ obj_id new = n).
Proof.
  intros Hv Hm Heval. destruct Hv as [ -> | -> ].
  - unfold VariantA.createObjectPropertySetState in Hm. rewrite bind_fresh in Hm.
    injection Hm as <-. exists (spread_with n old key cand), (S n).
    split; [ unfold commit; simpl; rewrite bind_fresh;
             now rewrite (bind_Ok _ _ _ _ _ (Heval (S n))) | ].
    split; [ lia | ]. split; [ reflexivity | ].
    destruct (field_replaced_spread n old key cand) as (Hk & Hother & _).
    split; [ now left | ].
    split; [ rewrite Hk; apply same_value_zero_refl | ]. split; [ exact Hother | ].
    split; [ | now right ].
    intros Hin. unfold keysOf, spread_with. simpl. now apply keys_define_present.
  - unfold VariantB.createObjectPropertySetState in Hm. rewrite bind_fresh in Hm.
    injection Hm as <-.
    destruct (strict_eq (object_get old key) cand) eqn:E.
    + exists old, n. split.
      * unfold commit. simpl. rewrite (bind_Ok _ _ _ _ _ (Heval n)). now rewrite E.
      * split; [ lia | ]. split; [ reflexivity | ].
        split; [ right; now split | ].
        split; [ now apply strict_eq_same_value_zero | ]. split; [ reflexivity | ].
        split; [ reflexivity | now left ].
    + exists (spread_with n old key cand), (S n). split.
      * unfold commit. simpl. rewrite (bind_Ok _ _ _ _ _ (Heval n)). now rewrite E.
      * split; [ lia | ]. split; [ reflexivity | ].
        destruct (field_replaced_spread n old key cand) as (Hk & Hother & _).
        split; [ now left | ].
        split; [ rewrite Hk; apply same_value_zero_refl | ]. split; [ exact Hother | ].
        split; [ | now right ].
        intros Hin. unfold keysOf, spread_with. simpl. now apply keys_define_present.
Qed.

Lemma object_get_other (a b : JsObject) (k : string) :
  own_property k (obj_fields a) = own_property k (obj_fields b) ->
  object_get a k = object_get b k.
Proof. intros H. unfold object_get. now rewrite H. Qed.

(** X11. Two updates, with literal values that are not functions, of two
    fields of a record, committed one after the other. By [SameValueZero],
    the result holds the second value under the second key and, when the keys
    differ, the first value under the first key; it holds the old values
    under the other keys, and it has the keys of the record in their order.
    Both files. *)
Theorem queued_field_updates_compose
    (create : oid -> string -> M FieldMutator)
    (s1 s2 : oid) (key1 key2 : string) (id1 id2 : oid) (m1 m2 : FieldMutator)
    (v w : value) (old : JsObject) (n : oid) :
  create = VariantA.createObjectPropertySetState
  \/ create = VariantB.createObjectPropertySetState ->
  create s1 key1 id1 = Ok m1 (S id1) ->
  create s2 key2 id2 = Ok m2 (S id2) ->
  In key1 (keysOf old) ->
  In key2 (keysOf old) ->
  typeof v <> "function" ->
  typeof w <> "function" ->
  exists o1 n1 o2 n2,
    commit (fn_call m1 (Literal v)) old n = Ok o1 n1
    /\ commit (fn_call m2 (Literal w)) o1 n1 = Ok o2 n2
    /\ same_value_zero (object_get o2 key2) w = true
    /\ (key1 <> key2 -> same_value_zero (object_get o2 key1) v = true)
    /\ (forall k, k <> key1 -> k <> key2 -> object_get o2 k = object_get old k)
    /\ keysOf o2 = keysOf old.
Proof.
  intros Hv H1 H2 Hin1 Hin2 _ _.
  destruct (field_transform_reads create s1 key1 id1 m1 (Literal v) old v n Hv H1)
    as (o1 & n1 & Hc1 & _ & _ & _ & Hk1 & Ho1 & Hkeys1 & _); [ reflexivity | ].
  destruct (field_transform_reads create s2 key2 id2 m2 (Literal w) o1 w n1 Hv H2)
    as (o2 & n2 & Hc2 & _ & _ & _ & Hk2 & Ho2 & Hkeys2 & _); [ reflexivity | ].
  exists o1, n1, o2, n2. split; [ exact Hc1 | ]. split; [ exact Hc2 | ].
  split; [ exact Hk2 | ]. split; [ | split ].
  - intros Hne. rewrite (object_get_other o2 o1 key1) by (apply Ho2; exact Hne).
    exact Hk1.
  - intros k Hn1 Hn2. rewrite (object_get_other o2 o1 k) by (now apply Ho2).
    apply object_get_other. now apply Ho1.
  - rewrite Hkeys2; [ now apply Hkeys1 | ]. now rewrite Hkeys1.
Qed.

Lemma queued_field_updates_compose_witness :
  exists m1 m2 o1 n1 o2 n2,
    VariantA.createObjectPropertySetState 100 "x" 0 = Ok m1 1
    /\ VariantA.createObjectPropertySetState 100 "y" 1 = Ok m2 2
    /\ commit (fn_call m1 (Literal (VNumber 7))) xy_record 5 = Ok o1 n1
    /\ commit (fn_call m2 (Literal (VNumber 8))) o1 n1 = Ok o2 n2
    /\ same_value_zero (object_get o2 "x") (VNumber 7) = true
    /\ same_value_zero (object_get o2 "y") (VNumber 8) = true
    /\ keysOf o2 = keysOf xy_record.
Proof.
  assert (H1 : exists m1, VariantA.createObjectPropertySetState 100 "x" 0 = Ok m1 1)
    by (eexists; reflexivity).
  assert (H2 : exists m2, VariantA.createObjectPropertySetState 100 "y" 1 = Ok m2 2)
    by (eexists; reflexivity).
  destruct H1 as (m1 & H1). destruct H2 as (m2 & H2).
  destruct (queued_field_updates_compose VariantA.createObjectPropertySetState
              100 100 "x" "y" 0 1 m1 m2 (VNumber 7) (VNumber 8) xy_record 5
              (or_introl eq_refl) H1 H2)
    as (o1 & n1 & o2 & n2 & Hc1 & Hc2 & Hy & Hx & _ & Hkeys);
    [ simpl; tauto | simpl; tauto | discriminate | discriminate | ].
  exists m1, m2, o1, n1, o2, n2.
  split; [ exact H1 | ]. split; [ exact H2 | ]. split; [ exact Hc1 | ].
  split; [ exact Hc2 | ]. split; [ apply Hx; discriminate | ]. split; [ exact Hy | ].
  exact Hkeys.
Defined.

(** X12. An update whose candidate [===] the old value, whatever the update
    argument. In [src/unnamed/part_000] the host gets back the container it
    holds, and nothing is allocated beyond what the update argument itself
    allocates; for a record this is said of a key the record has. In
    [src/use-destructuring.ts] the host gets a newly allocated container
    that holds the candidate at the position, resp. under the key, and the old
    values elsewhere: where the old value is [+0] and the candidate [-0], the
    copy holds [-0]. *)
Theorem equal_value_update_identity :
  (forall (s : oid) (p : nat) (id : oid) (m : ArrayMutator) act (old : JsArray)
          (n : oid) (cand : value) (n1 : oid),
      VariantB.createArrayElementSetState s p id = Ok m (S id) ->
      evaluateSetStateAction act (array_get old p) n = Ok cand n1 ->
      strict_eq (array_get old p) cand = true ->
      commit (fn_call m act) old n = Ok old n1)
  /\ (forall (s : oid) (key : string) (id : oid) (m : FieldMutator) act (old : JsObject)
             (n : oid) (cand : value) (n1 : oid),
      VariantB.createObjectPropertySetState s key id = Ok m (S id) ->
      In key (keysOf old) ->
      evaluateSetStateAction act (object_get old key) n = Ok cand n1 ->
      strict_eq (object_get old key) cand = true ->
      commit (fn_call m act) old n = Ok old n1)
  /\ (forall (s : oid) (p : nat) (id : oid) (m : ArrayMutator) act (old : JsArray)
             (n : oid) (cand : value) (n1 : oid),
      VariantA.createArrayElementSetState s p id = Ok m (S id) ->
      evaluateSetStateAction act (array_get old p) n = Ok cand n1 ->
      strict_eq (array_get old p) cand = true ->
      exists new,
        commit (fn_call m act) old n = Ok new (S n1)
        /\ arr_id new = n1
        /\ array_get new p = cand
        /\ (forall j, j <> p -> array_get new j = array_get old j)
        /\ (p < array_length old -> array_length new = array_length old))
  /\ (forall (s : oid) (key : string) (id : oid) (m : FieldMutator) act (old : JsObject)
             (n : oid) (cand : value) (n1 : oid),
      VariantA.createObjectPropertySetState s key id = Ok m (S id) ->
      In key (keysOf old) ->
      evaluateSetStateAction act (object_get old key) (S n) = Ok cand n1 ->
      strict_eq (object_get old key) cand = true ->
      exists new,
        commit (fn_call m act) old n = Ok new n1
        /\ obj_id new = n
        /\ object_get new key = cand
        /\ (forall k, k <> key -> object_get new k = object_get old k)
        /\ keysOf new = keysOf old).
Proof.
  split; [ | split; [ | split ] ].
  - intros s p id m act old n cand n1 Hm Heval Heq.
    destruct (proj1 VariantB_mutator_short_circuit s p id) as (m' & Hm' & Hcall).
    rewrite Hm in Hm'. injection Hm' as <-.
    destruct (Hcall act) as (t & Ht & Hrun).
    unfold commit. rewrite Ht. simpl. exact (Hrun old n cand n1 Heval Heq).
  - intros s key id m act old n cand n1 Hm _ Heval Heq.
    destruct (proj2 VariantB_mutator_short_circuit s key id) as (m' & Hm' & Hcall).
    rewrite Hm in Hm'. injection Hm' as <-.
    destruct (Hcall act) as (t & Ht & Hrun).
    unfold commit. rewrite Ht. simpl. exact (Hrun old n cand n1 Heval Heq).
  - intros s p id m act old n cand n1 Hm Heval _.
    destruct (proj1 VariantA_mutator_always_copies s p id) as (m' & Hm' & Hcall).
    rewrite Hm in Hm'. injection Hm' as <-.
    destruct (Hcall act) as (t & Ht & Hrun).
    destruct (Hrun old n cand n1 Heval) as (new & Hnew & Hid & Hp & Hj & Hlen).
    exists new. unfold commit. rewrite Ht. simpl.
    split; [ exact Hnew | ]. split; [ exact Hid | ]. split; [ exact Hp | ].
    split; [ exact Hj | ]. intros Hlt. rewrite Hlen. lia.
  - intros s key id m act old n cand n1 Hm Hin Heval _.
    unfold VariantA.createObjectPropertySetState in Hm. rewrite bind_fresh in Hm.
    injection Hm as <-. exists (spread_with n old key cand).
    destruct (field_replaced_spread n old key cand) as (Hk & Hother & _).
    split; [ unfold commit; simpl; rewrite bind_fresh;
             now rewrite (bind_Ok _ _ _ _ _ Heval) | ].
    split; [ reflexivity | ]. split; [ exact Hk | ].
    split; [ intros k Hne; exact (object_get_other _ old k (Hother k Hne)) | ].
    unfold keysOf, spread_with. simpl. now apply keys_define_present.
Qed.

Lemma equal_value_update_identity_witness :
  exists m,
    VariantB.createArrayElementSetState 100 0 0 = Ok m 1
    /\ strict_eq (VNumber 0) VNegZero = true
    /\ commit (fn_call m (Literal VNegZero)) (Arr 1 [Some (VNumber 0)]) 5
       = Ok (Arr 1 [Some (VNumber 0)]) 5.
Proof.
  assert (Hm : exists m, VariantB.createArrayElementSetState 100 0 0 = Ok m 1)
    by (eexists; reflexivity).
  destruct Hm as (m & Hm). exists m. split; [ exact Hm | ]. split; [ reflexivity | ].
  apply (proj1 equal_value_update_identity 100 0 0 m (Literal VNegZero)
           (Arr 1 [Some (VNumber 0)]) 5 VNegZero 5 Hm); reflexivity.
Defined.

(** ** The cells of a call site, render after render *)

Lemma memoizeArray_aligned (replaceAtIndex : JsArray -> nat -> value -> M JsArray)
    (cache : ArrayCache) (array : JsArray) (setArray n : oid)
    (r : ArraySetState) (c : ArrayCache) (n' : oid) :
  memoizeArray replaceAtIndex cache array setArray n = Ok (r, c) n' ->
  length c = array_length array
  /\ out_items r = imap (triple_at c) (arr_slots array)
  /\ (forall i, i < Nat.min (length cache) (array_length array) -> c !! i = cache !! i).
Proof.
  intros H.
  destruct (memoizeArray_run replaceAtIndex cache array setArray n)
    as (added & Hrun & Hlen & _).
  rewrite H in Hrun. injection Hrun as -> -> _.
  split; [ | split; [ reflexivity | ] ].
  - rewrite length_app, length_take, Hlen. lia.
  - intros i Hi. rewrite lookup_app_l by (rewrite length_take; lia).
    apply lookup_take_lt. lia.
Qed.

Lemma derive_cases
    (derive : option hook -> value -> oid -> M (output * hook))
    (memoize : ObjectCache -> JsObject -> oid -> M (ObjectSetState * ObjectCache))
    (replace : JsArray -> nat -> value -> M JsArray)
    (h : option hook) (state : value) (s n : oid) (out : output) (h' : hook) (n' : oid) :
  (derive = VariantA.useDestucturing /\ memoize = VariantA.memoizeObject
   /\ replace = VariantA.replaceAtIndex)
  \/ (derive = VariantB.useDestucturing /\ memoize = VariantB.memoizeObject
      /\ replace = VariantB.replaceAtIndex) ->
  derive h state s n = Ok (out, h') n' ->
  (exists hk, h = Some hk /\ h' = hk /\ out = memo_value hk /\ n' = n
              /\ deps_equal (memo_deps hk)
                   (s, match state with
                       | VObject o => VNumber (hashStrings (keysOf o))
                       | _ => state
                       end) = true)
  \/ (exists a r c,
        state = VArray a /\ recomputes h (s, VArray a) = true
        /\ out = OutArray r /\ h' = Hook (CacheArray c) (s, VArray a) (OutArray r)
        /\ memoizeArray replace (narrowRef (useRef h (CacheArray [])) isArrayCache []) a s n
           = Ok (r, c) n')
  \/ (exists o r c,
        state = VObject o
        /\ recomputes h (s, VNumber (hashStrings (keysOf o))) = true
        /\ out = OutObject r
        /\ h' = Hook (CacheMap c) (s, VNumber (hashStrings (keysOf o))) (OutObject r)
        /\ memoize (narrowRef (useRef h (CacheMap ∅)) isObjectCache ∅) o s n
           = Ok (r, c) n').
Proof.
  intros Hv Hrun.
  assert (Hgen : exists msg,
             derive = useDestucturing replace memoize msg
             /\ (forall c o s n,
                   In "" (keysOf o) -> memoize c o s n = Throw (UsageError capitalize_message))
             /\ (forall c o s n,
                   ~ In "" (keysOf o) ->
                   exists r c' n', memoize c o s n = Ok (r, c') n' /\ n < n')).
  { destruct Hv as [ (-> & -> & ->) | (-> & -> & ->) ].
    - exists VariantA.shape_message. split; [ reflexivity | ].
      split; [ apply VariantA_memoizeObject_throw | apply VariantA_memoizeObject_run ].
    - exists VariantB.shape_message. split; [ reflexivity | ].
      split; [ apply VariantB_memoizeObject_throw | apply VariantB_memoizeObject_run ]. }
  destruct Hgen as (msg & -> & Hthrow & Hok).
  destruct (isObjectOrArray state) eqn:Hshape;
    [ | rewrite (derive_shape replace memoize msg _ _ _ _ Hshape) in Hrun; discriminate ].
  set (d := (s, match state with
                | VObject o => VNumber (hashStrings (keysOf o))
                | _ => state
                end)).
  destruct (recomputes h d) eqn:Hopen.
  - destruct (isObjectOrArray_cases state Hshape) as [ (a & ->) | (o & ->) ].
    + destruct (derive_array_miss replace memoize msg h a s n Hopen)
        as (r & c & n1 & Heq & _ & Hmemo).
      rewrite Heq in Hrun. injection Hrun as <- <- <-.
      right. left. exists a, r, c. repeat split; assumption.
    + destruct (in_dec string_dec "" (keysOf o)) as [ Hin | Hnin ].
      * rewrite (derive_object_throw replace memoize msg Hthrow h o s n Hopen Hin) in Hrun.
        discriminate.
      * destruct (derive_object_miss replace memoize msg Hok h o s n Hopen Hnin)
          as (r & c & n1 & Heq & _ & Hmemo).
        rewrite Heq in Hrun. injection Hrun as <- <- <-.
        right. right. exists o, r, c. repeat split; assumption.
  - apply recomputes_false in Hopen. destruct Hopen as (hk & -> & Hd).
    rewrite (derive_hit replace memoize msg hk state s n Hshape Hd) in Hrun.
    injection Hrun as <- <- <-. left. exists hk. repeat split; assumption.
Qed.

Lemma variant_triple (derive : option hook -> value -> oid -> M (output * hook)) :
  derive = VariantA.useDestucturing \/ derive = VariantB.useDestucturing ->
  exists memoize replace,
    ((derive = VariantA.useDestucturing /\ memoize = VariantA.memoizeObject
      /\ replace = VariantA.replaceAtIndex)
     \/ (derive = VariantB.useDestucturing /\ memoize = VariantB.memoizeObject
         /\ replace = VariantB.replaceAtIndex))
    /\ (memoize = VariantA.memoizeObject \/ memoize = VariantB.memoizeObject).
Proof.
  intros [ -> | -> ].
  - exists VariantA.memoizeObject, VariantA.replaceAtIndex. split; [ left | left ]; auto.
  - exists VariantB.memoizeObject, VariantB.replaceAtIndex. split; [ right | right ]; auto.
Qed.

Lemma derive_consistent
    (derive : option hook -> value -> oid -> M (output * hook))
    (h : option hook) (state : value) (s n : oid) (out : output) (h' : hook) (n' : oid) :
  derive = VariantA.useDestucturing \/ derive = VariantB.useDestucturing ->
  (forall hk, h = Some hk -> site_consistent hk) ->
  derive h state s n = Ok (out, h') n' ->
  site_consistent h' /\ out = memo_value h'.
Proof.
  intros Hv Hcons Hrun.
  destruct (variant_triple derive Hv) as (memoize & replace & Ht & Hm).
  destruct (derive_cases derive memoize replace h state s n out h' n' Ht Hrun)
    as [ (hk & -> & -> & -> & _) | [ (a & r & c & -> & _ & -> & -> & Hmemo)
                                    | (o & r & c & -> & _ & -> & -> & Hmemo) ] ].
  - split; [ now apply Hcons | reflexivity ].
  - split; [ | reflexivity ]. unfold site_consistent. simpl.
    destruct (memoizeArray_aligned _ _ _ _ _ _ _ _ Hmemo) as (Hlen & Hitems & _).
    split; assumption.
  - split; [ | reflexivity ]. unfold site_consistent. simpl.
    destruct (memoizeObject_output memoize _ o s n r c n' Hm Hmemo) as (_ & _ & Hdom & Hget).
    exists (keysOf o). split; [ reflexivity | ]. split; assumption.
Qed.

Lemma memoizeArray_bound (replaceAtIndex : JsArray -> nat -> value -> M JsArray)
    (cache : ArrayCache) (array : JsArray) (setArray n : oid)
    (r : ArraySetState) (c : ArrayCache) (n' : oid) :
  memoizeArray replaceAtIndex cache array setArray n = Ok (r, c) n' ->
  pairs_bound (createArrayElementSetState replaceAtIndex) cache ->
  pairs_bound (createArrayElementSetState replaceAtIndex) c.
Proof.
  intros H Hb.
  destruct (memoizeArray_run replaceAtIndex cache array setArray n)
    as (added & Hrun & Hlen & Hnth).
  rewrite H in Hrun. injection Hrun as -> -> _.
  intros i pair Hi.
  destruct (Nat.lt_ge_cases i (Nat.min (length cache) (array_length array))) as [Hlt | Hge].
  - rewrite lookup_app_l in Hi by (rewrite length_take; lia).
    rewrite lookup_take_lt in Hi by lia. exact (Hb i pair Hi).
  - rewrite lookup_app_r in Hi by (rewrite length_take; lia).
    remember (i - length (take (Nat.min (length cache) (array_length array)) cache)) as j
      eqn:Ej.
    rewrite length_take in Ej.
    assert (Hj : j < array_length array - length cache).
    { apply lookup_lt_Some in Hi. lia. }
    destruct (Hnth j Hj) as (pair' & Hp & Hsyn & _).
    rewrite Hp in Hi. injection Hi as <-.
    exists setArray, (n + 2 * j).
    replace i with (length cache + j) by lia.
    exact Hsyn.
Qed.

Lemma VariantA_body_bound setState key (m0 : ObjectCache) setMethods n :
  key <> "" ->
  fields_bound VariantA.createObjectPropertySetState m0 ->
  exists m1 setMethods1 n1,
    VariantA.memoizeObject_body setState key (m0, setMethods) n = Ok (m1, setMethods1) n1
    /\ fields_bound VariantA.createObjectPropertySetState m1.
Proof.
  intros Hkey Hb. destruct (capitalize_nonempty key n Hkey) as (name & Hname).
  destruct (capitalize_nonempty key (S n) Hkey) as (name' & Hname').
  unfold VariantA.memoizeObject_body.
  destruct (m0 !! key) as [ m | ] eqn:E.
  - rewrite bind_ret. rewrite (bind_Ok _ _ _ _ _ Hname).
    do 3 eexists. split; [ reflexivity | exact Hb ].
  - erewrite bind_Ok; [ | reflexivity ]. cbv beta iota.
    rewrite (bind_Ok _ _ _ _ _ Hname').
    do 3 eexists. split; [ reflexivity | ].
    intros k f Hk. destruct (String.eqb_spec k key) as [-> | Hk'].
    + rewrite lookup_insert_eq in Hk. injection Hk as <-.
      exists setState, n. reflexivity.
    + rewrite lookup_insert_ne in Hk by congruence. exact (Hb k f Hk).
Qed.

Lemma VariantA_loop_bound setState keys :
  forall (m0 : ObjectCache) setMethods n (m1 : ObjectCache) setMethods' n',
    for_of keys (m0, setMethods) (VariantA.memoizeObject_body setState) n
    = Ok (m1, setMethods') n' ->
    fields_bound VariantA.createObjectPropertySetState m0 ->
    fields_bound VariantA.createObjectPropertySetState m1.
Proof.
  induction keys as [ | key rest IH ]; intros m0 sm n m1 sm' n' H Hb.
  - simpl in H. injection H as <- _ _. exact Hb.
  - pose proof (for_of_Ok_no_empty_A _ _ _ _ _ _ H) as Hnot.
    assert (Hne : key <> "") by (intros ->; apply Hnot; now left).
    destruct (VariantA_body_bound setState key m0 sm n Hne Hb)
      as (m2 & sm2 & n2 & Hbody & Hb2).
    simpl in H. rewrite (bind_Ok _ _ _ _ _ Hbody) in H.
    exact (IH _ _ _ _ _ _ H Hb2).
Qed.

Lemma VariantB_body_bound oldMap setState key (m0 : ObjectCache) setMethods n :
  key <> "" ->
  fields_bound VariantB.createObjectPropertySetState oldMap ->
  fields_bound VariantB.createObjectPropertySetState m0 ->
  exists m1 setMethods1 n1,
    VariantB.memoizeObject_body oldMap setState key (m0, setMethods) n
    = Ok (m1, setMethods1) n1
    /\ fields_bound VariantB.createObjectPropertySetState m1.
Proof.
  intros Hkey Hold Hb. destruct (capitalize_nonempty key n Hkey) as (name & Hname).
  destruct (capitalize_nonempty key (S n) Hkey) as (name' & Hname').
  unfold VariantB.memoizeObject_body.
  destruct (oldMap !! key) as [ m | ] eqn:E.
  - rewrite bind_ret. cbv zeta. rewrite (bind_Ok _ _ _ _ _ Hname).
    do 3 eexists. split; [ reflexivity | ].
    intros k f Hk. destruct (String.eqb_spec k key) as [-> | Hk'].
    + rewrite lookup_insert_eq in Hk. injection Hk as <-. exact (Hold key m E).
    + rewrite lookup_insert_ne in Hk by congruence. exact (Hb k f Hk).
  - erewrite bind_Ok; [ | reflexivity ]. cbv zeta.
    rewrite (bind_Ok _ _ _ _ _ Hname').
    do 3 eexists. split; [ reflexivity | ].
    intros k f Hk. destruct (String.eqb_spec k key) as [-> | Hk'].
    + rewrite lookup_insert_eq in Hk. injection Hk as <-.
      exists setState, n. reflexivity.
    + rewrite lookup_insert_ne in Hk by congruence. exact (Hb k f Hk).
Qed.

Lemma VariantB_loop_bound oldMap setState keys :
  fields_bound VariantB.createObjectPropertySetState oldMap ->
  forall (m0 : ObjectCache) setMethods n (m1 : ObjectCache) setMethods' n',
    for_of keys (m0, setMethods) (VariantB.memoizeObject_body oldMap setState) n
    = Ok (m1, setMethods') n' ->
    fields_bound VariantB.createObjectPropertySetState m0 ->
    fields_bound VariantB.createObjectPropertySetState m1.
Proof.
  intros Hold.
  induction keys as [ | key rest IH ]; intros m0 sm n m1 sm' n' H Hb.
  - simpl in H. injection H as <- _ _. exact Hb.
  - pose proof (for_of_Ok_no_empty_B _ _ _ _ _ _ _ H) as Hnot.
    assert (Hne : key <> "") by (intros ->; apply Hnot; now left).
    destruct (VariantB_body_bound oldMap setState key m0 sm n Hne Hold Hb)
      as (m2 & sm2 & n2 & Hbody & Hb2).
    simpl in H. rewrite (bind_Ok _ _ _ _ _ Hbody) in H.
    exact (IH _ _ _ _ _ _ H Hb2).
Qed.

Lemma fields_bound_empty (create : oid -> string -> M FieldMutator) :
  fields_bound create ∅.
Proof. intros k f Hk. rewrite lookup_empty in Hk. discriminate. Qed.

Lemma pairs_bound_nil (create : oid -> nat -> M ArrayMutator) : pairs_bound create [].
Proof. intros i pair Hi. rewrite lookup_nil in Hi. discriminate. Qed.

Lemma VariantA_memoizeObject_bound cache state setState n out cache' n' :
  VariantA.memoizeObject cache state setState n = Ok (out, cache') n' ->
  fields_bound VariantA.createObjectPropertySetState cache ->
  fields_bound VariantA.createObjectPropertySetState cache'.
Proof.
  intros H Hb. unfold VariantA.memoizeObject in H. cbv zeta in H.
  rewrite bind_fresh in H. unfold bind in H.
  destruct (for_of _ _ _ _) as [ [m1 sm] n1 | e ] eqn:E; [ | discriminate ].
  injection H as _ <- _. exact (VariantA_loop_bound _ _ _ _ _ _ _ _ E Hb).
Qed.

Lemma VariantB_memoizeObject_bound cache state setState n out cache' n' :
  VariantB.memoizeObject cache state setState n = Ok (out, cache') n' ->
  fields_bound VariantB.createObjectPropertySetState cache ->
  fields_bound VariantB.createObjectPropertySetState cache'.
Proof.
  intros H Hb. unfold VariantB.memoizeObject in H. cbv zeta in H.
  rewrite bind_fresh in H. unfold bind in H.
  destruct (for_of _ _ _ _) as [ [m1 sm] n1 | e ] eqn:E; [ | discriminate ].
  injection H as _ <- _.
  exact (VariantB_loop_bound _ _ _ Hb _ _ _ _ _ _ E (fields_bound_empty _)).
Qed.

Lemma same_file_cases derive createElement createProperty :
  same_file derive createElement createProperty ->
  exists memoize replace,
    ((derive = VariantA.useDestucturing /\ memoize = VariantA.memoizeObject
      /\ replace = VariantA.replaceAtIndex)
     \/ (derive = VariantB.useDestucturing /\ memoize = VariantB.memoizeObject
         /\ replace = VariantB.replaceAtIndex))
    /\ createElement = createArrayElementSetState replace
    /\ (createElement = VariantA.createArrayElementSetState
        \/ createElement = VariantB.createArrayElementSetState)
    /\ (createProperty = VariantA.createObjectPropertySetState
        \/ createProperty = VariantB.createObjectPropertySetState)
    /\ (derive = VariantA.useDestucturing \/ derive = VariantB.useDestucturing)
    /\ (forall cache state s n out cache' n',
          memoize cache state s n = Ok (out, cache') n' ->
          fields_bound createProperty cache -> fields_bound createProperty cache').
Proof.
  intros [ (-> & -> & ->) | (-> & -> & ->) ].
  - exists VariantA.memoizeObject, VariantA.replaceAtIndex.
    split; [ left; auto | ]. split; [ reflexivity | ]. split; [ now left | ].
    split; [ now left | ]. split; [ now left | ].
    intros; eapply VariantA_memoizeObject_bound; eassumption.
  - exists VariantB.memoizeObject, VariantB.replaceAtIndex.
    split; [ right; auto | ]. split; [ reflexivity | ]. split; [ now right | ].
    split; [ now right | ]. split; [ now right | ].
    intros; eapply VariantB_memoizeObject_bound; eassumption.
Qed.

Lemma derive_bound derive createElement createProperty
    (h : option hook) (state : value) (s n : oid) (out : output) (h' : hook) (n' : oid) :
  same_file derive createElement createProperty ->
  (forall hk, h = Some hk -> cache_bound createElement createProperty (ref_current hk)) ->
  derive h state s n = Ok (out, h') n' ->
  cache_bound createElement createProperty (ref_current h').
Proof.
  intros Hv Hb Hrun.
  destruct (same_file_cases _ _ _ Hv) as (memoize & replace & Ht & HcE & _ & _ & _ & Hmb).
  destruct (derive_cases derive memoize replace h state s n out h' n' Ht Hrun)
    as [ (hk & -> & -> & _) | [ (a & r & c & -> & _ & -> & -> & Hmemo)
                             | (o & r & c & -> & _ & -> & -> & Hmemo) ] ].
  - now apply Hb.
  - simpl. rewrite HcE. apply (memoizeArray_bound _ _ _ _ _ _ _ _ Hmemo).
    rewrite <- HcE.
    destruct h as [ hk | ]; simpl; [ | apply pairs_bound_nil ].
    specialize (Hb hk eq_refl). unfold narrowRef.
    destruct (ref_current hk); simpl; [ exact Hb | apply pairs_bound_nil ].
  - simpl. apply (Hmb _ _ _ _ _ _ _ Hmemo).
    destruct h as [ hk | ]; simpl; [ | apply fields_bound_empty ].
    specialize (Hb hk eq_refl). unfold narrowRef.
    destruct (ref_current hk); simpl; [ apply fields_bound_empty | exact Hb ].
Qed.

Lemma rendered_inv derive createElement createProperty (hk : hook) :
  same_file derive createElement createProperty ->
  rendered derive hk ->
  site_consistent hk /\ cache_bound createElement createProperty (ref_current hk).
Proof.
  intros Hv Hr.
  destruct (same_file_cases _ _ _ Hv) as (_ & _ & _ & _ & _ & _ & Hd & _).
  induction Hr as [ state s n out h n' Hrun | hk state s n out h n' Hr IH Hrun ].
  - split.
    + apply (derive_consistent derive None state s n out h n' Hd); [ discriminate | exact Hrun ].
    + apply (derive_bound derive _ _ None state s n out h n' Hv); [ discriminate | exact Hrun ].
  - destruct IH as [IH1 IH2]. split.
    + apply (derive_consistent derive (Some hk) state s n out h n' Hd);
        [ now intros ? [= <-] | exact Hrun ].
    + apply (derive_bound derive _ _ (Some hk) state s n out h n' Hv);
        [ now intros ? [= <-] | exact Hrun ].
Qed.

Lemma imap_triple_lookup (c : ArrayCache) (slots : list (option value)) (p : nat)
    (x : value) (m : ArrayMutator) (rm : Remove) :
  imap (triple_at c) slots !! p = Some (Some (x, m, rm)) ->
  slots !! p = Some (Some x) /\ c !! p = Some (m, rm).
Proof.
  rewrite list_lookup_imap. destruct (slots !! p) as [ slot | ]; simpl; [ | discriminate ].
  unfold triple_at. destruct slot as [ y | ]; [ | discriminate ].
  destruct (c !! p) as [ [m' r'] | ]; [ | discriminate ].
  intros [= -> -> ->]. split; reflexivity.
Qed.

Lemma site_consistent_array (hk : hook) (r : ArraySetState) :
  site_consistent hk -> memo_value hk = OutArray r ->
  exists c s a,
    ref_current hk = CacheArray c /\ memo_deps hk = (s, VArray a)
    /\ length c = array_length a
    /\ out_items r = imap (triple_at c) (arr_slots a).
Proof.
  unfold site_consistent. intros Hc Hv. rewrite Hv in Hc.
  destruct (ref_current hk) as [ c | m ], (memo_deps hk) as [s [ ] ]; try contradiction.
  destruct Hc as [H1 H2]. eauto 10.
Qed.

Lemma site_consistent_record (hk : hook) (r : ObjectSetState) :
  site_consistent hk -> memo_value hk = OutObject r ->
  exists m s keys,
    ref_current hk = CacheMap m /\ memo_deps hk = (s, VNumber (hashStrings keys))
    /\ (forall k, In k keys -> is_Some (m !! k))
    /\ (forall name,
          get_method name (set_methods r)
          = match last_named name keys with
            | Some k => m !! k
            | None => None
            end).
Proof.
  unfold site_consistent. intros Hc Hv. rewrite Hv in Hc.
  destruct (ref_current hk) as [ c | m ], (memo_deps hk) as [s [ ] ]; try contradiction.
  destruct Hc as (keys & -> & H1 & H2). eauto 10.
Qed.

Lemma same_file_part000 :
  same_file VariantB.useDestucturing VariantB.createArrayElementSetState
    VariantB.createObjectPropertySetState.
Proof. right. repeat split. Qed.

Lemma same_file_legacy :
  same_file VariantA.useDestucturing VariantA.createArrayElementSetState
    VariantA.createObjectPropertySetState.
Proof. left. repeat split. Qed.

(** X13. Whatever composites and setters the renders of a call site pass,
    arrays and records in any order, the cells of the site agree after each
    render that returns ([site_consistent]), and every cached closure was
    synthesized for the position, resp. the key, it is cached under. *)
Theorem rendered_site_invariant derive createElement createProperty (hk : hook) :
  same_file derive createElement createProperty ->
  rendered derive hk ->
  site_consistent hk /\ cache_bound createElement createProperty (ref_current hk).
Proof.
  intros Hv Hr.
  destruct (same_file_cases _ _ _ Hv) as (_ & _ & _ & _ & _ & _ & Hd & _).
  induction Hr as [ state s n out h n' Hrun | hk state s n out h n' Hr [IH1 IH2] Hrun ].
  - split.
    + apply (derive_consistent derive None state s n out h n' Hd);
        [ discriminate | exact Hrun ].
    + apply (derive_bound derive _ _ None state s n out h n' Hv);
        [ discriminate | exact Hrun ].
  - split.
    + apply (derive_consistent derive (Some hk) state s n out h n' Hd);
        [ now intros ? [= <-] | exact Hrun ].
    + apply (derive_bound derive _ _ (Some hk) state s n out h n' Hv);
        [ now intros ? [= <-] | exact Hrun ].
Qed.

Lemma rendered_site_invariant_witness :
  exists out h n',
    VariantA.useDestucturing None (VObject xy_record) 100 2 = Ok (out, h) n'
    /\ site_consistent h
    /\ cache_bound VariantA.createArrayElementSetState
         VariantA.createObjectPropertySetState (ref_current h).
Proof.
  assert (H : exists out h n',
             VariantA.useDestucturing None (VObject xy_record) 100 2 = Ok (out, h) n').
  { do 3 eexists. vm_compute. reflexivity. }
  destruct H as (out & h & n' & H). exists out, h, n'. split; [ exact H | ].
  apply (rendered_site_invariant VariantA.useDestucturing _ _ h same_file_legacy).
  exact (rendered_mount _ _ _ _ _ _ _ H).
Defined.

(** X14. After any number of renders, the entry at position [p] of an array
    output is bound to [p], however long ago its closures were synthesized.
    Its mutator hands the host a transform that leaves the other positions as
    they are and, at [p], puts the candidate, or, where the candidate [===]
    the old element and the code returns the array it was given, keeps that
    element: either way [p] holds the candidate by [SameValueZero]. Its
    remover hands the host a transform that returns a new array without
    position [p]. *)
Theorem entry_writes_its_position derive createElement createProperty
    (hk : hook) (r : ArraySetState) (p : nat)
    (x : value) (m : ArrayMutator) (rm : Remove) :
  same_file derive createElement createProperty ->
  rendered derive hk ->
  memo_value hk = OutArray r ->
  out_items r !! p = Some (Some (x, m, rm)) ->
  (forall act old n cand n1,
      evaluateSetStateAction act (array_get old p) n = Ok cand n1 ->
      exists new n2,
        commit (fn_call m act) old n = Ok new n2
        /\ (array_get new p = cand
            \/ (new = old /\ strict_eq (array_get old p) cand = true))
        /\ same_value_zero (array_get new p) cand = true
        /\ (forall j, j <> p -> array_get new j = array_get old j)
        /\ (p < array_length old -> array_length new = array_length old))
  /\ (forall aid slots n,
        commit (rm_call rm) (Arr aid slots) n
        = Ok (Arr n (Some <$> present (delete p slots))) (S n)).
Proof.
  intros Hv Hr Hval Hentry.
  destruct (rendered_inv _ _ _ _ Hv Hr) as [Hc Hb].
  destruct (same_file_cases _ _ _ Hv) as (_ & _ & _ & _ & HcE & _).
  destruct (site_consistent_array hk r Hc Hval) as (c & s & a & Href & _ & _ & Hitems).
  rewrite Hitems in Hentry. apply imap_triple_lookup in Hentry. destruct Hentry as [_ Hp].
  rewrite Href in Hb. simpl in Hb.
  destruct (Hb p (m, rm) Hp) as (s0 & id & Hm & Hrm). simpl in Hm, Hrm.
  split.
  - intros act old n cand n1 Heval.
    destruct (array_transform_reads createElement s0 p id m act old n cand n1 HcE Hm Heval)
      as (new & n2 & H1 & _ & H2 & H3 & H4 & H5 & _).
    exists new, n2. repeat split; assumption.
  - intros aid slots n. exact (remover_transform s0 p (S id) rm aid slots n Hrm).
Qed.

Lemma entry_writes_its_position_witness :
  exists r c d n' m rm,
    VariantB.useDestucturing None (VArray abc) 100 2
    = Ok (OutArray r, Hook c d (OutArray r)) n'
    /\ out_items r !! 1 = Some (Some (VString "b", m, rm))
    /\ commit (rm_call rm) abc 20
       = Ok (Arr 20 (Some <$> present (delete 1 (arr_slots abc)))) 21.
Proof.
  assert (H : exists r c d n' m rm,
             VariantB.useDestucturing None (VArray abc) 100 2
             = Ok (OutArray r, Hook c d (OutArray r)) n'
             /\ out_items r !! 1 = Some (Some (VString "b", m, rm))).
  { do 6 eexists. split; vm_compute; reflexivity. }
  destruct H as (r & c & d & n' & m & rm & H1 & H2).
  exists r, c, d, n', m, rm. split; [ exact H1 | ]. split; [ exact H2 | ].
  destruct (entry_writes_its_position VariantB.useDestucturing _ _
              (Hook c d (OutArray r)) r 1 (VString "b") m rm same_file_part000
              (rendered_mount _ _ _ _ _ _ _ H1) eq_refl H2) as [_ Hrm].
  exact (Hrm 1 (arr_slots abc) 20).
Defined.

(** X15. After any number of renders, the method a record output offers
    under a name writes one field, whose accessor name it is. For a record
    that has the key and an update argument that allocates nothing, the
    transform leaves the other fields as they are, keeps the keys and their
    order and, under the key, puts the candidate, or, where the candidate
    [===] the old value and the code returns the record it was given, keeps
    that value: either way the field holds the candidate by
    [SameValueZero]. *)
Theorem method_writes_its_field derive createElement createProperty
    (hk : hook) (r : ObjectSetState) (name : list Z) (f : FieldMutator) :
  same_file derive createElement createProperty ->
  rendered derive hk ->
  memo_value hk = OutObject r ->
  get_method name (set_methods r) = Some f ->
  exists key,
    accessor_name key = name
    /\ forall act old cand,
         In key (keysOf old) ->
         (forall n, evaluateSetStateAction act (object_get old key) n = Ok cand n) ->
         forall n, exists new n2,
           commit (fn_call f act) old n = Ok new n2
           /\ (object_get new key = cand
               \/ (new = old /\ strict_eq (object_get old key) cand = true))
           /\ same_value_zero (object_get new key) cand = true
           /\ (forall k, k <> key -> object_get new k = object_get old k)
           /\ keysOf new = keysOf old.
Proof.
  intros Hv Hr Hval Hget.
  destruct (rendered_inv _ _ _ _ Hv Hr) as [Hc Hb].
  destruct (same_file_cases _ _ _ Hv) as (_ & _ & _ & _ & _ & HcP & _).
  destruct (site_consistent_record hk r Hc Hval) as (m & s & keys & Href & _ & _ & Hmeth).
  rewrite Hmeth in Hget.
  destruct (last_named name keys) as [ key | ] eqn:E; [ | discriminate ].
  destruct (last_named_Some _ _ _ E) as [_ Hname].
  rewrite Href in Hb. simpl in Hb.
  destruct (Hb key f Hget) as (s0 & id & Hf).
  exists key. split; [ exact Hname | ].
  intros act old cand Hin Heval n.
  destruct (field_transform_reads createProperty s0 key id f act old cand n HcP Hf Heval)
    as (new & n2 & H1 & _ & _ & H2 & H3 & H4 & H5 & _).
  exists new, n2. split; [ exact H1 | ]. split; [ exact H2 | ]. split; [ exact H3 | ].
  split; [ | now apply H5 ].
  intros k Hk. apply object_get_other. now apply H4.
Qed.

Lemma method_writes_its_field_witness :
  exists r c d n' f,
    VariantB.useDestucturing None (VObject john) 100 2
    = Ok (OutObject r, Hook c d (OutObject r)) n'
    /\ get_method (units "setFirstName") (set_methods r) = Some f
    /\ exists key, accessor_name key = units "setFirstName".
Proof.
  assert (H : exists r c d n' f,
             VariantB.useDestucturing None (VObject john) 100 2
             = Ok (OutObject r, Hook c d (OutObject r)) n'
             /\ get_method (units "setFirstName") (set_methods r) = Some f).
  { do 5 eexists. split; vm_compute; reflexivity. }
  destruct H as (r & c & d & n' & f & H1 & H2).
  exists r, c, d, n', f. split; [ exact H1 | ]. split; [ exact H2 | ].
  destruct (method_writes_its_field VariantB.useDestucturing _ _
              (Hook c d (OutObject r)) r (units "setFirstName") f same_file_part000
              (rendered_mount _ _ _ _ _ _ _ H1) eq_refl H2) as (key & Hkey & _).
  exists key. exact Hkey.
Defined.

(** X16. [narrowRef] discards a cache of the other kind: at a site whose
    cells agree and whose cache is a [Map], deriving over an array gives what
    a first render gives, and so does deriving over a record at a site whose
    cache is a slot list. *)
Theorem kind_change_starts_afresh derive (hk : hook) (s n : oid) :
  derive = VariantA.useDestucturing \/ derive = VariantB.useDestucturing ->
  site_consistent hk ->
  (forall a, isArrayCache (ref_current hk) = None ->
             derive (Some hk) (VArray a) s n = derive None (VArray a) s n)
  /\ (forall o, isObjectCache (ref_current hk) = None ->
                derive (Some hk) (VObject o) s n = derive None (VObject o) s n).
Proof.
  intros Hv Hc.
  destruct (variant_cases_hook derive Hv) as (replace & memoize & msg & -> & _).
  unfold site_consistent in Hc.
  split.
  - intros a Hkind. destruct hk as [ [ c | m ] [s0 d] v ]; simpl in *; [ discriminate | ].
    destruct d; try contradiction.
    unfold useDestucturing, useMemo, deps_equal. simpl.
    now rewrite andb_false_r.
  - intros o Hkind. destruct hk as [ [ c | m ] [s0 d] v ]; simpl in *; [ | discriminate ].
    destruct d; try contradiction. destruct v; try contradiction.
    unfold useDestucturing, useMemo, deps_equal. simpl.
    now rewrite andb_false_r.
Qed.

Lemma kind_change_starts_afresh_witness :
  VariantB.useDestucturing
    (Some (Hook (CacheArray []) (100, VArray (Arr 1 [])) (OutArray (ArrayOut 2 []))))
    (VObject xy_record) 100 3
  = VariantB.useDestucturing None (VObject xy_record) 100 3.
Proof.
  apply (kind_change_starts_afresh VariantB.useDestucturing
           (Hook (CacheArray []) (100, VArray (Arr 1 [])) (OutArray (ArrayOut 2 [])))
           100 3 (or_intror eq_refl)).
  - simpl. split; reflexivity.
  - reflexivity.
Defined.

Lemma synthesized_pair_targets (replace : JsArray -> nat -> value -> M JsArray)
    (s : oid) (p : nat) (id : oid) (m : ArrayMutator) (rm : Remove) :
  synthesized_pair (createArrayElementSetState replace) s p id (m, rm) ->
  (forall act, target (fn_call m act) = s) /\ target (rm_call rm) = s.
Proof.
  intros [Hm Hrm]. simpl in Hm, Hrm.
  unfold createArrayElementSetState in Hm. rewrite bind_fresh in Hm. injection Hm as <-.
  unfold createDeleteAction in Hrm. rewrite bind_fresh in Hrm. injection Hrm as <-.
  split; reflexivity.
Qed.

(** X17. The closures of a position keep the setter they were synthesized
    over. When the second render of a site passes another setter, the output
    is recomputed, but the mutator and the remover of every position that the
    first array had still dispatch to the setter of the first render; only
    the positions beyond it dispatch to the new one. *)
Theorem mount_setter_outlives_renders derive (a a' : JsArray) (s0 s n : oid)
    (out1 : output) (h1 : hook) (n1 : oid) (out2 : output) (h2 : hook) (n2 : oid) :
  derive = VariantA.useDestucturing \/ derive = VariantB.useDestucturing ->
  derive None (VArray a) s0 n = Ok (out1, h1) n1 ->
  derive (Some h1) (VArray a') s n1 = Ok (out2, h2) n2 ->
  exists r2,
    out2 = OutArray r2
    /\ forall i x m rm,
         out_items r2 !! i = Some (Some (x, m, rm)) ->
         let bound := if i <? array_length a then s0 else s in
         (forall act, target (fn_call m act) = bound) /\ target (rm_call rm) = bound.
Proof.
  intros Hv H1 H2.
  destruct (variant_triple derive Hv) as (memoize & replace & Ht & _).
  destruct (derive_cases derive memoize replace None (VArray a) s0 n out1 h1 n1 Ht H1)
    as [ (hk & Hk & _) | [ (a0 & r & c & [= <-] & _ & -> & -> & Hmemo)
                          | (o & r & c & Ho & _) ] ];
    [ discriminate Hk | | discriminate Ho ].
  simpl in Hmemo. unfold narrowRef in Hmemo. simpl in Hmemo.
  destruct (memoizeArray_run replace [] a s0 n) as (added & Hrun & Hlen & Hnth).
  rewrite Hmemo in Hrun. injection Hrun as Hr Hc _. simpl in Hc, Hlen, Hnth.
  rewrite Nat.sub_0_r in Hlen, Hnth. subst c.
  assert (Hold : forall i m rm, added !! i = Some (m, rm) ->
                   (forall act, target (fn_call m act) = s0) /\ target (rm_call rm) = s0).
  { intros i m rm Hi.
    assert (Hlt : i < array_length a) by (apply lookup_lt_Some in Hi; lia).
    destruct (Hnth i Hlt) as (pair & Hp & Hsyn & _). rewrite Hi in Hp.
    injection Hp as <-. exact (synthesized_pair_targets _ _ _ _ _ _ Hsyn). }
  destruct (derive_cases derive memoize replace _ _ _ _ _ _ _ Ht H2)
    as [ (hk & [= <-] & -> & -> & _ & _)
       | [ (a0 & r2 & c2 & [= <-] & _ & -> & -> & Hmemo2) | (o & r2 & c2 & Ho & _) ] ];
    [ | | discriminate Ho ].
  - exists r. split; [ reflexivity | ]. intros i x m rm Hi. rewrite Hr in Hi. simpl in Hi.
    apply imap_triple_lookup in Hi. destruct Hi as [_ Hi].
    assert (Hlt : i < array_length a) by (apply lookup_lt_Some in Hi; lia).
    apply Nat.ltb_lt in Hlt. rewrite Hlt. exact (Hold i m rm Hi).
  - exists r2. split; [ reflexivity | ]. intros i x m rm Hi.
    simpl in Hmemo2. unfold narrowRef in Hmemo2. simpl in Hmemo2.
    destruct (memoizeArray_run replace added a' s n1) as (added2 & Hrun2 & Hlen2 & Hnth2).
    rewrite Hmemo2 in Hrun2. injection Hrun2 as Hr2 Hc2 _.
    rewrite Hr2 in Hi. simpl in Hi. apply imap_triple_lookup in Hi.
    destruct Hi as [Hslot Hi]. apply lookup_lt_Some in Hslot.
    fold (array_length a') in Hslot. rewrite Hlen in Hlen2, Hnth2, Hi.
    destruct (Nat.ltb_spec i (array_length a)) as [Hlt | Hge]; cbv zeta.
    + rewrite lookup_app_l in Hi by (rewrite length_take; lia).
      rewrite lookup_take_lt in Hi by lia. exact (Hold i m rm Hi).
    + rewrite lookup_app_r in Hi by (rewrite length_take; lia).
      rewrite length_take, Hlen in Hi.
      replace (Nat.min (Nat.min (array_length a) (array_length a')) (array_length a))
        with (array_length a) in Hi by lia.
      assert (Hj : i - array_length a < array_length a' - array_length a) by lia.
      destruct (Hnth2 _ Hj) as (pair & Hp & Hsyn & _). rewrite Hi in Hp.
      injection Hp as <-. exact (synthesized_pair_targets _ _ _ _ _ _ Hsyn).
Qed.

Lemma mount_setter_outlives_renders_witness :
  exists out1 h1 n1 r2 h2 n2,
    VariantB.useDestucturing None (VArray letters) 100 2 = Ok (out1, h1) n1
    /\ VariantB.useDestucturing (Some h1) (VArray abc) 200 n1 = Ok (OutArray r2, h2) n2
    /\ forall i x m rm,
         out_items r2 !! i = Some (Some (x, m, rm)) ->
         target (rm_call rm) = if i <? 2 then 100 else 200.
Proof.
  assert (H1 : exists out1 h1 n1,
             VariantB.useDestucturing None (VArray letters) 100 2 = Ok (out1, h1) n1).
  { do 3 eexists. vm_compute. reflexivity. }
  destruct H1 as (out1 & h1 & n1 & H1).
  assert (H2 : exists r2 h2 n2,
             VariantB.useDestucturing (Some h1) (VArray abc) 200 n1
             = Ok (OutArray r2, h2) n2).
  { vm_compute in H1. injection H1 as _ <- <-. do 3 eexists. vm_compute. reflexivity. }
  destruct H2 as (r2 & h2 & n2 & H2).
  exists out1, h1, n1, r2, h2, n2. split; [ exact H1 | ]. split; [ exact H2 | ].
  destruct (mount_setter_outlives_renders VariantB.useDestucturing letters abc 100 200 2
              out1 h1 n1 (OutArray r2) h2 n2 (or_intror eq_refl) H1 H2)
    as (r & [= <-] & Hall).
  intros i x m rm Hi. exact (proj2 (Hall i x m rm Hi)).
Defined.

Lemma deps_equal_array_id (s0 : oid) (a0 : JsArray) (s : oid) (a : JsArray) :
  deps_equal (s0, VArray a0) (s, VArray a) = true -> arr_id a = arr_id a0.
Proof. intros H. now apply (deps_equal_array (s0, VArray a0) s0 a0 s a eq_refl) in H. Qed.

(** X18. The round trip of an element update: the host commits the call of
    a mutator taken from the output, with a literal value that is not a
    function, on the array of the last render, and renders again with the
    result and the same setter. The array has the same length and holds the
    value at the position, by [SameValueZero]; the cache of the site is
    unchanged, and the new output pairs the elements of the new array with
    the very closures of the old output. *)
Theorem element_update_keeps_closures derive createElement createProperty
    (hk : hook) (s : oid) (a : JsArray) (r : ArraySetState) (p : nat)
    (x : value) (m : ArrayMutator) (rm : Remove) (v : value) (n : oid)
    (a' : JsArray) (n1 : oid) (out' : output) (h' : hook) (n2 : oid) :
  same_file derive createElement createProperty ->
  rendered derive hk ->
  memo_deps hk = (s, VArray a) ->
  memo_value hk = OutArray r ->
  out_items r !! p = Some (Some (x, m, rm)) ->
  arr_id a < n ->
  typeof v <> "function" ->
  commit (fn_call m (Literal v)) a n = Ok a' n1 ->
  derive (Some hk) (VArray a') s n1 = Ok (out', h') n2 ->
  array_length a' = array_length a
  /\ same_value_zero (array_get a' p) v = true
  /\ (forall j, j <> p -> array_get a' j = array_get a j)
  /\ exists c r',
       ref_current hk = CacheArray c /\ ref_current h' = CacheArray c
       /\ out' = OutArray r'
       /\ out_items r = imap (triple_at c) (arr_slots a)
       /\ out_items r' = imap (triple_at c) (arr_slots a').
Proof.
  intros Hv Hr Hdeps Hval Hentry Hid _ Hcommit Hrun.
  destruct (rendered_inv _ _ _ _ Hv Hr) as [Hc Hb].
  destruct (same_file_cases _ _ _ Hv) as (memoize & replace & Ht & _ & HcE & _).
  destruct (site_consistent_array hk r Hc Hval) as (c & s' & a0 & Href & Hd & Hlen & Hitems).
  rewrite Hdeps in Hd. injection Hd as <- <-.
  pose proof Hentry as Hentry'. rewrite Hitems in Hentry'.
  apply imap_triple_lookup in Hentry'. destruct Hentry' as [Hslot Hp].
  assert (Hlt : p < array_length a) by (apply lookup_lt_Some in Hslot; exact Hslot).
  rewrite Href in Hb. simpl in Hb.
  destruct (Hb p (m, rm) Hp) as (s0 & id & Hm & _). simpl in Hm.
  destruct (array_transform_reads createElement s0 p id m (Literal v) a n v n HcE Hm eq_refl)
    as (new & n3 & H1 & _ & _ & H2 & H3 & H4 & H5).
  rewrite Hcommit in H1. injection H1 as <- <-.
  split; [ now apply H4 | ]. split; [ exact H2 | ]. split; [ exact H3 | ].
  exists c.
  destruct (derive_cases derive memoize replace _ _ _ _ _ _ _ Ht Hrun)
    as [ (hk' & [= <-] & -> & -> & _ & Heq)
       | [ (a0 & r2 & c2 & [= <-] & _ & -> & -> & Hmemo) | (o & r2 & c2 & Ho & _) ] ];
    [ | | discriminate Ho ].
  - exists r. rewrite Hdeps in Heq. apply deps_equal_array_id in Heq.
    destruct H5 as [ -> | H5 ]; [ | lia ].
    repeat split; assumption.
  - simpl in Hmemo. unfold narrowRef in Hmemo. rewrite Href in Hmemo. simpl in Hmemo.
    rewrite memoizeArray_same_length in Hmemo by (rewrite Hlen; symmetry; now apply H4).
    injection Hmemo as <- <- _. eexists. repeat split; try assumption; reflexivity.
Qed.

Lemma element_update_keeps_closures_witness :
  exists r c n' m rm a' n1 out' h' n2,
    VariantB.useDestucturing None (VArray abc) 100 2
    = Ok (OutArray r, Hook (CacheArray c) (100, VArray abc) (OutArray r)) n'
    /\ out_items r !! 0 = Some (Some (VString "a", m, rm))
    /\ commit (fn_call m (Literal (VString "z"))) abc 20 = Ok a' n1
    /\ VariantB.useDestucturing
         (Some (Hook (CacheArray c) (100, VArray abc) (OutArray r))) (VArray a') 100 n1
       = Ok (out', h') n2
    /\ array_length a' = array_length abc
    /\ same_value_zero (array_get a' 0) (VString "z") = true.
Proof.
  assert (H : exists r c n' m rm a' n1 out' h' n2,
    VariantB.useDestucturing None (VArray abc) 100 2
    = Ok (OutArray r, Hook (CacheArray c) (100, VArray abc) (OutArray r)) n'
    /\ out_items r !! 0 = Some (Some (VString "a", m, rm))
    /\ commit (fn_call m (Literal (VString "z"))) abc 20 = Ok a' n1
    /\ VariantB.useDestucturing
         (Some (Hook (CacheArray c) (100, VArray abc) (OutArray r))) (VArray a') 100 n1
       = Ok (out', h') n2).
  { do 10 eexists. split; [ vm_compute; reflexivity | ].
    split; [ vm_compute; reflexivity | ]. split; vm_compute; reflexivity. }
  destruct H as (r & c & n' & m & rm & a' & n1 & out' & h' & n2 & H1 & H2 & H3 & H4).
  exists r, c, n', m, rm, a', n1, out', h', n2.
  split; [ exact H1 | ]. split; [ exact H2 | ]. split; [ exact H3 | ].
  split; [ exact H4 | ].
  destruct (element_update_keeps_closures VariantB.useDestucturing _ _
              (Hook (CacheArray c) (100, VArray abc) (OutArray r)) 100 abc r 0
              (VString "a") m rm (VString "z") 20 a' n1 out' h' n2 same_file_part000
              (rendered_mount _ _ _ _ _ _ _ H1) eq_refl eq_refl H2)
    as (Hlen & Hz & _); [ simpl; lia | discriminate | exact H3 | exact H4 | ].
  split; [ exact Hlen | exact Hz ].
Defined.

(** X19. The round trip of a removal on an array without holes: the host
    gets the array without position [p], and the next render, with the same
    setter, cuts the last slot off the cache. Position [j] of the new output holds the closures
    cached for position [j], now with the element that moved there. *)
Theorem removal_keeps_closures_with_positions derive createElement createProperty
    (hk : hook) (s aid : oid) (xs : list value) (r : ArraySetState) (p : nat)
    (x : value) (m : ArrayMutator) (rm : Remove) (n : oid)
    (a' : JsArray) (n1 : oid) (out' : output) (h' : hook) (n2 : oid) :
  same_file derive createElement createProperty ->
  rendered derive hk ->
  memo_deps hk = (s, VArray (Arr aid (Some <$> xs))) ->
  memo_value hk = OutArray r ->
  out_items r !! p = Some (Some (x, m, rm)) ->
  aid < n ->
  commit (rm_call rm) (Arr aid (Some <$> xs)) n = Ok a' n1 ->
  derive (Some hk) (VArray a') s n1 = Ok (out', h') n2 ->
  a' = Arr n (Some <$> delete p xs)
  /\ length (delete p xs) = length xs - 1
  /\ exists c r',
       ref_current hk = CacheArray c
       /\ ref_current h' = CacheArray (take (length xs - 1) c)
       /\ out' = OutArray r'
       /\ forall j y, delete p xs !! j = Some y ->
            exists mj rj, c !! j = Some (mj, rj)
                          /\ out_items r' !! j = Some (Some (y, mj, rj)).
Proof.
  intros Hv Hr Hdeps Hval Hentry Hid Hcommit Hrun.
  destruct (rendered_inv _ _ _ _ Hv Hr) as [Hc Hb].
  destruct (same_file_cases _ _ _ Hv) as (memoize & replace & Ht & _ & HcE & _).
  destruct (site_consistent_array hk r Hc Hval) as (c & s' & a0 & Href & Hd & Hlen & Hitems).
  rewrite Hdeps in Hd. injection Hd as <- <-.
  unfold array_length in Hlen. simpl in Hlen. rewrite length_fmap in Hlen.
  rewrite Hitems in Hentry. apply imap_triple_lookup in Hentry.
  destruct Hentry as [Hslot Hp].
  assert (Hlt : p < length xs).
  { apply lookup_lt_Some in Hslot. simpl in Hslot. now rewrite length_fmap in Hslot. }
  rewrite Href in Hb. simpl in Hb.
  destruct (Hb p (m, rm) Hp) as (s0 & id & _ & Hrm). simpl in Hrm.
  rewrite (remover_transform s0 p (S id) rm aid _ n Hrm) in Hcommit.
  rewrite delete_fmap_Some, present_Some in Hcommit. injection Hcommit as <- <-.
  assert (Hdel : length (delete p xs) = length xs - 1).
  { apply length_delete. now apply lookup_lt_is_Some_2. }
  split; [ reflexivity | ]. split; [ exact Hdel | ].
  exists c.
  destruct (derive_cases derive memoize replace _ _ _ _ _ _ _ Ht Hrun)
    as [ (hk' & [= <-] & -> & -> & _ & Heq)
       | [ (a0 & r2 & c2 & [= <-] & _ & -> & -> & Hmemo) | (o & r2 & c2 & Ho & _) ] ];
    [ | | discriminate Ho ].
  - rewrite Hdeps in Heq. apply deps_equal_array_id in Heq. simpl in Heq. lia.
  - simpl in Hmemo. unfold narrowRef in Hmemo. rewrite Href in Hmemo. simpl in Hmemo.
    destruct (memoizeArray_run replace c (Arr n (Some <$> delete p xs)) s (S n))
      as (added & Hrun2 & Hlen2 & _).
    rewrite Hmemo in Hrun2. injection Hrun2 as Hr2 Hc2 _.
    unfold array_length in Hr2, Hc2, Hlen2. simpl in Hr2, Hc2, Hlen2.
    rewrite length_fmap, Hdel, Hlen in Hr2, Hc2, Hlen2.
    replace (length xs - 1 - length xs) with 0 in Hlen2 by lia.
    apply nil_length_inv in Hlen2. subst added. rewrite app_nil_r in Hr2, Hc2.
    replace (Nat.min (length xs) (length xs - 1)) with (length xs - 1) in Hr2, Hc2 by lia.
    exists r2. split; [ exact Href | ]. split; [ simpl; now rewrite Hc2 | ].
    split; [ reflexivity | ].
    intros j y Hj.
    assert (Hjlt : j < length xs - 1) by (apply lookup_lt_Some in Hj; lia).
    destruct (lookup_lt_is_Some_2 c j) as [ [mj rj] Hcj ]; [ lia | ].
    exists mj, rj. split; [ exact Hcj | ].
    rewrite Hr2. simpl. rewrite list_lookup_imap, list_lookup_fmap, Hj. simpl.
    unfold triple_at. rewrite lookup_take_lt by lia. now rewrite Hcj.
Qed.

Lemma removal_keeps_closures_with_positions_witness :
  exists r c n' m rm a' n1 out' h' n2,
    VariantB.useDestucturing None (VArray abc) 100 2
    = Ok (OutArray r, Hook (CacheArray c) (100, VArray abc) (OutArray r)) n'
    /\ out_items r !! 0 = Some (Some (VString "a", m, rm))
    /\ commit (rm_call rm) abc 20 = Ok a' n1
    /\ VariantB.useDestucturing
         (Some (Hook (CacheArray c) (100, VArray abc) (OutArray r))) (VArray a') 100 n1
       = Ok (out', h') n2
    /\ a' = Arr 20 [Some (VString "b"); Some (VString "c")]
    /\ ref_current h' = CacheArray (take 2 c).
Proof.
  assert (H : exists r c n' m rm a' n1 out' h' n2,
    VariantB.useDestucturing None (VArray abc) 100 2
    = Ok (OutArray r, Hook (CacheArray c) (100, VArray abc) (OutArray r)) n'
    /\ out_items r !! 0 = Some (Some (VString "a", m, rm))
    /\ commit (rm_call rm) abc 20 = Ok a' n1
    /\ VariantB.useDestucturing
         (Some (Hook (CacheArray c) (100, VArray abc) (OutArray r))) (VArray a') 100 n1
       = Ok (out', h') n2).
  { do 10 eexists. split; [ vm_compute; reflexivity | ].
    split; [ vm_compute; reflexivity | ]. split; vm_compute; reflexivity. }
  destruct H as (r & c & n' & m & rm & a' & n1 & out' & h' & n2 & H1 & H2 & H3 & H4).
  exists r, c, n', m, rm, a', n1, out', h', n2.
  split; [ exact H1 | ]. split; [ exact H2 | ]. split; [ exact H3 | ].
  split; [ exact H4 | ].
  destruct (removal_keeps_closures_with_positions VariantB.useDestucturing _ _
              (Hook (CacheArray c) (100, VArray abc) (OutArray r)) 100 1
              [VString "a"; VString "b"; VString "c"] r 0
              (VString "a") m rm 20 a' n1 out' h' n2 same_file_part000
              (rendered_mount _ _ _ _ _ _ _ H1) eq_refl eq_refl H2)
    as (Ha & _ & c0 & r' & Hc0 & Hc' & _); [ lia | exact H3 | exact H4 | ].
  split; [ exact Ha | ]. simpl in Hc0. injection Hc0 as <-. exact Hc'.
Defined.

(** X20. The round trip of a field update: after a reconciliation over a
    record, the host commits the call of a method of the output on that
    record and renders again with the result and the same setter. The keys
    are unchanged, so the render returns the prior output and leaves the
    cells of the site as they are, allocating nothing. *)
Theorem field_update_keeps_output derive createElement createProperty
    (h : option hook) (o : JsObject) (s n : oid) (r : ObjectSetState) (h1 : hook)
    (n1 : oid) (name : list Z) (f : FieldMutator) (v : value) (n2 : oid)
    (o' : JsObject) (n3 : oid) :
  same_file derive createElement createProperty ->
  (forall hk, h = Some hk -> rendered derive hk) ->
  recomputes h (s, VNumber (hashStrings (keysOf o))) = true ->
  derive h (VObject o) s n = Ok (OutObject r, h1) n1 ->
  get_method name (set_methods r) = Some f ->
  commit (fn_call f (Literal v)) o n2 = Ok o' n3 ->
  keysOf o' = keysOf o
  /\ derive (Some h1) (VObject o') s n3 = Ok (OutObject r, h1) n3.
Proof.
  intros Hv Hprev Hmiss Hrun Hget Hcommit.
  destruct (same_file_cases _ _ _ Hv) as (memoize & replace & Ht & _ & _ & HcP & Hd & Hmb).
  assert (Hm : memoize = VariantA.memoizeObject \/ memoize = VariantB.memoizeObject).
  { destruct Ht as [ (_ & -> & _) | (_ & -> & _) ]; [ now left | now right ]. }
  destruct (derive_cases derive memoize replace _ _ _ _ _ _ _ Ht Hrun)
    as [ (hk' & -> & _ & _ & _ & Heq)
       | [ (a0 & r2 & c2 & Ha & _) | (o0 & r2 & c2 & [= <-] & _ & [= <-] & -> & Hmemo) ] ];
    [ | discriminate Ha | ].
  - simpl in Hmiss. rewrite Heq in Hmiss. discriminate.
  - assert (Hbound : fields_bound createProperty c2).
    { apply (Hmb _ _ _ _ _ _ _ Hmemo).
      destruct h as [ hk | ]; simpl; [ | apply fields_bound_empty ].
      destruct (rendered_inv _ _ _ _ Hv (Hprev hk eq_refl)) as [_ Hb].
      unfold narrowRef. destruct (ref_current hk); simpl;
        [ apply fields_bound_empty | exact Hb ]. }
    destruct (memoizeObject_output memoize _ o s n r c2 n1 Hm Hmemo) as (_ & _ & _ & Hmeth).
    rewrite Hmeth in Hget.
    destruct (last_named name (keysOf o)) as [ key | ] eqn:E; [ | discriminate ].
    destruct (last_named_Some _ _ _ E) as [Hin _].
    destruct (Hbound key f Hget) as (s0 & id & Hf).
    destruct (field_transform_reads createProperty s0 key id f (Literal v) o v n2 HcP Hf)
      as (new & n4 & H1 & _ & _ & _ & _ & _ & Hkeys & _); [ reflexivity | ].
    rewrite Hcommit in H1. injection H1 as <- <-.
    split; [ now apply Hkeys | ].
    destruct (variant_cases_hook derive Hd) as (rp & mz & msg & -> & _).
    apply (derive_hit rp mz msg); [ reflexivity | ].
    simpl. rewrite (Hkeys Hin). apply deps_equal_refl.
Qed.

Lemma field_update_keeps_output_witness :
  exists r h1 n1 f o' n3,
    VariantB.useDestucturing None (VObject xy_record) 100 3 = Ok (OutObject r, h1) n1
    /\ get_method (units "setX") (set_methods r) = Some f
    /\ commit (fn_call f (Literal (VNumber 5))) xy_record 30 = Ok o' n3
    /\ VariantB.useDestucturing (Some h1) (VObject o') 100 n3 = Ok (OutObject r, h1) n3.
Proof.
  assert (H : exists r h1 n1 f o' n3,
    VariantB.useDestucturing None (VObject xy_record) 100 3 = Ok (OutObject r, h1) n1
    /\ get_method (units "setX") (set_methods r) = Some f
    /\ commit (fn_call f (Literal (VNumber 5))) xy_record 30 = Ok o' n3).
  { do 6 eexists. split; [ vm_compute; reflexivity | ].
    split; vm_compute; reflexivity. }
  destruct H as (r & h1 & n1 & f & o' & n3 & H1 & H2 & H3).
  exists r, h1, n1, f, o', n3.
  split; [ exact H1 | ]. split; [ exact H2 | ]. split; [ exact H3 | ].
  apply (field_update_keeps_output VariantB.useDestucturing _ _ None xy_record 100 3
           r h1 n1 (units "setX") f (VNumber 5) 30 o' n3 same_file_part000).
  - discriminate.
  - reflexivity.
  - exact H1.
  - exact H2.
  - exact H3.
Defined.
